(** * git-secret-scanner: the heuristic scanner and the LLM review pipeline

    A shallow embedding of [scanner.py], [llm_utils.py], [git_utils.py] and
    [main.py].

    - Python [str] is [string]; a character is a code point below 256, and
      the library predicates the code relies on ([str.isspace], the line
      breaks of [str.splitlines], [\w] and [\s] of [re], [str.lower]) are
      written out for that range.
    - Python [float] is [R]: the entropy is computed in exact real
      arithmetic, rounding of binary64 is outside the model.
    - A finding is a Python [dict] with string keys: [gmap string value].
      The functions of [llm_utils.py] update findings in place, so there the
      findings live in a store and lists hold references.
    - [git_utils.py] and [main.py] act on what is outside the program: a
      function returns the list of the things it did together with its
      result or the exception it raised. *)

From Stdlib Require Import String Ascii NArith ZArith Reals Lra Lia Bool Sorted.
From stdpp Require Import gmap strings list fin_maps pretty.

Local Open Scope string_scope.
Local Open Scope list_scope.

(** ** Characters *)

Module Char.

Definition code (c : ascii) : N := N_of_ascii c.

Definition between (lo hi : N) (c : ascii) : bool :=
  ((lo <=? code c) && (code c <=? hi))%N.

Definition has_code (n : N) (c : ascii) : bool := (code c =? n)%N.

(** [str.isspace], which is also [\s] of [re] on [str] patterns. *)
Definition isspace (c : ascii) : bool :=
  between 9 13 c || between 28 31 c || has_code 32 c || has_code 133 c || has_code 160 c.

(** The line boundaries of [str.splitlines]. *)
Definition islinebreak (c : ascii) : bool :=
  between 10 13 c || between 28 30 c || has_code 133 c.

(** [\w] of [re] on [str] patterns: alphanumeric or underscore. *)
Definition isword (c : ascii) : bool :=
  between 48 57 c || between 65 90 c || has_code 95 c || between 97 122 c
  || has_code 170 c || between 178 179 c || has_code 181 c || between 185 186 c
  || between 188 190 c || between 192 214 c || between 216 246 c
  || between 248 255 c.

(** [str.lower] on one character. *)
Definition lower (c : ascii) : ascii :=
  if between 65 90 c || between 192 214 c || between 216 222 c
  then ascii_of_N (code c + 32) else c.

End Char.

(** ** The [str] methods the scanner calls *)

Module Str.

Fixpoint lower (s : string) : string :=
  match s with
  | EmptyString => EmptyString
  | String c t => String (Char.lower c) (lower t)
  end.

(** [s.startswith(p)] *)
Definition startswith (s p : string) : bool := String.prefix p s.

(** [s[n:]] *)
Fixpoint drop (n : nat) (s : string) : string :=
  match n, s with
  | O, _ => s
  | S n', String _ t => drop n' t
  | S _, EmptyString => EmptyString
  end.

Fixpoint lstrip (s : string) : string :=
  match s with
  | String c t => if Char.isspace c then lstrip t else s
  | EmptyString => EmptyString
  end.

Fixpoint rstrip_by (p : ascii -> bool) (s : string) : string :=
  match s with
  | EmptyString => EmptyString
  | String c t =>
      match rstrip_by p t with
      | EmptyString => if p c then EmptyString else String c EmptyString
      | r => String c r
      end
  end.

(** [s.strip()] *)
Definition strip (s : string) : string := rstrip_by Char.isspace (lstrip s).

(** [s.rstrip] of line feeds *)
Definition rstrip_nl (s : string) : string := rstrip_by (Char.has_code 10) s.

Definition snoc (s : string) (c : ascii) : string :=
  s +:+ String c EmptyString.

(** [s.splitlines()]: [cur] is the line read so far.  A carriage return
    followed by a line feed is one boundary; the text after the last
    boundary is a line only when it is not empty. *)
Fixpoint splitlines_from (cur s : string) : list string :=
  match s with
  | EmptyString => match cur with EmptyString => [] | _ => [cur] end
  | String c t =>
      if Char.islinebreak c then
        cur :: match t with
               | String c' t' =>
                   if Char.has_code 13 c && Char.has_code 10 c'
                   then splitlines_from EmptyString t'
                   else splitlines_from EmptyString t
               | EmptyString => []
               end
      else splitlines_from (snoc cur c) t
  end.

Definition splitlines (s : string) : list string :=
  splitlines_from EmptyString s.

(** [s.split()]: the maximal runs of characters that are not whitespace. *)
Fixpoint split_from (cur s : string) : list string :=
  match s with
  | EmptyString => match cur with EmptyString => [] | _ => [cur] end
  | String c t =>
      if Char.isspace c then
        match cur with
        | EmptyString => split_from EmptyString t
        | _ => cur :: split_from EmptyString t
        end
      else split_from (snoc cur c) t
  end.

Definition split (s : string) : list string := split_from EmptyString s.

(** [enumerate(xs, start)] *)
Fixpoint enumerate {A} (start : nat) (xs : list A) : list (nat * A) :=
  match xs with
  | [] => []
  | x :: r => (start, x) :: enumerate (S start) r
  end.

End Str.

(** ** Regular expressions

    The fragment of [re] the three rules are written in.  A quantifier
    applies to a one-character item in each of them ([\s*], [[...]{4,}]),
    so repetition is over a character class.  [search] only has to say
    whether some match exists, which a backtracking matcher decides by
    trying every alternative. *)

Module Re.

Inductive regex : Type :=
| Eps
| Chr (p : ascii -> bool)
| Bnd
| Seq (a b : regex)
| Alt (a b : regex)
| Rep (min : nat) (p : ascii -> bool).

Definition word_before (prev : option ascii) : bool :=
  match prev with Some c => Char.isword c | None => false end.

Definition word_here (s : string) : bool :=
  match s with String c _ => Char.isword c | EmptyString => false end.

(** [p{min,}] at [s], longest repetition first; [k] is the rest of the
    pattern, given the character before the position and the text left. *)
Fixpoint rep (p : ascii -> bool) (min : nat) (prev : option ascii)
    (s : string) (k : option ascii -> string -> bool) : bool :=
  match s with
  | String c t =>
      (p c && rep p (Nat.pred min) (Some c) t k)
      || (Nat.eqb min 0 && k prev s)
  | EmptyString => Nat.eqb min 0 && k prev s
  end.

Fixpoint matches (r : regex) (prev : option ascii) (s : string)
    (k : option ascii -> string -> bool) : bool :=
  match r with
  | Eps => k prev s
  | Chr p =>
      match s with
      | String c t => p c && k (Some c) t
      | EmptyString => false
      end
  | Bnd => xorb (word_before prev) (word_here s) && k prev s
  | Seq a b => matches a prev s (fun prev' s' => matches b prev' s' k)
  | Alt a b => matches a prev s k || matches b prev s k
  | Rep min p => rep p min prev s k
  end.

Definition match_here (r : regex) (prev : option ascii) (s : string) : bool :=
  matches r prev s (fun _ _ => true).

Fixpoint search_from (r : regex) (prev : option ascii) (s : string) : bool :=
  match_here r prev s
  || match s with
     | String c t => search_from r (Some c) t
     | EmptyString => false
     end.

(** [regex.search(s)], as a truth value. *)
Definition search (r : regex) (s : string) : bool := search_from r None s.

(** Pattern syntax.  All three rules start with [(?i)]: a letter of the
    pattern matches both of its cases. *)
Definition ichar (x : ascii) : regex :=
  Chr (fun c => Ascii.eqb (Char.lower c) (Char.lower x)).

Fixpoint iword (w : string) : regex :=
  match w with
  | EmptyString => Eps
  | String x t => Seq (ichar x) (iword t)
  end.

Definition cat (rs : list regex) : regex := foldr Seq Eps rs.

Fixpoint alt (rs : list regex) : regex :=
  match rs with
  | [] => Chr (fun _ => false)
  | [r] => r
  | r :: rest => Alt r (alt rest)
  end.

Definition isquote (c : ascii) : bool := Char.has_code 34 c || Char.has_code 39 c.

(** A rule: a keyword between word boundaries, [\s*=\s*], a quote, at
    least four value characters, a quote. *)
Definition assignment (keywords : list string) (value : ascii -> bool) : regex :=
  cat [ Bnd; alt (iword <$> keywords); Bnd;
        Rep 0 Char.isspace; Chr (Char.has_code 61); Rep 0 Char.isspace;
        Chr isquote; Rep 4 value; Chr isquote ].

(** The value class of the password and secret rules: any character
    that is not a quote. *)
Definition not_quote (c : ascii) : bool := negb (isquote c).

(** The value class of the token rule, [[A-Za-z0-9_\-=/+]]. *)
Definition token_char (c : ascii) : bool :=
  Char.between 65 90 c || Char.between 97 122 c || Char.between 48 57 c
  || Char.has_code 95 c || Char.has_code 45 c || Char.has_code 61 c || Char.has_code 47 c
  || Char.has_code 43 c.

End Re.

(** ** scanner.py *)

Definition password_regex : Re.regex :=
  Re.assignment ["password"; "pwd"; "pass"; "user_password"] Re.not_quote.

Definition token_regex : Re.regex :=
  Re.assignment ["token"; "api_token"; "auth_token"] Re.token_char.

Definition secret_regex : Re.regex :=
  Re.assignment ["secret"; "secret_key"; "private_key"] Re.not_quote.

(** [REGEX_PATTERNS]: (regex, pattern name, finding type), in this order. *)
Definition REGEX_PATTERNS : list (Re.regex * string * string) :=
  [ (password_regex, "password assignment", "hardcoded_password");
    (token_regex, "token assignment", "hardcoded_token");
    (secret_regex, "secret assignment", "hardcoded_secret") ].

(** A Python value, as far as findings and verdicts hold them. *)
Inductive value : Type :=
| VNone
| VBool (b : bool)
| VInt (n : Z)
| VStr (s : string).

#[global] Instance value_eq_dec : EqDecision value.
Proof. solve_decision. Defined.

Abbreviation dict := (gmap string value).

(** [math.log2] *)
Definition log2 (x : R) : R := (ln x / ln 2)%R.

(** [Counter(s)]: the characters of [s] with their number of occurrences,
    in the order of their first occurrence. *)
Fixpoint bump (c : ascii) (counts : list (ascii * nat)) : list (ascii * nat) :=
  match counts with
  | [] => [(c, 1)]
  | (d, n) :: rest =>
      if Ascii.eqb c d then (d, S n) :: rest else (d, n) :: bump c rest
  end.

Fixpoint Counter_from (counts : list (ascii * nat)) (s : string) : list (ascii * nat) :=
  match s with
  | EmptyString => counts
  | String c t => Counter_from (bump c counts) t
  end.

Definition Counter (s : string) : list (ascii * nat) := Counter_from [] s.

Definition shannon_entropy (s : string) : R :=
  match s with
  | EmptyString => 0%R
  | _ =>
      let counts := Counter s in
      let length := String.length s in
      fold_left
        (fun entropy count =>
           let p := (INR count / INR length)%R in
           (entropy - p * log2 p)%R)
        (snd <$> counts) 0%R
  end.

Definition entropy_to_confidence (entropy : R) : string :=
  if Rlt_dec entropy 3 then "low"
  else if Rlt_dec entropy 4 then "medium"
  else "high".

(** [x or d] for an optional string: [None] and the empty string are falsy. *)
Definition or_else (x : option string) (d : string) : string :=
  match x with
  | Some (String _ _ as s) => s
  | _ => d
  end.

(** The loop over [REGEX_PATTERNS] in both scans: the first rule that
    matches [code_line] appends one finding and leaves the loop. *)
Fixpoint scan_rules (rules : list (Re.regex * string * string))
    (finding : string -> string -> dict) (code_line : string)
    (findings : list dict) : list dict :=
  match rules with
  | [] => findings
  | (regex, pattern_name, finding_type) :: rest =>
      if Re.search regex code_line
      then findings ++ [finding pattern_name finding_type]
      else scan_rules rest finding code_line findings
  end.

(** The nearest integer, a tie going to the even one. *)
Definition round_half_even (x : R) : Z :=
  let n := Int_part x in
  let f := frac_part x in
  if Rlt_dec f (1 / 2) then n
  else if Rlt_dec (1 / 2) f then (n + 1)%Z
  else if Z.even n then n else (n + 1)%Z.

(** The [:.2f] of an f-string: sign, integer part, a point and two
    decimals, rounded to the nearest hundredth. *)
Definition format_2f (x : R) : string :=
  let q := round_half_even (Rabs x * 100) in
  (if Rlt_dec x 0 then "-" else EmptyString)
  +:+ pretty (q / 100)%Z +:+ "."
  +:+ pretty (q mod 100 / 10)%Z +:+ pretty (q mod 10)%Z.

Definition text_finding (commit_hash : option string) (file_path : string)
    (line_number : nat) (code_line pattern_name finding_type : string) : dict :=
  let entropy := shannon_entropy code_line in
  let confidence := entropy_to_confidence entropy in
  list_to_map
    [ ("commit_hash", VStr (or_else commit_hash "unknown"));
      ("file_path", VStr file_path);
      ("line", VInt (Z.of_nat line_number));
      ("snippet", VStr code_line);
      ("type", VStr finding_type);
      ("confidence", VStr confidence);
      ("rationale",
        VStr ("Commit message line matches regex '" +:+ pattern_name
              +:+ "' (entropy: " +:+ format_2f entropy +:+ ")")) ].

Definition scan_text_for_passwords (text file_path : string)
    (commit_hash : option string) : list dict :=
  fold_left
    (fun findings '(line_number, line) =>
       let code_line := Str.rstrip_nl line in
       scan_rules REGEX_PATTERNS
         (text_finding commit_hash file_path line_number code_line)
         code_line findings)
    (Str.enumerate 1 (Str.splitlines text)) [].

Definition diff_finding (diff_source : string) (current_file : option string)
    (line_number : nat) (code_line pattern_name finding_type : string) : dict :=
  let entropy := shannon_entropy code_line in
  let confidence := entropy_to_confidence entropy in
  list_to_map
    [ ("commit_hash", VStr diff_source);
      ("file_path", VStr (or_else current_file "unknown"));
      ("line", VInt (Z.of_nat line_number));
      ("snippet", VStr code_line);
      ("type", VStr finding_type);
      ("confidence", VStr confidence);
      ("rationale",
        VStr ("Added line in diff matches regex '" +:+ pattern_name
              +:+ "' entropy= " +:+ format_2f entropy +:+ ")")) ].

(** The file a [+++ ] header names: the second field of the line, without
    a leading [b/]; a header with a single field changes nothing. *)
Definition header_file (current_file : option string) (line : string)
  : option string :=
  if Str.startswith line "+++ " then
    match Str.split line with
    | _ :: path :: _ =>
        Some (if Str.startswith path "b/" then Str.drop 2 path else path)
    | _ => current_file
    end
  else current_file.

(** The added line a diff line carries, without its [+]. *)
Definition added_code (line : string) : option string :=
  let stripped := Str.strip line in
  if Str.startswith stripped "+" && negb (Str.startswith stripped "+++")
  then Some (Str.drop 1 stripped) else None.

(** One turn of the loop of [scan_diff_for_passwords]. *)
Definition diff_line (diff_source : string)
    (st : option string * list dict) (numbered : nat * string)
  : option string * list dict :=
  let '(current_file, findings) := st in
  let '(line_number, line) := numbered in
  let current_file := header_file current_file line in
  match added_code line with
  | Some code_line =>
      (current_file,
       scan_rules REGEX_PATTERNS
         (diff_finding diff_source current_file line_number code_line)
         code_line findings)
  | None => (current_file, findings)
  end.

Definition scan_diff_lines (diff_source : string) (start : nat)
    (lines : list string) (st : option string * list dict)
  : option string * list dict :=
  fold_left (diff_line diff_source) (Str.enumerate start lines) st.

Definition scan_diff_for_passwords (diff_text diff_source : string)
  : list dict :=
  snd (scan_diff_lines diff_source 1 (Str.splitlines diff_text) (None, [])).

(** ** llm_utils.py

    The findings are dicts that [build_llm_payload] and [merge_llm_results]
    update in place, and the lists passed around hold the same objects: a
    [store] maps a reference to the dict it denotes, and a list of findings
    is a list of references.  A reference the store does not hold reads
    as the empty dict; the lists the pipeline builds hold references of the
    store only.  The payload items and the verdicts are only read after
    they are built, so they are plain dicts. *)

Definition loc := nat.
Abbreviation store := (gmap loc dict).

Definition deref (h : store) (l : loc) : dict := default ∅ (h !! l).

(** [d.get(k)] *)
Definition get (d : dict) (k : string) : value := default VNone (d !! k).

(** [str(v)] *)
Definition py_str (v : value) : string :=
  match v with
  | VNone => "None"
  | VBool true => "True"
  | VBool false => "False"
  | VInt n => pretty n
  | VStr s => s
  end.

(** [order] of [select_llm_candidates]. *)
Definition order : gmap string nat :=
  list_to_map [("low", 0); ("medium", 1); ("high", 2)].

(** [order.get(min_confidence, order["medium"])] *)
Definition min_level_of (min_confidence : string) : nat :=
  default 1 (order !! min_confidence).

(** [str(finding.get("confidence", "medium")).lower()] *)
Definition conf_of (finding : dict) : string :=
  let raw_conf := default (VStr "medium") (finding !! "confidence") in
  Str.lower (py_str raw_conf).

Definition select_llm_candidates (h : store) (findings : list loc)
    (min_confidence : string) : list loc :=
  let min_level := min_level_of min_confidence in
  fold_left
    (fun (llm_candidates : list loc) finding =>
       let conf := conf_of (deref h finding) in
       match order !! conf with
       | None => llm_candidates
       | Some level =>
           if Nat.leb level min_level
           then llm_candidates ++ [finding]
           else llm_candidates
       end)
    findings [].

(** [f"f{index}"] *)
Definition review_id (index : nat) : string := "f" +:+ pretty index.

(** The dict [llm_finding] that [build_llm_payload] builds from the
    finding [f]. *)
Definition llm_finding (ids : string) (f : dict) : dict :=
  let commit_hash := get f "commit_hash" in
  let file_path := get f "file_path" in
  let line := get f "line" in
  let snippet := get f "snippet" in
  let confidence := get f "confidence" in
  list_to_map
    [ ("id", VStr ids);
      ("commit_hash", commit_hash);
      ("file_path", file_path);
      ("line", line);
      ("snippet", snippet);
      ("confidence", confidence) ].

(** One turn of the loop of [build_llm_payload]: the id is stored in the
    finding, then the fields of the payload item are read from it. *)
Definition payload_step (st : store * list dict) (numbered : nat * loc)
  : store * list dict :=
  let '(h, llm_payload) := st in
  let '(index, finding) := numbered in
  let ids := review_id index in
  let h := <[finding := <["id" := VStr ids]> (deref h finding)]> h in
  (h, llm_payload ++ [llm_finding ids (deref h finding)]).

Definition build_llm_payload (h : store) (candidates : list loc)
  : store * list dict :=
  fold_left payload_step (Str.enumerate 1 candidates) (h, []).

(** The key a value is as a dict key: [True] and [1], [False] and [0] are
    the same key. *)
Definition hkey (v : value) : option (Z + string) :=
  match v with
  | VNone => None
  | VBool b => Some (inl (Z.b2z b))
  | VInt n => Some (inl n)
  | VStr s => Some (inr s)
  end.

(** The key of [results_by_id] a verdict is filed under, if any. *)
Definition result_key (result : dict) : option (option (Z + string)) :=
  match get result "id" with
  | VNone => None
  | rid => Some (hkey rid)
  end.

(** One turn of the first loop of [merge_llm_results]. *)
Definition index_step (results_by_id : gmap (option (Z + string)) dict)
    (result : dict) : gmap (option (Z + string)) dict :=
  match result_key result with
  | Some rid => <[rid := result]> results_by_id
  | None => results_by_id
  end.

Definition index_results (llm_results : list dict)
  : gmap (option (Z + string)) dict :=
  fold_left index_step llm_results ∅.

(** The four assignments at the end of the loop of [merge_llm_results]. *)
Definition attach (llm_result finding : dict) : dict :=
  <["llm_comment" := get llm_result "llm_comment"]>
    (<["llm_confidence" := get llm_result "llm_confidence"]>
      (<["llm_type" := get llm_result "llm_type"]>
        (<["llm_is_secret" := get llm_result "is_secret"]> finding))).

Definition merge_step (results_by_id : gmap (option (Z + string)) dict)
    (h : store) (finding : loc) : store :=
  match get (deref h finding) "id" with
  | VNone => h
  | fid =>
      match results_by_id !! hkey fid with
      | None => h
      | Some llm_result =>
          <[finding := attach llm_result (deref h finding)]> h
      end
  end.

Definition merge_llm_results (h : store) (findings : list loc)
    (llm_results : list dict) : store * list loc :=
  let results_by_id := index_results llm_results in
  (fold_left (merge_step results_by_id) findings h, findings).

(** ** Notions the statements use *)

(** The first rule, in the order of the list, whose regex is found in
    [code_line]. *)
Definition first_match (rules : list (Re.regex * string * string))
    (code_line : string) : option (Re.regex * string * string) :=
  List.find (fun rule => Re.search rule.1.1 code_line) rules.

(** The findings one line of a diff contributes, [current_file] being the
    file after the line's own header was read. *)
Definition diff_line_findings (diff_source : string)
    (current_file : option string) (line_number : nat) (line : string)
  : list dict :=
  match added_code line with
  | Some code_line =>
      match first_match REGEX_PATTERNS code_line with
      | Some (_, pattern_name, finding_type) =>
          [diff_finding diff_source current_file line_number code_line
             pattern_name finding_type]
      | None => []
      end
  | None => []
  end.

Fixpoint diff_findings (diff_source : string) (current_file : option string)
    (start : nat) (lines : list string) : list dict :=
  match lines with
  | [] => []
  | line :: rest =>
      let current_file := header_file current_file line in
      diff_line_findings diff_source current_file start line
      ++ diff_findings diff_source current_file (S start) rest
  end.

(** The findings one line of a plain text contributes. *)
Definition text_line_findings (commit_hash : option string)
    (file_path : string) (line_number : nat) (line : string) : list dict :=
  let code_line := Str.rstrip_nl line in
  match first_match REGEX_PATTERNS code_line with
  | Some (_, pattern_name, finding_type) =>
      [text_finding commit_hash file_path line_number code_line
         pattern_name finding_type]
  | None => []
  end.

Fixpoint text_findings (commit_hash : option string) (file_path : string)
    (start : nat) (lines : list string) : list dict :=
  match lines with
  | [] => []
  | line :: rest =>
      text_line_findings commit_hash file_path start line
      ++ text_findings commit_hash file_path (S start) rest
  end.

(** The finding was made on line [n]. *)
Definition on_line (n : nat) (f : dict) : bool :=
  bool_decide (f !! "line" = Some (VInt (Z.of_nat n))).

(** A diff line that yields no finding: not an added line, or an added
    line no rule matches. *)
Definition quiet (line : string) : bool :=
  match added_code line with
  | Some code_line =>
      match first_match REGEX_PATTERNS code_line with
      | Some _ => false
      | None => true
      end
  | None => true
  end.

(** A line that is not a [+++ ] file header. *)
Definition no_header (line : string) : bool :=
  negb (Str.startswith line "+++ ").

Definition dquote : string := String "034" EmptyString.
Definition newline : string := String "010" EmptyString.

(** The added line of the end-to-end example, and its snippet. *)
Definition password_snippet : string :=
  "password = " +:+ dquote +:+ "Sup3rSecret!" +:+ dquote.
Definition password_line : string := "+" +:+ password_snippet.

(** [newline.join(lines)] *)
Definition unlines (lines : list string) : string :=
  foldr (fun line text =>
           match text with
           | EmptyString => line
           | _ => line +:+ newline +:+ text
           end) EmptyString lines.

(** A diff as [git show --format= --patch] prints it. *)
Definition app_py_diff : string :=
  unlines
    [ "diff --git a/app.py b/app.py";
      "index 83db48f..bf3c1a2 100644";
      "--- a/app.py";
      "+++ b/app.py";
      "@@ -1,2 +1,3 @@";
      password_line;
      " import os";
      "-user = None";
      "+user = os.environ.get('USER')" ].

Definition dev_null_diff : string :=
  unlines [ "--- a/app.py"; "+++ /dev/null"; password_line ].

(** The ordinal of a confidence tier: low is 0, medium is 1, high is 2. *)
Definition ordinal (confidence : string) : option nat :=
  if String.eqb confidence "low" then Some 0
  else if String.eqb confidence "medium" then Some 1
  else if String.eqb confidence "high" then Some 2
  else None.

(** The finding's confidence has an ordinal, and it is at most [threshold]. *)
Definition wants_review (threshold : nat) (finding : dict) : bool :=
  match ordinal (conf_of finding) with
  | Some level => Nat.leb level threshold
  | None => false
  end.

(** The keys of a payload item. *)
Definition payload_keys : gset string :=
  list_to_set
    ["id"; "commit_hash"; "file_path"; "line"; "snippet"; "confidence"].

(** The fields a payload item copies from its finding. *)
Definition copied_keys : list string :=
  ["commit_hash"; "file_path"; "line"; "snippet"; "confidence"].

(** The fields [merge_llm_results] writes. *)
Definition verdict_keys : list string :=
  ["llm_is_secret"; "llm_type"; "llm_confidence"; "llm_comment"].

(** The verdict [result] carries the id [fid]. *)
Definition answers (fid : value) (result : dict) : Prop :=
  result_key result = Some (hkey fid).

(** The ids under which the verdicts of a response are filed. *)
Definition result_keys (llm_results : list dict)
  : list (option (Z + string)) :=
  omap result_key llm_results.

(** The store after [build_llm_payload] numbered [candidates] from
    [start]: each candidate, in turn, has its id set. *)
Fixpoint stamp (start : nat) (candidates : list loc) (h : store) : store :=
  match candidates with
  | [] => h
  | l :: rest =>
      stamp (S start) rest (<[l := <["id" := VStr (review_id start)]> (deref h l)]> h)
  end.

(** The payload items of [candidates], numbered from [start]. *)
Fixpoint payload_items (start : nat) (candidates : list loc) (h : store)
  : list dict :=
  match candidates with
  | [] => []
  | l :: rest =>
      llm_finding (review_id start) (deref h l) :: payload_items (S start) rest h
  end.

(** What [merge_llm_results] makes of one finding, given the index of the
    verdicts. *)
Definition merged (results_by_id : gmap (option (Z + string)) dict)
    (finding : dict) : dict :=
  match get finding "id" with
  | VNone => finding
  | fid =>
      match results_by_id !! hkey fid with
      | Some llm_result => attach llm_result finding
      | None => finding
      end
  end.

(** Two verdicts for the id [f1] that disagree, and a store with the
    finding they are about. *)
Definition verdict_yes : dict :=
  list_to_map
    [ ("id", VStr "f1"); ("is_secret", VBool true);
      ("llm_type", VStr "hardcoded_password");
      ("llm_confidence", VStr "high"); ("llm_comment", VStr "looks real") ].

Definition verdict_no : dict :=
  list_to_map
    [ ("id", VStr "f1"); ("is_secret", VBool false);
      ("llm_type", VStr "not_a_secret");
      ("llm_confidence", VStr "low"); ("llm_comment", VStr "placeholder") ].

Definition reviewed_store : store :=
  {[ 0 := list_to_map
            [ ("id", VStr "f1"); ("snippet", VStr "pwd = 'hunter2'");
              ("confidence", VStr "low") ] ]}.


(** The characters of a string, the number of occurrences of one of them,
    and the characters that occur, each once. *)
Definition chars (s : string) : list ascii := list_ascii_of_string s.








(** ** Sample data *)

Definition carriage_return : string := String "013" EmptyString.

(** A line that the password rule and the token rule both match. *)
Definition two_rules_line : string := "pass = 'aaaa'; token = 'bbbb'".

(** Findings of confidence high, low, none at all, HIGH and certain. *)
Definition sample_store : store :=
  list_to_map
    [ (0, list_to_map [("snippet", VStr "pwd = 'k3J9xQ2m'"); ("confidence", VStr "high")]);
      (1, list_to_map [("snippet", VStr "pwd = 'aaaa'"); ("confidence", VStr "low")]);
      (2, list_to_map [("snippet", VStr "pass = 'abab'")]);
      (3, list_to_map [("snippet", VStr "pwd = 'Zx81Lq0p'"); ("confidence", VStr "HIGH")]);
      (4, list_to_map [("snippet", VStr "pwd = 'abcd'"); ("confidence", VStr "certain")]) ].

(** ** More notions for the scans *)


(** Every character of [s] satisfies [p]. *)
Definition all_chars (p : ascii -> bool) (s : string) : bool :=
  forallb p (chars s).

(** No line boundary of [str.splitlines] occurs in [s]. *)
Definition one_line (s : string) : bool :=
  all_chars (fun c => negb (Char.islinebreak c)) s.

(** No whitespace occurs in [s]. *)
Definition no_space (s : string) : bool :=
  all_chars (fun c => negb (Char.isspace c)) s.

(** The line number a finding records, if it is a natural number. *)
Definition line_of (f : dict) : option nat :=
  match f !! "line" with
  | Some (VInt n) => if (0 <=? n)%Z then Some (Z.to_nat n) else None
  | _ => None
  end.

(** The character before the position reached after reading [t], [prev]
    being the character before [t]. *)
Fixpoint last_of (prev : option ascii) (t : string) : option ascii :=
  match t with
  | EmptyString => prev
  | String c t' => last_of (Some c) t'
  end.

(** A line with an assignment as the rules look for it: some text that
    does not end in a word character, a keyword, whitespace, [=],
    whitespace, a quote, a value, a quote, and the rest. *)
Definition assignment_line (before keyword ws1 ws2 : string) (q : ascii)
    (value : string) (q' : ascii) (rest : string) : string :=
  before +:+ keyword +:+ ws1
  +:+ String "=" (ws2 +:+ String q (value +:+ String q' rest)).

(** ** git_utils.py and main.py

    These functions run git, look at the file system, call the classifier
    and write the report.  What lies outside the program is a [world] of
    answers, and a run yields the list of the things it did, in order,
    with its result or the exception it raised.

    The world answers a question the same way throughout a run.  A
    command that is run ends with an exit status: that the program [git]
    or the working directory is missing is outside the model, and so is a
    report file that cannot be written. *)

(** [s.endswith(p)] *)
Definition endswith (s p : string) : bool :=
  Nat.leb (String.length p) (String.length s)
  && String.eqb (Str.drop (String.length s - String.length p) s) p.

Inductive exn : Type :=
| ValueError (msg : string)
| CalledProcessError (cmd : list string) (returncode : Z)
| RuntimeError (msg : string)
| SystemExit (code : Z)
| ClassifierError.

(** What [subprocess.run] returns with [capture_output] and [text]. *)
Record completed : Type :=
  Completed { returncode : Z; stdout : string; stderr : string }.

(** The confidence of a verdict, [Literal["low", "medium", "high"]]. *)
Inductive level : Type := Low | Medium | High.

Definition level_name (l : level) : string :=
  match l with Low => "low" | Medium => "medium" | High => "high" end.

(** [LLMDecision] *)
Record LLMDecision : Type :=
  { id : string; is_secret : bool; llm_type : string;
    llm_confidence : level; llm_comment : string }.

(** [r.model_dump()] *)
Definition model_dump (r : LLMDecision) : dict :=
  list_to_map
    [ ("id", VStr (id r)); ("is_secret", VBool (is_secret r));
      ("llm_type", VStr (llm_type r));
      ("llm_confidence", VStr (level_name (llm_confidence r)));
      ("llm_comment", VStr (llm_comment r)) ].

(** The dict [report] of [main]. *)
Record report : Type :=
  { repository : string; scanned_commits : Z; report_findings : list dict }.

(** What [main] prints: a line of text, the message about a failed git
    command, or the error of the argument parser. *)
Inductive message : Type :=
| Line (text : string)
| GitFailed (cmd : list string) (returncode : Z)
| ParserError (text : string).

Inductive event : Type :=
| Ran (cmd : list string) (cwd : option string)
| TempDir (name : string)
| CleanedUp (name : string)
| ClassifierCall (model : string) (payload : list dict)
| Wrote (path : string) (content : report)
| Printed (to_stderr : bool) (msg : message).

Record world : Type :=
  { isdir : string -> bool;
    subprocess_run : list string -> option string -> completed;
    temp_name : string;
    read_file : string -> option string;
    openai_model : option string;
    responses_parse : string -> list dict -> option (list LLMDecision) }.

(** A run: what was done, and the result or the exception. *)
Definition M (A : Type) : Type := list event * (exn + A).

Definition ret {A} (a : A) : M A := ([], inr a).
Definition raise {A} (e : exn) : M A := ([], inl e).
Definition emit (ev : event) : M unit := ([ev], inr tt).

Definition bind {A B} (m : M A) (k : A -> M B) : M B :=
  match m with
  | (t, inl e) => (t, inl e)
  | (t, inr a) => let '(t', r) := k a in (t ++ t', r)
  end.

Notation "'call' x ':=' m 'in' k" := (bind m (fun x => k))
  (at level 10, x pattern, m at level 100, k at level 200).

(** [subprocess.run(cmd, cwd=cwd, capture_output=True, text=True,
    check=True).stdout] *)
Definition check_run (w : world) (cmd : list string) (cwd : option string)
  : M string :=
  call _ := emit (Ran cmd cwd) in
  let result := subprocess_run w cmd cwd in
  if (returncode result =? 0)%Z then ret (stdout result)
  else raise (CalledProcessError cmd (returncode result)).

Definition get_last_commit_hash (w : world) (repo_path : string) : M string :=
  call out := check_run w ["git"; "log"; "-1"; "--pretty=format:%H"]
                (Some repo_path) in
  ret (Str.strip out).

Definition get_last_n_commit_hashes (w : world) (repo_path : string) (n : Z)
  : M (list string) :=
  if (n <=? 0)%Z then ret []
  else
    call out := check_run w ["git"; "log"; "-n"; pretty n; "--pretty=format:%H"]
                  (Some repo_path) in
    ret (Str.splitlines (Str.strip out)).

Definition get_commit_diff (w : world) (repo_path commit_hash : string)
  : M string :=
  check_run w ["git"; "show"; "--format="; "--patch"; commit_hash]
    (Some repo_path).

Definition get_last_commit_diff (w : world) (repo_path : string)
  : M (string * string) :=
  call commit_hash := get_last_commit_hash w repo_path in
  call diff_text := get_commit_diff w repo_path commit_hash in
  ret (commit_hash, diff_text).

Definition analyze_last_commit (w : world) (repo_path : string)
  : M (list dict) :=
  call (commit_hash, diff_text) := get_last_commit_diff w repo_path in
  ret (scan_diff_for_passwords diff_text commit_hash).

(** [os.path.join(a, b)] *)
Definition path_join (a b : string) : string :=
  if Str.startswith b "/" then b
  else match a with
       | EmptyString => b
       | _ => if endswith a "/" then a +:+ b else a +:+ "/" +:+ b
       end.

Definition ensure_valid_repo (w : world) (repo_path : string) : M unit :=
  if negb (isdir w repo_path) then
    raise (ValueError
             ("Repository path does not exist or is not a directory: "
              +:+ repo_path))
  else
    let git_dir := path_join repo_path ".git" in
    if negb (isdir w git_dir) then
      raise (ValueError
               ("Path is not a git repository (no .git folder found): "
                +:+ repo_path))
    else ret tt.

Definition get_commit_message (w : world) (repo_path commit_hash : string)
  : M string :=
  call out := check_run w ["git"; "show"; "-s"; "--format=%B"; commit_hash]
                (Some repo_path) in
  ret (Str.strip out).

(** One turn of the loop of [analyze_last_n_commits]. *)
Definition analyze_commit (w : world) (repo_path : string)
    (all_findings : list dict) (commit_hash : string) : M (list dict) :=
  call diff_text := get_commit_diff w repo_path commit_hash in
  let diff_findings := scan_diff_for_passwords diff_text commit_hash in
  let all_findings := all_findings ++ diff_findings in
  call message_text := get_commit_message w repo_path commit_hash in
  let message_findings :=
    scan_text_for_passwords message_text "COMMIT_MESSAGE" (Some commit_hash) in
  ret (all_findings ++ message_findings).

Fixpoint analyze_commits (w : world) (repo_path : string)
    (hashes : list string) (all_findings : list dict) : M (list dict) :=
  match hashes with
  | [] => ret all_findings
  | commit_hash :: rest =>
      call all_findings := analyze_commit w repo_path all_findings commit_hash in
      analyze_commits w repo_path rest all_findings
  end.

Definition analyze_last_n_commits (w : world) (repo_path : string) (n : Z)
  : M (list dict) :=
  call _ := ensure_valid_repo w repo_path in
  if (n <=? 0)%Z then ret []
  else
    call hashes := get_last_n_commit_hashes w repo_path n in
    analyze_commits w repo_path hashes [].

Definition is_repo_url (repo : string) : bool :=
  Str.startswith repo "http://" || Str.startswith repo "https://"
  || Str.startswith repo "git@" || endswith repo ".git".

(** [prepare_repo]: the temporary directory is given by its name. *)
Definition prepare_repo (w : world) (repo : string)
  : M (string * option string) :=
  if isdir w repo then ret (repo, None)
  else if is_repo_url repo then
    call _ := emit (TempDir (temp_name w)) in
    let local_path := temp_name w in
    let cmd := ["git"; "clone"; repo; local_path] in
    call _ := emit (Ran cmd None) in
    let result := subprocess_run w cmd None in
    if (returncode result =? 0)%Z then ret (local_path, Some local_path)
    else raise (RuntimeError
                  ("failed to clone repo: " +:+ repo +:+ newline
                   +:+ stderr result))
  else
    raise (ValueError
             ("'" +:+ repo
              +:+ "' is neither an existing directory nor a supported URL")).

(** scanner.py, [scan_file_for_passwords]: a file that cannot be read
    raises what [open] raises. *)
Definition scan_file_for_passwords (w : world) (file_path : string)
  : option (list dict) :=
  match read_file w file_path with
  | Some text => Some (scan_text_for_passwords text file_path None)
  | None => None
  end.

(** [DEFAULT_MODEL] *)
Definition DEFAULT_MODEL (w : world) : string :=
  default "gpt-4o-mini" (openai_model w).

(** [call_openai_llm]: the request to the classifier and the validation of
    its answer against [LLMDecisions] are the world's; an answer that does
    not validate, like a failed request, raises. *)
Definition call_openai_llm (w : world) (payload : list dict) (model : string)
  : M (list dict) :=
  let model_name :=
    match model with EmptyString => DEFAULT_MODEL w | _ => model end in
  call _ := emit (ClassifierCall model_name payload) in
  match responses_parse w model_name payload with
  | Some results => ret (model_dump <$> results)
  | None => raise ClassifierError
  end.

(** The findings of the scans as objects of a store: the i-th finding is
    the object i. *)
Definition alloc (findings : list dict) : store :=
  list_to_map (Str.enumerate 0 findings).

Definition refs (findings : list dict) : list loc := seq 0 (length findings).

(** The parsed arguments of [main]. *)
Record arguments : Type :=
  { repo : string; n : Z; out : string; min_confidence : string;
    llm_model : string }.

(** [tmp.cleanup()] when [tmp is not None], the [finally] of [main]. *)
Definition cleanup (tmp : option string) : list event :=
  match tmp with Some name => [CleanedUp name] | None => [] end.

(** The [except] clauses of [main]: what is printed for the exception and
    the exception that leaves the [try]. *)
Definition handled (e : exn) : list event * exn :=
  match e with
  | ValueError msg =>
      ([Printed true (Line ("Error: " +:+ msg))], SystemExit 1)
  | CalledProcessError cmd code =>
      ([Printed true (GitFailed cmd code)], SystemExit 1)
  | _ => ([], e)
  end.

(** [main] after the [try] statement, with the findings of the scan. *)
Definition review_and_report (w : world) (args : arguments)
    (findings : list dict) : M unit :=
  let h := alloc findings in
  let llm_candidates :=
    select_llm_candidates h (refs findings) (min_confidence args) in
  let '(h, llm_payload) := build_llm_payload h llm_candidates in
  call final_findings :=
    match llm_payload with
    | _ :: _ =>
        call llm_results := call_openai_llm w llm_payload (llm_model args) in
        ret (merge_llm_results h (refs findings) llm_results)
    | [] => ret (h, refs findings)
    end in
  match findings with
  | [] =>
      call _ := emit (Wrote (out args)
                        {| repository := repo args;
                           scanned_commits := n args;
                           report_findings := [] |}) in
      emit (Printed false
              (Line ("Wrote report to " +:+ out args
                     +:+ " (no findings, LLM not called)")))
  | _ :: _ => ret tt
  end.

(** [main], from the parsed arguments on. *)
Definition main (w : world) (args : arguments) : M unit :=
  if (n args <=? 0)%Z then
    call _ := emit (Printed true (ParserError "--n must be greater than 0")) in
    raise (SystemExit 2)
  else
    match prepare_repo w (repo args) with
    | (t, inl e) =>
        let '(printed, e') := handled e in (t ++ printed, inl e')
    | (t, inr (repo_path, tmp)) =>
        match analyze_last_n_commits w repo_path (n args) with
        | (t', inl e) =>
            let '(printed, e') := handled e in
            (t ++ t' ++ printed ++ cleanup tmp, inl e')
        | (t', inr findings) =>
            let '(t'', r) := review_and_report w args findings in
            (t ++ t' ++ cleanup tmp ++ t'', r)
        end
    end.

(** A decimal digit or the minus sign: the characters of [str(n)] for an
    integer [n]. *)
Definition digit_or_dash (c : ascii) : bool :=
  Char.between 48 57 c || Char.has_code 45 c.

(** Findings whose confidence is no string: [None], [True] and [2]. *)
Definition odd_store : store :=
  list_to_map
    [ (0, list_to_map [("snippet", VStr "pwd = 'aaaa'"); ("confidence", VNone)]);
      (1, list_to_map [("snippet", VStr "pwd = 'bbbb'"); ("confidence", VBool true)]);
      (2, list_to_map [("snippet", VStr "pwd = 'cccc'"); ("confidence", VInt 2)]) ].

(** ** Notions for the runs *)

(** The git commands of the analysis. *)
Definition log_cmd (n : Z) : list string :=
  ["git"; "log"; "-n"; pretty n; "--pretty=format:%H"].
Definition patch_cmd (commit_hash : string) : list string :=
  ["git"; "show"; "--format="; "--patch"; commit_hash].
Definition message_cmd (commit_hash : string) : list string :=
  ["git"; "show"; "-s"; "--format=%B"; commit_hash].
Definition clone_cmd (repo local_path : string) : list string :=
  ["git"; "clone"; repo; local_path].

(** The command ends with exit status 0 in the world [w]. *)
Definition succeeds (w : world) (cmd : list string) (cwd : option string) : Prop :=
  returncode (subprocess_run w cmd cwd) = 0%Z.

(** The commits [git log] lists, as [get_last_n_commit_hashes] reads
    them. *)
Definition listed_hashes (w : world) (repo_path : string) (n : Z) : list string :=
  Str.splitlines (Str.strip (stdout (subprocess_run w (log_cmd n) (Some repo_path)))).

(** The findings of one commit: those of its diff, then those of its
    message. *)
Definition commit_findings (w : world) (repo_path commit_hash : string)
  : list dict :=
  scan_diff_for_passwords
    (stdout (subprocess_run w (patch_cmd commit_hash) (Some repo_path)))
    commit_hash
  ++ scan_text_for_passwords
       (Str.strip
          (stdout (subprocess_run w (message_cmd commit_hash) (Some repo_path))))
       "COMMIT_MESSAGE" (Some commit_hash).

Definition commit_trace (repo_path commit_hash : string) : list event :=
  [Ran (patch_cmd commit_hash) (Some repo_path);
   Ran (message_cmd commit_hash) (Some repo_path)].

(** The path is a directory with a [.git] directory in it. *)
Definition valid_repo (w : world) (repo_path : string) : bool :=
  isdir w repo_path && isdir w (path_join repo_path ".git").

Definition is_classifier_call (ev : event) : bool :=
  match ev with ClassifierCall _ _ => true | _ => false end.

Definition is_write (ev : event) : bool :=
  match ev with Wrote _ _ => true | _ => false end.

Definition is_cleanup (ev : event) : bool :=
  match ev with CleanedUp _ => true | _ => false end.

Definition is_git (ev : event) : bool :=
  match ev with Ran ("git" :: _) _ => true | _ => false end.

(** A git command run in the directory [repo_path]. *)
Definition git_in (repo_path : string) (ev : event) : bool :=
  match ev with
  | Ran (program :: _) (Some cwd) =>
      String.eqb program "git" && String.eqb cwd repo_path
  | _ => false
  end.

(** Two findings of a scan and a decision about the first. *)
Definition scanned_findings : list dict :=
  [ list_to_map [("snippet", VStr "pwd = 'aaaa'"); ("confidence", VStr "low")];
    list_to_map [("snippet", VStr "pwd = 'k3J9xQ2m'"); ("confidence", VStr "high")] ].

Definition first_decision : LLMDecision :=
  {| id := "f1"; is_secret := false; llm_type := "not_a_secret";
     llm_confidence := High; llm_comment := "placeholder" |}.

(** The first two steps of [main]: the repository is prepared and its
    commits are analysed. *)
Definition scan (w : world) (args : arguments) : M (list dict) :=
  call (repo_path, _) := prepare_repo w (repo args) in
  analyze_last_n_commits w repo_path (n args).

(** The payload [main] builds from the findings of the scan. *)
Definition payload_of (findings : list dict) (min_confidence : string)
  : list dict :=
  (build_llm_payload (alloc findings)
     (select_llm_candidates (alloc findings) (refs findings) min_confidence)).2.

(** The model [call_openai_llm] asks for the arguments of [main]. *)
Definition model_name (w : world) (args : arguments) : string :=
  match llm_model args with
  | EmptyString => DEFAULT_MODEL w
  | _ => llm_model args
  end.

Definition empty_report (args : arguments) : report :=
  {| repository := repo args; scanned_commits := n args;
     report_findings := [] |}.

Definition parser_error : event :=
  Printed true (ParserError "--n must be greater than 0").

(** The repository is no directory, looks like a URL, and cloning it into
    the temporary directory succeeds. *)
Definition cloned (w : world) (repo : string) : Prop :=
  isdir w repo = false /\ is_repo_url repo = true
  /\ succeeds w (clone_cmd repo (temp_name w)) None.

Definition is_print (ev : event) : bool :=
  match ev with Printed _ _ => true | _ => false end.

(** ** Sample worlds *)

Definition git_answers (status : Z) (cmd : list string) : completed :=
  match cmd with
  | [_; "log"; _; _] | [_; "log"; _; _; _] =>
      {| returncode := status; stdout := "c0ffee" +:+ newline; stderr := EmptyString |}
  | [_; "show"; "-s"; _; _] =>
      {| returncode := status; stdout := "fix login" +:+ newline; stderr := EmptyString |}
  | [_; "show"; _; _; _] =>
      {| returncode := status; stdout := app_py_diff; stderr := EmptyString |}
  | _ => {| returncode := status; stdout := EmptyString; stderr := "fatal" |}
  end.

(** A world with a repository at [/repo] in which every command ends
    with [status]. *)
Definition local_world (status : Z) : world :=
  {| isdir := fun p => String.eqb p "/repo" || String.eqb p "/repo/.git";
     subprocess_run := fun cmd _ => git_answers status cmd;
     temp_name := "/tmp/clone";
     read_file := fun _ => None;
     openai_model := None;
     responses_parse := fun _ _ => None |}.

(** A world in which only the temporary directory holds a repository,
    once cloned. *)
Definition remote_world : world :=
  {| isdir := fun p => String.eqb p "/tmp/clone" || String.eqb p "/tmp/clone/.git";
     subprocess_run := fun cmd _ => git_answers 0 cmd;
     temp_name := "/tmp/clone";
     read_file := fun _ => None;
     openai_model := None;
     responses_parse := fun _ _ => None |}.

Definition sample_args (repo : string) : arguments :=
  {| repo := repo; n := 1; out := "report.json"; min_confidence := "medium";
     llm_model := "gpt-4o-mini" |}.

(** The confidence of the finding is one of the three levels of the
    scanner. *)
Definition has_tier (f : dict) : Prop :=
  exists c, f !! "confidence" = Some (VStr c) /\ c ∈ ["low"; "medium"; "high"].

Definition strict_args : arguments :=
  {| repo := "/repo"; n := 1; out := "report.json"; min_confidence := "high";
     llm_model := "gpt-4o-mini" |}.

(** The command of [get_last_commit_hash]. *)
Definition last_cmd : list string := ["git"; "log"; "-1"; "--pretty=format:%H"].

(** The commit [git log -1] names, as [get_last_commit_hash] reads it. *)
Definition last_hash (w : world) (repo_path : string) : string :=
  Str.strip (stdout (subprocess_run w last_cmd (Some repo_path))).


(** * Properties *)

(** ** The text primitives and the rules on sample inputs *)

Example splitlines_lines :
  Str.splitlines (unlines ["a"; "b"; EmptyString; "c"] +:+ newline)
  = ["a"; "b"; EmptyString; "c"].
Proof. reflexivity. Qed.

Example splitlines_empty : Str.splitlines EmptyString = [].
Proof. reflexivity. Qed.

Example splitlines_crlf :
  Str.splitlines ("a" +:+ carriage_return +:+ newline +:+ "b" +:+ carriage_return +:+ "c")
  = ["a"; "b"; "c"].
Proof. reflexivity. Qed.

Example split_header : Str.split "+++ b/app.py" = ["+++"; "b/app.py"].
Proof. reflexivity. Qed.

Example split_blank : Str.split "   " = [].
Proof. reflexivity. Qed.

Example strip_added : Str.strip "   +x = 1  " = "+x = 1".
Proof. reflexivity. Qed.

(** For each line, which of the password, token and secret regexes are
    found in it. *)
Example search_samples :
  (fun line => (fun rule : Re.regex * string * string => Re.search rule.1.1 line)
                 <$> REGEX_PATTERNS)
    <$> [ password_snippet; "api_token = 'ZZZZ1111YYYY2222'";
          "xpassword = 'abcd'"; "PASSWORD   ='abcd'"; "pass='abc'";
          "my.pwd='abcd'"; "token='ab cd'"; "secret_key='abcd";
          "secret_key='abcd' token='aaaa'"; "password_x = 'abcd'";
          "api_token='a+/=-_'"; two_rules_line ]
  = [ [true; false; false]; [false; true; false];
      [false; false; false]; [true; false; false]; [false; false; false];
      [true; false; false]; [false; false; false]; [false; false; false];
      [false; true; true]; [false; false; false];
      [false; true; false]; [true; true; false] ].
Proof. vm_compute. reflexivity. Qed.

(** ** The scans, line by line *)

Lemma scan_rules_first_match rules finding code_line findings :
  scan_rules rules finding code_line findings
  = findings ++ match first_match rules code_line with
                | Some (_, pattern_name, finding_type) =>
                    [finding pattern_name finding_type]
                | None => []
                end.
Proof.
  induction rules as [|[[regex pattern_name] finding_type] rest IH]; simpl.
  - by rewrite app_nil_r.
  - destruct (Re.search regex code_line); [done | apply IH].
Qed.

Lemma diff_line_eq diff_source current_file findings line_number line :
  diff_line diff_source (current_file, findings) (line_number, line)
  = (header_file current_file line,
     findings ++ diff_line_findings diff_source
                   (header_file current_file line) line_number line).
Proof.
  unfold diff_line, diff_line_findings.
  destruct (added_code line) as [code_line|].
  - by rewrite scan_rules_first_match.
  - by rewrite app_nil_r.
Qed.

Lemma scan_diff_lines_eq diff_source lines : forall start current_file findings,
  scan_diff_lines diff_source start lines (current_file, findings)
  = (fold_left header_file lines current_file,
     findings ++ diff_findings diff_source current_file start lines).
Proof.
  unfold scan_diff_lines.
  induction lines as [|line rest IH]; intros start current_file findings.
  - by rewrite app_nil_r.
  - cbn [Str.enumerate fold_left diff_findings].
    rewrite diff_line_eq, IH. by rewrite app_assoc.
Qed.

Lemma scan_diff_for_passwords_eq diff_text diff_source :
  scan_diff_for_passwords diff_text diff_source
  = diff_findings diff_source None 1 (Str.splitlines diff_text).
Proof.
  unfold scan_diff_for_passwords. by rewrite scan_diff_lines_eq.
Qed.

Lemma scan_text_from_eq commit_hash file_path lines : forall start findings,
  fold_left
    (fun findings '(line_number, line) =>
       let code_line := Str.rstrip_nl line in
       scan_rules REGEX_PATTERNS
         (text_finding commit_hash file_path line_number code_line)
         code_line findings)
    (Str.enumerate start lines) findings
  = findings ++ text_findings commit_hash file_path start lines.
Proof.
  induction lines as [|line rest IH]; intros start findings.
  - by rewrite app_nil_r.
  - cbn [Str.enumerate fold_left text_findings].
    rewrite IH. cbv zeta. rewrite scan_rules_first_match.
    by rewrite <- app_assoc.
Qed.

Lemma scan_text_for_passwords_eq text file_path commit_hash :
  scan_text_for_passwords text file_path commit_hash
  = text_findings commit_hash file_path 1 (Str.splitlines text).
Proof. unfold scan_text_for_passwords. by rewrite scan_text_from_eq. Qed.

Lemma diff_findings_app diff_source a : forall b current_file start,
  diff_findings diff_source current_file start (a ++ b)
  = diff_findings diff_source current_file start a
    ++ diff_findings diff_source (fold_left header_file a current_file)
         (start + length a) b.
Proof.
  induction a as [|line a IH]; intros b current_file start; simpl.
  - by rewrite Nat.add_0_r.
  - rewrite IH, <- app_assoc. do 3 f_equal. lia.
Qed.

Lemma diff_findings_quiet diff_source lines : forall current_file start,
  forallb quiet lines = true ->
  diff_findings diff_source current_file start lines = [].
Proof.
  induction lines as [|line rest IH]; intros current_file start Hq; [done|].
  simpl in *. apply andb_prop in Hq as [Hline Hrest].
  rewrite IH by done. unfold diff_line_findings, quiet in *.
  destruct (added_code line); [|done].
  by destruct (first_match REGEX_PATTERNS s) as [[[??]?]|].
Qed.

(** The line number a finding records. *)
Lemma on_line_diff_finding n diff_source current_file m code_line pattern_name finding_type :
  on_line n (diff_finding diff_source current_file m code_line pattern_name finding_type)
  = Nat.eqb n m.
Proof.
  unfold on_line, diff_finding. cbn [list_to_map foldr fst snd].
  rewrite lookup_insert_ne, lookup_insert_ne, lookup_insert_eq by done.
  destruct (Nat.eqb_spec n m) as [->|Hne].
  - by rewrite bool_decide_eq_true_2.
  - rewrite bool_decide_eq_false_2; [done|]. intros [= H]. lia.
Qed.

Lemma on_line_text_finding n commit_hash file_path m code_line pattern_name finding_type :
  on_line n (text_finding commit_hash file_path m code_line pattern_name finding_type)
  = Nat.eqb n m.
Proof.
  unfold on_line, text_finding. cbn [list_to_map foldr fst snd].
  rewrite lookup_insert_ne, lookup_insert_ne, lookup_insert_eq by done.
  destruct (Nat.eqb_spec n m) as [->|Hne].
  - by rewrite bool_decide_eq_true_2.
  - rewrite bool_decide_eq_false_2; [done|]. intros [= H]. lia.
Qed.

Lemma filter_diff_line_findings n diff_source current_file m line :
  List.filter (on_line n) (diff_line_findings diff_source current_file m line)
  = if Nat.eqb n m then diff_line_findings diff_source current_file m line else [].
Proof.
  unfold diff_line_findings.
  destruct (added_code line) as [code_line|]; [|by destruct (Nat.eqb n m)].
  destruct (first_match REGEX_PATTERNS code_line) as [[[??]?]|];
    [|by destruct (Nat.eqb n m)].
  simpl. rewrite on_line_diff_finding. by destruct (Nat.eqb n m).
Qed.

Lemma filter_text_line_findings n commit_hash file_path m line :
  List.filter (on_line n) (text_line_findings commit_hash file_path m line)
  = if Nat.eqb n m then text_line_findings commit_hash file_path m line else [].
Proof.
  unfold text_line_findings. cbv zeta.
  destruct (first_match REGEX_PATTERNS (Str.rstrip_nl line)) as [[[??]?]|];
    [|by destruct (Nat.eqb n m)].
  simpl. rewrite on_line_text_finding. by destruct (Nat.eqb n m).
Qed.

(** The findings of line [n] of a diff are those of the line at that
    position, under the file the headers up to it set. *)
Lemma filter_diff_findings n diff_source lines : forall current_file start,
  List.filter (on_line n) (diff_findings diff_source current_file start lines)
  = match lines !! (n - start) with
    | Some line =>
        if Nat.leb start n
        then diff_line_findings diff_source
               (fold_left header_file (take (S (n - start)) lines) current_file)
               n line
        else []
    | None => []
    end.
Proof.
  induction lines as [|line rest IH]; intros current_file start; [done|].
  cbn [diff_findings]. cbv zeta.
  rewrite List.filter_app, filter_diff_line_findings, IH.
  destruct (Nat.eqb_spec n start) as [->|Hne].
  - rewrite Nat.sub_diag, Nat.leb_refl. cbn [lookup list_lookup take fold_left].
    replace (Nat.leb (S start) start) with false
      by (symmetry; apply Nat.leb_gt; lia).
    replace (start - S start) with 0 by lia.
    destruct rest; by rewrite app_nil_r.
  - destruct (Nat.leb_spec start n) as [Hle|Hgt].
    + replace (n - start) with (S (n - S start)) by lia.
      replace (Nat.leb (S start) n) with true
        by (symmetry; apply Nat.leb_le; lia).
      done.
    + replace (Nat.leb (S start) n) with false
        by (symmetry; apply Nat.leb_gt; lia).
      by destruct (rest !! (n - S start)), ((line :: rest) !! (n - start)).
Qed.

Lemma filter_text_findings n commit_hash file_path lines : forall start,
  List.filter (on_line n) (text_findings commit_hash file_path start lines)
  = match lines !! (n - start) with
    | Some line =>
        if Nat.leb start n
        then text_line_findings commit_hash file_path n line
        else []
    | None => []
    end.
Proof.
  induction lines as [|line rest IH]; intros start; [done|].
  cbn [text_findings].
  rewrite List.filter_app, filter_text_line_findings, IH.
  destruct (Nat.eqb_spec n start) as [->|Hne].
  - rewrite Nat.sub_diag, Nat.leb_refl. cbn [lookup list_lookup].
    replace (Nat.leb (S start) start) with false
      by (symmetry; apply Nat.leb_gt; lia).
    replace (start - S start) with 0 by lia.
    destruct rest; by rewrite app_nil_r.
  - destruct (Nat.leb_spec start n) as [Hle|Hgt].
    + replace (n - start) with (S (n - S start)) by lia.
      replace (Nat.leb (S start) n) with true
        by (symmetry; apply Nat.leb_le; lia).
      done.
    + replace (Nat.leb (S start) n) with false
        by (symmetry; apply Nat.leb_gt; lia).
      by destruct (rest !! (n - S start)), ((line :: rest) !! (n - start)).
Qed.

Lemma diff_line_findings_length diff_source current_file n line :
  length (diff_line_findings diff_source current_file n line) <= 1.
Proof.
  unfold diff_line_findings. destruct (added_code line) as [c|]; [|simpl; lia].
  destruct (first_match REGEX_PATTERNS c) as [[[??]?]|]; simpl; lia.
Qed.

Lemma text_line_findings_length commit_hash file_path n line :
  length (text_line_findings commit_hash file_path n line) <= 1.
Proof.
  unfold text_line_findings. cbv zeta.
  destruct (first_match REGEX_PATTERNS _) as [[[??]?]|]; simpl; lia.
Qed.

(** ** Headers *)

Lemma header_file_no_header current_file line :
  no_header line = true -> header_file current_file line = current_file.
Proof.
  unfold no_header, header_file. by destruct (Str.startswith line "+++ ").
Qed.

Lemma fold_header_file_no_header lines : forall current_file,
  forallb no_header lines = true ->
  fold_left header_file lines current_file = current_file.
Proof.
  induction lines as [|line rest IH]; intros current_file H; [done|].
  simpl in *. apply andb_prop in H as [Hline Hrest].
  rewrite header_file_no_header by done. by apply IH.
Qed.

Lemma rstrip_by_keep p c t :
  p c = false -> Str.rstrip_by p (String c t) = String c (Str.rstrip_by p t).
Proof. intros Hc. simpl. rewrite Hc. by destruct (Str.rstrip_by p t). Qed.

Lemma startswith_three_plus rest :
  Str.startswith (String "+" (String "+" (String "+" rest))) "+++" = true.
Proof. unfold Str.startswith. simpl. by destruct rest. Qed.

(** A [+++ ] header is never taken for an added line. *)
Lemma added_code_no_header line code_line :
  added_code line = Some code_line -> no_header line = true.
Proof.
  unfold no_header, Str.startswith. intros Hadded.
  destruct (String.prefix "+++ " line) eqn:Hprefix; [exfalso|done].
  apply String.prefix_correct in Hprefix.
  destruct line as [|c1 [|c2 [|c3 [|c4 t]]]]; simpl in Hprefix; try done.
  injection Hprefix as -> -> -> -> _.
  unfold added_code, Str.strip in Hadded.
  change (Str.lstrip (String "+" (String "+" (String "+" (String " " t)))))
    with (String "+" (String "+" (String "+" (String " " t)))) in Hadded.
  rewrite !(rstrip_by_keep _ "+") in Hadded by done.
  rewrite startswith_three_plus, andb_false_r in Hadded. done.
Qed.

(** ** The end-to-end example *)

Lemma header_file_app_py current_file :
  header_file current_file "+++ b/app.py" = Some "app.py".
Proof. reflexivity. Qed.

Lemma header_file_dev_null current_file :
  header_file current_file "+++ /dev/null" = Some "/dev/null".
Proof. reflexivity. Qed.

Lemma added_code_password_line : added_code password_line = Some password_snippet.
Proof. reflexivity. Qed.

Lemma search_password_snippet :
  Re.search password_regex password_snippet = true.
Proof. vm_compute. reflexivity. Qed.

Lemma first_match_password_snippet :
  first_match REGEX_PATTERNS password_snippet
  = Some (password_regex, "password assignment", "hardcoded_password").
Proof.
  unfold first_match, REGEX_PATTERNS. cbn [List.find fst].
  by rewrite search_password_snippet.
Qed.

Lemma diff_finding_fields diff_source current_file n code_line pattern_name finding_type :
  let f := diff_finding diff_source current_file n code_line pattern_name finding_type in
  f !! "commit_hash" = Some (VStr diff_source)
  /\ f !! "file_path" = Some (VStr (or_else current_file "unknown"))
  /\ f !! "line" = Some (VInt (Z.of_nat n))
  /\ f !! "snippet" = Some (VStr code_line)
  /\ f !! "type" = Some (VStr finding_type)
  /\ f !! "confidence"
     = Some (VStr (entropy_to_confidence (shannon_entropy code_line))).
Proof.
  cbv zeta. unfold diff_finding. cbn [list_to_map foldr fst snd].
  repeat split; by simplify_map_eq.
Qed.

(** The findings of a diff in which one added line follows a header,
    nothing else is found, and no other header comes between the two. *)
Lemma diff_findings_after_header diff_source header file line pre mid post
    code_line regex pattern_name finding_type :
  (forall current_file, header_file current_file header = Some file) ->
  added_code header = None ->
  added_code line = Some code_line ->
  first_match REGEX_PATTERNS code_line = Some (regex, pattern_name, finding_type) ->
  forallb quiet (pre ++ mid ++ post) = true ->
  forallb no_header mid = true ->
  diff_findings diff_source None 1 (pre ++ [header] ++ mid ++ [line] ++ post)
  = [diff_finding diff_source (Some file) (length pre + length mid + 2)
       code_line pattern_name finding_type].
Proof.
  intros Hheader Hnot_added Hadded Hmatch Hquiet Hmid.
  rewrite !forallb_app in Hquiet.
  apply andb_prop in Hquiet as [Hpre Hquiet].
  apply andb_prop in Hquiet as [Hqmid Hpost].
  rewrite diff_findings_app, (diff_findings_quiet _ pre) by done.
  cbn [app diff_findings]. cbv zeta. rewrite Hheader.
  unfold diff_line_findings at 1. rewrite Hnot_added.
  rewrite diff_findings_app, (diff_findings_quiet _ mid) by done.
  rewrite fold_header_file_no_header by done.
  cbn [app diff_findings]. cbv zeta.
  rewrite header_file_no_header by (by eapply added_code_no_header).
  rewrite (diff_findings_quiet _ post) by done.
  unfold diff_line_findings. rewrite Hadded, Hmatch.
  cbn [app]. do 2 f_equal. lia.
Qed.

Lemma text_finding_fields commit_hash file_path n code_line pattern_name finding_type :
  let f := text_finding commit_hash file_path n code_line pattern_name finding_type in
  f !! "commit_hash" = Some (VStr (or_else commit_hash "unknown"))
  /\ f !! "file_path" = Some (VStr file_path)
  /\ f !! "line" = Some (VInt (Z.of_nat n))
  /\ f !! "snippet" = Some (VStr code_line)
  /\ f !! "type" = Some (VStr finding_type)
  /\ f !! "confidence"
     = Some (VStr (entropy_to_confidence (shannon_entropy code_line))).
Proof.
  cbv zeta. unfold text_finding. cbn [list_to_map foldr fst snd].
  repeat split; by simplify_map_eq.
Qed.

Lemma diff_findings_numbered diff_source f lines : forall current_file start,
  f ∈ diff_findings diff_source current_file start lines ->
  exists n, start <= n < start + length lines /\ on_line n f = true.
Proof.
  induction lines as [|line rest IH]; intros current_file start Hf.
  - by apply elem_of_nil in Hf.
  - cbn [diff_findings] in Hf. cbv zeta in Hf.
    apply elem_of_app in Hf as [Hf|Hf].
    + exists start. split; [simpl; lia|].
      unfold diff_line_findings in Hf.
      destruct (added_code line) as [c|]; [|by apply elem_of_nil in Hf].
      destruct (first_match REGEX_PATTERNS c) as [[[??]?]|];
        [|by apply elem_of_nil in Hf].
      apply list_elem_of_singleton in Hf as ->.
      rewrite on_line_diff_finding. apply Nat.eqb_refl.
    + apply IH in Hf as (n & Hn & Hline). exists n. split; [simpl; lia|done].
Qed.

Lemma text_findings_numbered commit_hash file_path f lines : forall start,
  f ∈ text_findings commit_hash file_path start lines ->
  exists n, start <= n < start + length lines /\ on_line n f = true.
Proof.
  induction lines as [|line rest IH]; intros start Hf.
  - by apply elem_of_nil in Hf.
  - cbn [text_findings] in Hf.
    apply elem_of_app in Hf as [Hf|Hf].
    + exists start. split; [simpl; lia|].
      unfold text_line_findings in Hf. cbv zeta in Hf.
      destruct (first_match REGEX_PATTERNS _) as [[[??]?]|];
        [|by apply elem_of_nil in Hf].
      apply list_elem_of_singleton in Hf as ->.
      rewrite on_line_text_finding. apply Nat.eqb_refl.
    + apply IH in Hf as (n & Hn & Hline). exists n. split; [simpl; lia|done].
Qed.



(** C2: each scan makes at most one finding per line.  The loop over the
    rules appends the finding of the first rule, in the order password,
    token, secret, whose regex is found in the line, and nothing else; so
    among the findings of a diff scan or of a text scan at most one carries
    a given line number, every finding carries the number of a line of the
    text, and its type is that of the first rule that matches the line. *)
Theorem one_finding_per_line :
  (forall rules finding code_line findings,
     scan_rules rules finding code_line findings
     = findings ++ match first_match rules code_line with
                   | Some (_, pattern_name, finding_type) =>
                       [finding pattern_name finding_type]
                   | None => []
                   end)
  /\ REGEX_PATTERNS.*2
     = ["hardcoded_password"; "hardcoded_token"; "hardcoded_secret"]
  /\ (forall diff_text diff_source,
        let findings := scan_diff_for_passwords diff_text diff_source in
        (forall f, f ∈ findings ->
           exists n, 1 <= n <= length (Str.splitlines diff_text)
                     /\ on_line n f = true)
        /\ forall n,
             length (List.filter (on_line n) findings) <= 1
             /\ forall f, f ∈ List.filter (on_line n) findings ->
                  exists line code_line regex pattern_name finding_type,
                    Str.splitlines diff_text !! (n - 1) = Some line
                    /\ added_code line = Some code_line
                    /\ first_match REGEX_PATTERNS code_line
                       = Some (regex, pattern_name, finding_type)
                    /\ f !! "snippet" = Some (VStr code_line)
                    /\ f !! "type" = Some (VStr finding_type))
  /\ (forall text file_path commit_hash,
        let findings := scan_text_for_passwords text file_path commit_hash in
        (forall f, f ∈ findings ->
           exists n, 1 <= n <= length (Str.splitlines text)
                     /\ on_line n f = true)
        /\ forall n,
             length (List.filter (on_line n) findings) <= 1
             /\ forall f, f ∈ List.filter (on_line n) findings ->
                  exists line regex pattern_name finding_type,
                    Str.splitlines text !! (n - 1) = Some line
                    /\ first_match REGEX_PATTERNS (Str.rstrip_nl line)
                       = Some (regex, pattern_name, finding_type)
                    /\ f !! "snippet" = Some (VStr (Str.rstrip_nl line))
                    /\ f !! "type" = Some (VStr finding_type)).
Proof.
  split; [apply scan_rules_first_match|]. split; [reflexivity|]. split.
  - intros diff_text diff_source findings. subst findings.
    rewrite scan_diff_for_passwords_eq. split.
    + intros f Hf. apply diff_findings_numbered in Hf as (n & Hn & Hline).
      exists n. split; [lia|done].
    + intros n. rewrite filter_diff_findings.
      destruct (Str.splitlines diff_text !! (n - 1)) as [line|];
        [|split; [simpl; lia | by intros f Hf%elem_of_nil]].
      destruct (Nat.leb 1 n);
        [|split; [simpl; lia | by intros f Hf%elem_of_nil]].
      split; [apply diff_line_findings_length|].
      intros f Hf. unfold diff_line_findings in Hf.
      destruct (added_code line) as [code_line|] eqn:Hadded;
        [|by apply elem_of_nil in Hf].
      destruct (first_match REGEX_PATTERNS code_line)
        as [[[regex pattern_name] finding_type]|] eqn:Hmatch;
        [|by apply elem_of_nil in Hf].
      apply list_elem_of_singleton in Hf as ->.
      exists line, code_line, regex, pattern_name, finding_type.
      repeat split; try done; by apply diff_finding_fields.
  - intros text file_path commit_hash findings. subst findings.
    rewrite scan_text_for_passwords_eq. split.
    + intros f Hf. apply text_findings_numbered in Hf as (n & Hn & Hline).
      exists n. split; [lia|done].
    + intros n. rewrite filter_text_findings.
      destruct (Str.splitlines text !! (n - 1)) as [line|];
        [|split; [simpl; lia | by intros f Hf%elem_of_nil]].
      destruct (Nat.leb 1 n);
        [|split; [simpl; lia | by intros f Hf%elem_of_nil]].
      split; [apply text_line_findings_length|].
      intros f Hf. unfold text_line_findings in Hf. cbv zeta in Hf.
      destruct (first_match REGEX_PATTERNS (Str.rstrip_nl line))
        as [[[regex pattern_name] finding_type]|] eqn:Hmatch;
        [|by apply elem_of_nil in Hf].
      apply list_elem_of_singleton in Hf as ->.
      exists line, regex, pattern_name, finding_type.
      repeat split; try done; by apply text_finding_fields.
Qed.

Lemma one_finding_per_line_witness :
  length (List.filter (on_line 1)
            (scan_text_for_passwords two_rules_line "COMMIT_MESSAGE" None)) <= 1.
Proof.
  destruct one_finding_per_line as (_ & _ & _ & Htext).
  apply (Htext two_rules_line "COMMIT_MESSAGE" None).
Defined.


Lemma dev_null_not_unknown :
  exists f,
    scan_diff_for_passwords dev_null_diff "4f2a9c1" = [f]
    /\ f !! "file_path" = Some (VStr "/dev/null")
    /\ f !! "file_path" <> Some (VStr "unknown").
Proof.
  eexists. split.
  - rewrite scan_diff_for_passwords_eq.
    change (Str.splitlines dev_null_diff)
      with (["--- a/app.py"] ++ ["+++ /dev/null"] ++ [] ++ [password_line] ++ []).
    apply (diff_findings_after_header _ _ "/dev/null" _ _ _ _ _ _ _ _
             header_file_dev_null eq_refl added_code_password_line
             first_match_password_snippet);
      reflexivity.
  - pose proof (diff_finding_fields "4f2a9c1" (Some "/dev/null")
                  (length ["--- a/app.py"] + length (@nil string) + 2)
                  password_snippet "password assignment" "hardcoded_password")
      as H.
    cbv zeta in H. destruct H as (_ & Hfile & _).
    split; [exact Hfile|]. rewrite Hfile. discriminate.
Qed.

Lemma take_S_middle {A} (l1 : list A) x l2 :
  take (S (length l1)) (l1 ++ x :: l2) = l1 ++ [x].
Proof.
  change (l1 ++ x :: l2) with (l1 ++ [x] ++ l2). rewrite app_assoc.
  apply take_app_length'. rewrite length_app. simpl. lia.
Qed.

(** C3, amended: in the diff scan, an added line that appears after a
    [+++ /dev/null] file-header line, with no other file header between
    them, yields a finding with file_path [/dev/null]: the header names
    its second field as the current file, whether or not the field starts
    with [b/]. *)
Theorem dev_null_header_file_path diff_text diff_source pre mid post line
    code_line regex pattern_name finding_type :
  Str.splitlines diff_text = pre ++ ["+++ /dev/null"] ++ mid ++ [line] ++ post ->
  forallb no_header mid = true ->
  added_code line = Some code_line ->
  first_match REGEX_PATTERNS code_line = Some (regex, pattern_name, finding_type) ->
  exists f,
    List.filter (on_line (length pre + length mid + 2))
      (scan_diff_for_passwords diff_text diff_source) = [f]
    /\ f !! "file_path" = Some (VStr "/dev/null")
    /\ f !! "snippet" = Some (VStr code_line)
    /\ f !! "type" = Some (VStr finding_type).
Proof.
  intros Hlines Hmid Hadded Hmatch.
  rewrite scan_diff_for_passwords_eq, filter_diff_findings, Hlines.
  replace (pre ++ ["+++ /dev/null"] ++ mid ++ [line] ++ post)
    with ((pre ++ ["+++ /dev/null"] ++ mid) ++ line :: post)
    by (by rewrite <- !app_assoc).
  replace (length pre + length mid + 2 - 1)
    with (length (pre ++ ["+++ /dev/null"] ++ mid))
    by (rewrite !length_app; simpl; lia).
  rewrite list_lookup_middle by done.
  replace (Nat.leb 1 (length pre + length mid + 2)) with true
    by (symmetry; apply Nat.leb_le; lia).
  rewrite take_S_middle, !fold_left_app. cbn [fold_left].
  rewrite header_file_dev_null, fold_header_file_no_header by done.
  rewrite header_file_no_header by (by eapply added_code_no_header).
  unfold diff_line_findings. rewrite Hadded, Hmatch.
  eexists. split; [done|].
  pose proof (diff_finding_fields diff_source (Some "/dev/null")
                (length pre + length mid + 2) code_line
                pattern_name finding_type) as H.
  cbv zeta in H. destruct H as (_ & Hfile & _ & Hsnippet & Htype & _).
  repeat split; assumption.
Qed.

Lemma dev_null_header_file_path_witness :
  exists f,
    List.filter (on_line 3) (scan_diff_for_passwords dev_null_diff "4f2a9c1")
    = [f]
    /\ f !! "file_path" = Some (VStr "/dev/null")
    /\ f !! "snippet" = Some (VStr password_snippet)
    /\ f !! "type" = Some (VStr "hardcoded_password").
Proof.
  apply (dev_null_header_file_path dev_null_diff "4f2a9c1"
           ["--- a/app.py"] [] [] password_line password_snippet
           password_regex "password assignment" "hardcoded_password");
    [reflexivity | reflexivity | reflexivity
    | exact first_match_password_snippet].
Defined.

(** ** The confidence tiers *)

(** C7: the confidence classifier returns a tier for every entropy: low
    below 3, medium from 3 up to but not including 4, high from 4 on; so 3
    is medium and 4 is high, 2.99 is low and 3.99 is medium. *)
Theorem entropy_to_confidence_tiers :
  (forall entropy : R,
     ((entropy < 3)%R -> entropy_to_confidence entropy = "low")
     /\ ((3 <= entropy < 4)%R -> entropy_to_confidence entropy = "medium")
     /\ ((4 <= entropy)%R -> entropy_to_confidence entropy = "high")
     /\ entropy_to_confidence entropy ∈ ["low"; "medium"; "high"])
  /\ entropy_to_confidence 3 = "medium"
  /\ entropy_to_confidence 4 = "high"
  /\ entropy_to_confidence 2.99 = "low"
  /\ entropy_to_confidence 3.99 = "medium".
Proof.
  assert (forall entropy : R,
            ((entropy < 3)%R -> entropy_to_confidence entropy = "low")
            /\ ((3 <= entropy < 4)%R -> entropy_to_confidence entropy = "medium")
            /\ ((4 <= entropy)%R -> entropy_to_confidence entropy = "high")
            /\ entropy_to_confidence entropy ∈ ["low"; "medium"; "high"]) as H.
  { intros entropy. unfold entropy_to_confidence.
    destruct (Rlt_dec entropy 3), (Rlt_dec entropy 4);
      repeat split; intros; try lra; try done; set_solver. }
  split; [exact H|].
  repeat split; apply H; lra.
Qed.

Lemma entropy_to_confidence_tiers_witness :
  entropy_to_confidence 3.5 = "medium".
Proof.
  destruct entropy_to_confidence_tiers as [H _].
  apply (H 3.5%R). lra.
Defined.


(** ** The counter *)












(** ** The entropy *)

Section Entropy.

Local Open Scope R_scope.




















End Entropy.




(** ** Candidate selection *)

Lemma order_ordinal confidence : order !! confidence = ordinal confidence.
Proof.
  unfold order, ordinal. cbn [list_to_map foldr fst snd].
  destruct (String.eqb_spec confidence "low") as [->|Hlow]; [done|].
  rewrite lookup_insert_ne by done.
  destruct (String.eqb_spec confidence "medium") as [->|Hmedium]; [done|].
  rewrite lookup_insert_ne by done.
  destruct (String.eqb_spec confidence "high") as [->|Hhigh]; [done|].
  by rewrite lookup_insert_ne.
Qed.

Lemma select_from h min_level findings : forall acc : list loc,
  fold_left
    (fun (llm_candidates : list loc) finding =>
       let conf := conf_of (deref h finding) in
       match order !! conf with
       | None => llm_candidates
       | Some level =>
           if Nat.leb level min_level
           then llm_candidates ++ [finding]
           else llm_candidates
       end)
    findings acc
  = acc ++ List.filter (fun l => wants_review min_level (deref h l)) findings.
Proof.
  induction findings as [|l rest IH]; intros acc; simpl.
  - by rewrite app_nil_r.
  - rewrite IH. unfold wants_review. rewrite order_ordinal.
    destruct (ordinal (conf_of (deref h l))) as [level|]; [|done].
    destruct (Nat.leb level min_level); [|done].
    by rewrite <- app_assoc.
Qed.

Lemma select_llm_candidates_filter h findings min_confidence :
  select_llm_candidates h findings min_confidence
  = List.filter (fun l => wants_review (min_level_of min_confidence) (deref h l))
      findings.
Proof. unfold select_llm_candidates. cbv zeta. by rewrite select_from. Qed.

Lemma elem_of_select h findings min_confidence l :
  l ∈ select_llm_candidates h findings min_confidence
  <-> l ∈ findings
      /\ exists level, ordinal (conf_of (deref h l)) = Some level
                       /\ level <= min_level_of min_confidence.
Proof.
  rewrite select_llm_candidates_filter, list_elem_of_In, List.filter_In,
    <- list_elem_of_In.
  unfold wants_review. split.
  - intros [Hl Hw]. split; [done|].
    destruct (ordinal (conf_of (deref h l))) as [level|]; [|done].
    exists level. split; [done|]. by apply Nat.leb_le.
  - intros [Hl (level & -> & Hle)]. split; [done|]. by apply Nat.leb_le.
Qed.

Lemma min_level_of_ordinal min_confidence t :
  ordinal min_confidence = Some t -> min_level_of min_confidence = t.
Proof. unfold min_level_of. rewrite order_ordinal. by intros ->. Qed.

Lemma conf_of_str finding s :
  finding !! "confidence" = Some (VStr s) -> conf_of finding = Str.lower s.
Proof. unfold conf_of. by intros ->. Qed.

Lemma conf_of_missing finding :
  finding !! "confidence" = None -> conf_of finding = "medium".
Proof. unfold conf_of. by intros ->. Qed.

(** C5: a finding of the list is selected exactly when its confidence has
    an ordinal (low 0, medium 1, high 2) and that ordinal is at most the
    ordinal of the threshold; the selected findings keep their order.  With
    the threshold medium a finding of confidence high is never selected and
    one of confidence low or medium always is, and a finding whose
    confidence is none of low, medium, high is never selected.  The
    confidence is read the way the code reads it, see [conf_of]. *)
Theorem select_by_ordinal h findings :
  (forall min_confidence t,
     ordinal min_confidence = Some t ->
     select_llm_candidates h findings min_confidence
     = List.filter (fun l => wants_review t (deref h l)) findings
     /\ forall l,
          l ∈ select_llm_candidates h findings min_confidence
          <-> l ∈ findings
              /\ exists level, ordinal (conf_of (deref h l)) = Some level
                               /\ level <= t)
  /\ (ordinal "low" = Some 0 /\ ordinal "medium" = Some 1
      /\ ordinal "high" = Some 2)
  /\ (forall l, deref h l !! "confidence" = Some (VStr "high") ->
                l ∉ select_llm_candidates h findings "medium")
  /\ (forall l, l ∈ findings ->
                deref h l !! "confidence" = Some (VStr "low")
                \/ deref h l !! "confidence" = Some (VStr "medium") ->
                l ∈ select_llm_candidates h findings "medium")
  /\ (forall l min_confidence,
        conf_of (deref h l) <> "low" -> conf_of (deref h l) <> "medium" ->
        conf_of (deref h l) <> "high" ->
        l ∉ select_llm_candidates h findings min_confidence).
Proof.
  split; [|split; [done|split; [|split]]].
  - intros min_confidence t Ht. split.
    + by rewrite select_llm_candidates_filter, (min_level_of_ordinal _ t).
    + intros l. by rewrite elem_of_select, (min_level_of_ordinal _ t).
  - intros l Hhigh. rewrite elem_of_select.
    intros [_ (level & Hlevel & Hle)].
    rewrite (conf_of_str _ _ Hhigh) in Hlevel. vm_compute in Hlevel, Hle.
    injection Hlevel as <-. lia.
  - intros l Hl Hconf. rewrite elem_of_select. split; [done|].
    destruct Hconf as [Hconf|Hconf]; rewrite (conf_of_str _ _ Hconf).
    + exists 0. split; [done|]. vm_compute. lia.
    + exists 1. split; [done|]. vm_compute. lia.
  - intros l min_confidence Hlow Hmedium Hhigh. rewrite elem_of_select.
    intros [_ (level & Hlevel & _)]. unfold ordinal in Hlevel.
    destruct (String.eqb_spec (conf_of (deref h l)) "low"); [done|].
    destruct (String.eqb_spec (conf_of (deref h l)) "medium"); [done|].
    by destruct (String.eqb_spec (conf_of (deref h l)) "high").
Qed.

Lemma select_by_ordinal_witness :
  select_llm_candidates sample_store [0; 1; 2; 3; 4] "medium" = [1; 2].
Proof.
  destruct (select_by_ordinal sample_store [0; 1; 2; 3; 4]) as [H _].
  destruct (H "medium" 1 eq_refl) as [-> _]. vm_compute. reflexivity.
Defined.


(** C10: in candidate selection a finding without a confidence field is
    treated as one of confidence medium, so it is selected under the
    threshold medium; the confidence is compared in lower case, so [HIGH]
    counts as high; and a threshold that is none of low, medium, high
    selects what the threshold medium selects. *)
Theorem select_defaults h findings :
  (forall l, deref h l !! "confidence" = None ->
     conf_of (deref h l) = "medium"
     /\ (l ∈ findings -> l ∈ select_llm_candidates h findings "medium")
     /\ forall min_confidence,
          l ∈ select_llm_candidates h findings min_confidence
          <-> l ∈ findings /\ 1 <= min_level_of min_confidence)
  /\ (forall l s, deref h l !! "confidence" = Some (VStr s) ->
        conf_of (deref h l) = Str.lower s
        /\ forall min_confidence,
             l ∈ select_llm_candidates h findings min_confidence
             <-> l ∈ findings
                 /\ exists level, ordinal (Str.lower s) = Some level
                                  /\ level <= min_level_of min_confidence)
  /\ (Str.lower "HIGH" = "high" /\ ordinal (Str.lower "HIGH") = Some 2)
  /\ (forall min_confidence,
        ordinal min_confidence = None ->
        min_level_of min_confidence = 1
        /\ select_llm_candidates h findings min_confidence
           = select_llm_candidates h findings "medium").
Proof.
  split; [|split; [|split; [done|]]].
  - intros l Hmissing. pose proof (conf_of_missing _ Hmissing) as Hconf.
    split; [done|]. split.
    + intros Hl. rewrite elem_of_select, Hconf. split; [done|].
      exists 1. split; [done|]. vm_compute. lia.
    + intros min_confidence. rewrite elem_of_select, Hconf. split.
      * intros [Hl (level & [= <-] & Hle)]. done.
      * intros [Hl Hle]. split; [done|]. by exists 1.
  - intros l s Hs. pose proof (conf_of_str _ _ Hs) as Hconf.
    split; [done|]. intros min_confidence.
    by rewrite elem_of_select, Hconf.
  - intros min_confidence Hnone.
    assert (min_level_of min_confidence = 1) as Hlevel
      by (unfold min_level_of; by rewrite order_ordinal, Hnone).
    split; [done|]. by rewrite !select_llm_candidates_filter, Hlevel.
Qed.

Lemma select_defaults_witness :
  select_llm_candidates sample_store [0; 1; 2; 3; 4] "urgent"
  = select_llm_candidates sample_store [0; 1; 2; 3; 4] "medium".
Proof.
  destruct (select_defaults sample_store [0; 1; 2; 3; 4]) as (_ & _ & _ & H).
  apply (H "urgent"). reflexivity.
Defined.


(** ** The payload *)

Lemma deref_insert h l d l' :
  deref (<[l := d]> h) l' = if decide (l = l') then d else deref h l'.
Proof. unfold deref. rewrite lookup_insert. by case_decide. Qed.

Lemma get_insert_ne (d : dict) k k' v : k <> k' -> get (<[k := v]> d) k' = get d k'.
Proof. intros Hne. unfold get. by rewrite lookup_insert_ne. Qed.

Lemma llm_finding_insert_id ids v d :
  llm_finding ids (<["id" := v]> d) = llm_finding ids d.
Proof. unfold llm_finding. by rewrite !get_insert_ne. Qed.

Lemma llm_finding_stamped ids h l v l' :
  llm_finding ids (deref (<[l := <["id" := v]> (deref h l)]> h) l')
  = llm_finding ids (deref h l').
Proof.
  rewrite deref_insert. case_decide as Hl; [subst|done].
  apply llm_finding_insert_id.
Qed.

Lemma payload_items_stamped candidates : forall start h l v,
  payload_items start candidates (<[l := <["id" := v]> (deref h l)]> h)
  = payload_items start candidates h.
Proof.
  induction candidates as [|l' rest IH]; intros start h l v; [done|].
  simpl. by rewrite llm_finding_stamped, IH.
Qed.

Lemma build_from candidates : forall start h acc,
  fold_left payload_step (Str.enumerate start candidates) (h, acc)
  = (stamp start candidates h, acc ++ payload_items start candidates h).
Proof.
  induction candidates as [|l rest IH]; intros start h acc.
  - simpl. by rewrite app_nil_r.
  - cbn [Str.enumerate fold_left stamp payload_items payload_step].
    rewrite IH, payload_items_stamped, llm_finding_stamped.
    by rewrite <- app_assoc.
Qed.

Lemma build_llm_payload_eq h candidates :
  build_llm_payload h candidates
  = (stamp 1 candidates h, payload_items 1 candidates h).
Proof. unfold build_llm_payload. by rewrite build_from. Qed.

Lemma payload_items_length candidates : forall start h,
  length (payload_items start candidates h) = length candidates.
Proof.
  induction candidates as [|l rest IH]; intros start h; [done|].
  simpl. by rewrite IH.
Qed.

Lemma payload_items_lookup candidates : forall start h i,
  payload_items start candidates h !! i
  = (fun l => llm_finding (review_id (start + i)) (deref h l))
      <$> candidates !! i.
Proof.
  induction candidates as [|l rest IH]; intros start h i; [done|].
  destruct i as [|i]; simpl.
  - by rewrite Nat.add_0_r.
  - rewrite IH. by replace (S start + i) with (start + S i) by lia.
Qed.

Lemma stamp_other candidates : forall start h l,
  l ∉ candidates -> stamp start candidates h !! l = h !! l.
Proof.
  induction candidates as [|l' rest IH]; intros start h l Hl; [done|].
  apply not_elem_of_cons in Hl as [Hne Hrest]. simpl.
  rewrite IH by done. by rewrite lookup_insert_ne.
Qed.

Lemma stamp_last candidates : forall start h i l,
  candidates !! i = Some l ->
  (forall j, i < j -> candidates !! j <> Some l) ->
  stamp start candidates h !! l
  = Some (<["id" := VStr (review_id (start + i))]> (deref h l)).
Proof.
  induction candidates as [|l' rest IH]; intros start h i l Hi Hlast; [done|].
  destruct i as [|i]; simpl in *.
  - injection Hi as ->. rewrite stamp_other.
    + by rewrite lookup_insert_eq, Nat.add_0_r.
    + intros (j & Hj)%list_elem_of_lookup_1. apply (Hlast (S j)); [lia|done].
  - rewrite (IH _ _ i l) by
      (try done; intros j Hj; apply (Hlast (S j)); lia).
    rewrite deref_insert. replace (S start + i) with (start + S i) by lia.
    case_decide as Hl; [subst|done]. by rewrite insert_insert_eq.
Qed.

Lemma review_id_inj i j : review_id i = review_id j -> i = j.
Proof.
  unfold review_id. intros H. injection H as H.
  change (pretty i = pretty j) in H. by apply (inj pretty) in H.
Qed.

Lemma llm_finding_id ids f : llm_finding ids f !! "id" = Some (VStr ids).
Proof. unfold llm_finding. by simplify_map_eq. Qed.

Lemma llm_finding_copied ids f k :
  k ∈ copied_keys -> llm_finding ids f !! k = Some (get f k).
Proof.
  unfold copied_keys, llm_finding. cbv zeta. cbn [list_to_map foldr fst snd].
  rewrite !elem_of_cons, elem_of_nil.
  intros [->|[->|[->|[->|[->|[]]]]]]; by simplify_map_eq.
Qed.

Lemma llm_finding_dom ids f : dom (llm_finding ids f) = payload_keys.
Proof.
  unfold llm_finding, payload_keys. cbv zeta.
  cbn [list_to_map list_to_set foldr fst snd].
  rewrite !dom_insert_L, dom_empty_L. done.
Qed.

Lemma payload_ids candidates : forall start h,
  (fun item : dict => item !! "id") <$> payload_items start candidates h
  = (fun i => Some (VStr (review_id i))) <$> seq start (length candidates).
Proof.
  induction candidates as [|l rest IH]; intros start h; [done|].
  simpl. by rewrite IH, llm_finding_id.
Qed.

(** C6: the payload has one item per candidate, in their order; the item
    of the i-th candidate has the id [f] followed by i (f1, f2, ...), so the
    ids are pairwise distinct; it has the keys id, commit_hash, file_path,
    line, snippet and confidence and no other, so neither type nor
    rationale, and the five fields beside the id are those of the finding.
    The id is written into the finding itself: after the call the record of
    a candidate is the record before the call with its id set (to the id of
    its last position, should the list hold it twice), and no other record
    of the store changes. *)
Theorem build_llm_payload_ids h candidates :
  length (build_llm_payload h candidates).2 = length candidates
  /\ (forall i l, candidates !! i = Some l ->
        exists item,
          (build_llm_payload h candidates).2 !! i = Some item
          /\ item !! "id" = Some (VStr (review_id (S i)))
          /\ dom item = payload_keys
          /\ item !! "type" = None /\ item !! "rationale" = None
          /\ forall k, k ∈ copied_keys -> item !! k = Some (get (deref h l) k))
  /\ (review_id 1 = "f1" /\ review_id 2 = "f2" /\ review_id 10 = "f10")
  /\ NoDup ((fun item : dict => item !! "id")
              <$> (build_llm_payload h candidates).2)
  /\ (forall i l, candidates !! i = Some l ->
        (forall j, i < j -> candidates !! j <> Some l) ->
        (build_llm_payload h candidates).1 !! l
        = Some (<["id" := VStr (review_id (S i))]> (deref h l)))
  /\ (forall l, l ∉ candidates ->
        (build_llm_payload h candidates).1 !! l = h !! l).
Proof.
  rewrite build_llm_payload_eq. cbn [fst snd].
  split; [apply payload_items_length|]. split; [|split; [by vm_compute|split; [|split]]].
  - intros i l Hi. eexists. rewrite payload_items_lookup, Hi. split; [done|].
    split; [apply llm_finding_id|]. split; [apply llm_finding_dom|].
    split; [|split]; [| |intros k; apply llm_finding_copied].
    + apply not_elem_of_dom. rewrite llm_finding_dom. by vm_compute.
    + apply not_elem_of_dom. rewrite llm_finding_dom. by vm_compute.
  - rewrite payload_ids. apply NoDup_fmap_2_strong; [|apply NoDup_seq].
    intros i j _ _ H. apply review_id_inj. congruence.
  - intros i l Hi Hlast. by apply stamp_last.
  - intros l Hl. by apply stamp_other.
Qed.

Lemma build_llm_payload_ids_witness :
  (build_llm_payload sample_store [1; 2]).1 !! 2
  = Some (<["id" := VStr (review_id 2)]> (deref sample_store 2)).
Proof.
  destruct (build_llm_payload_ids sample_store [1; 2])
    as (_ & _ & _ & _ & H & _).
  apply (H 1 2); [reflexivity|].
  intros j Hj. destruct j as [|[|j]]; [lia|lia|done].
Defined.


(** ** The index of the verdicts *)

Lemma index_from_Some llm_results : forall idx k result,
  fold_left index_step llm_results idx !! k = Some result ->
  (result ∈ llm_results /\ result_key result = Some k) \/ idx !! k = Some result.
Proof.
  induction llm_results as [|r rest IH]; intros idx k result H; [by right|].
  simpl in H. apply IH in H as [[Hin Hkey]|H].
  - left. split; [by right|done].
  - unfold index_step in H. destruct (result_key r) as [rid|] eqn:Hr; [|by right].
    destruct (decide (rid = k)) as [->|Hne].
    + rewrite lookup_insert_eq in H. injection H as ->. left. split; [by left|done].
    + rewrite lookup_insert_ne in H by done. by right.
Qed.

Lemma index_from_other llm_results : forall idx k,
  (forall result, result ∈ llm_results -> result_key result <> Some k) ->
  fold_left index_step llm_results idx !! k = idx !! k.
Proof.
  induction llm_results as [|r rest IH]; intros idx k Hk; [done|].
  simpl. rewrite IH by (intros result Hin; apply Hk; by right).
  unfold index_step. destruct (result_key r) as [rid|] eqn:Hr; [|done].
  rewrite lookup_insert_ne; [done|]. intros ->. by apply (Hk r); [left|].
Qed.

Lemma index_from_NoDup llm_results : forall idx k result,
  NoDup (result_keys llm_results) ->
  result ∈ llm_results -> result_key result = Some k ->
  fold_left index_step llm_results idx !! k = Some result.
Proof.
  unfold result_keys.
  induction llm_results as [|r rest IH]; intros idx k result Hnodup Hin Hkey.
  - by apply elem_of_nil in Hin.
  - simpl in *. apply elem_of_cons in Hin as [->|Hin].
    + rewrite Hkey in Hnodup. apply NoDup_cons in Hnodup as [Hfresh _].
      rewrite index_from_other.
      * unfold index_step. rewrite Hkey. apply lookup_insert_eq.
      * intros result Hin Hresult. apply Hfresh.
        apply list_elem_of_omap. by exists result.
    + apply IH; [|done..].
      destruct (result_key r); [by apply NoDup_cons in Hnodup as [_ ?]|done].
Qed.

Lemma index_results_eq llm_results :
  index_results llm_results = fold_left index_step llm_results ∅.
Proof. done. Qed.

Lemma index_results_Some llm_results k result :
  index_results llm_results !! k = Some result ->
  result ∈ llm_results /\ result_key result = Some k.
Proof.
  rewrite index_results_eq. intros [H|H]%index_from_Some; [done|].
  by rewrite lookup_empty in H.
Qed.

Lemma index_from_is_Some llm_results : forall idx k,
  is_Some (idx !! k)
  \/ (exists result, result ∈ llm_results /\ result_key result = Some k) ->
  is_Some (fold_left index_step llm_results idx !! k).
Proof.
  induction llm_results as [|r rest IH]; intros idx k H.
  - destruct H as [H|(result & Hin & _)]; [done|by apply elem_of_nil in Hin].
  - simpl. apply IH. unfold index_step.
    destruct H as [H|(result & Hin & Hkey)].
    + left. destruct (result_key r) as [rid|]; [|done].
      rewrite lookup_insert. by case_decide.
    + apply elem_of_cons in Hin as [->|Hin]; [|right; by exists result].
      left. rewrite Hkey, lookup_insert_eq. by eexists.
Qed.

Lemma index_results_is_Some llm_results k result :
  result ∈ llm_results -> result_key result = Some k ->
  is_Some (index_results llm_results !! k).
Proof.
  intros Hin Hkey. apply index_from_is_Some. right. by exists result.
Qed.

Lemma index_results_perm llm_results llm_results' :
  llm_results ≡ₚ llm_results' -> NoDup (result_keys llm_results) ->
  index_results llm_results = index_results llm_results'.
Proof.
  intros Hperm Hnodup.
  assert (NoDup (result_keys llm_results')) as Hnodup'
    by (unfold result_keys in *; by rewrite <- Hperm).
  apply map_eq. intros k. rewrite !index_results_eq.
  destruct (fold_left index_step llm_results ∅ !! k) as [result|] eqn:H.
  - apply index_from_Some in H as [[Hin Hkey]|H]; [|by rewrite lookup_empty in H].
    symmetry. apply index_from_NoDup; [done| |done]. by rewrite <- Hperm.
  - destruct (fold_left index_step llm_results' ∅ !! k) as [result|] eqn:H';
      [|done].
    apply index_from_Some in H' as [[Hin Hkey]|H'];
      [|by rewrite lookup_empty in H'].
    rewrite (index_from_NoDup llm_results _ k result) in H; [done..| |done].
    by rewrite Hperm.
Qed.

(** ** The merge *)

Lemma attach_lookup_other result finding k :
  k ∉ verdict_keys -> attach result finding !! k = finding !! k.
Proof.
  unfold verdict_keys, attach. rewrite !not_elem_of_cons.
  intros (? & ? & ? & ? & _). by rewrite !lookup_insert_ne.
Qed.

Lemma attach_fields result finding :
  attach result finding !! "llm_is_secret" = Some (get result "is_secret")
  /\ attach result finding !! "llm_type" = Some (get result "llm_type")
  /\ attach result finding !! "llm_confidence"
     = Some (get result "llm_confidence")
  /\ attach result finding !! "llm_comment" = Some (get result "llm_comment").
Proof. unfold attach. repeat split; by simplify_map_eq. Qed.

Lemma get_attach_id result finding :
  get (attach result finding) "id" = get finding "id".
Proof.
  unfold get. rewrite attach_lookup_other; [done|].
  unfold verdict_keys. rewrite !not_elem_of_cons. repeat split; try done.
  apply not_elem_of_nil.
Qed.

Lemma attach_idemp result finding :
  attach result (attach result finding) = attach result finding.
Proof.
  apply map_eq. intros k.
  destruct (decide (k ∈ verdict_keys)) as [Hk|Hk];
    [|by rewrite !attach_lookup_other].
  unfold verdict_keys in Hk. rewrite !elem_of_cons, elem_of_nil in Hk.
  destruct (attach_fields result finding) as (H1 & H2 & H3 & H4).
  destruct (attach_fields result (attach result finding)) as (G1 & G2 & G3 & G4).
  destruct Hk as [->|[->|[->|[->|[]]]]]; congruence.
Qed.

Lemma merged_idemp idx finding : merged idx (merged idx finding) = merged idx finding.
Proof.
  unfold merged at 2.
  destruct (get finding "id") as [|b|n|s] eqn:Hid;
    try (unfold merged; by rewrite Hid);
    (destruct (idx !! hkey _) as [result|] eqn:Hidx;
     [|unfold merged; by rewrite Hid, Hidx]);
    unfold merged; by rewrite get_attach_id, Hid, Hidx, attach_idemp.
Qed.

Lemma merge_step_eq idx h finding :
  merge_step idx h finding = h
  \/ (merge_step idx h finding = <[finding := merged idx (deref h finding)]> h
      /\ is_Some (h !! finding)).
Proof.
  unfold merge_step, merged.
  destruct (h !! finding) as [d|] eqn:Hh.
  - destruct (get (deref h finding) "id"); [by left|..];
      (destruct (idx !! hkey _); [right; by split|by left]).
  - left. unfold deref, get. rewrite Hh. simpl. by rewrite lookup_empty.
Qed.

Lemma deref_merge_step idx h finding l :
  deref (merge_step idx h finding) l
  = if decide (l = finding) then merged idx (deref h l) else deref h l.
Proof.
  destruct (merge_step_eq idx h finding) as [Heq|[-> _]].
  - rewrite Heq. case_decide as Hl; [subst|done].
    symmetry. revert Heq. unfold merge_step, merged.
    destruct (get (deref h finding) "id"); try done;
      (destruct (idx !! hkey _); [|done]);
      intros Heq; apply (f_equal (fun h => deref h finding)) in Heq;
      by rewrite deref_insert, decide_True in Heq.
  - rewrite deref_insert. case_decide; case_decide; by subst.
Qed.

Lemma lookup_merge_step_unchanged idx h finding l :
  (l = finding -> merged idx (deref h l) = deref h l) ->
  merge_step idx h finding !! l = h !! l.
Proof.
  intros Hl. destruct (merge_step_eq idx h finding) as [->|[-> [d Hd]]]; [done|].
  destruct (decide (finding = l)) as [->|Hne]; [|by rewrite lookup_insert_ne].
  rewrite lookup_insert_eq, Hl by done. unfold deref. by rewrite Hd.
Qed.

Lemma deref_merge idx findings : forall h l,
  deref (fold_left (merge_step idx) findings h) l
  = if decide (l ∈ findings) then merged idx (deref h l) else deref h l.
Proof.
  induction findings as [|finding rest IH]; intros h l; cbn [fold_left].
  - by rewrite decide_False by apply not_elem_of_nil.
  - rewrite IH, deref_merge_step.
    destruct (decide (l ∈ rest)) as [Hrest|Hrest],
      (decide (l = finding)) as [->|Hne].
    + rewrite merged_idemp, decide_True by (by left). done.
    + rewrite decide_True by (by right). done.
    + rewrite decide_True by (by left). done.
    + rewrite decide_False; [done|]. by intros [?|?]%elem_of_cons.
Qed.

Lemma lookup_merge_unchanged idx findings : forall h l,
  (l ∈ findings -> merged idx (deref h l) = deref h l) ->
  fold_left (merge_step idx) findings h !! l = h !! l.
Proof.
  induction findings as [|finding rest IH]; intros h l Hl; [done|].
  simpl.
  assert (merge_step idx h finding !! l = h !! l) as Hstep
    by (apply lookup_merge_step_unchanged; intros ->; apply Hl; by left).
  rewrite IH; [done|]. intros Hrest. unfold deref. rewrite Hstep.
  apply Hl. by right.
Qed.

Lemma dom_merge idx findings : forall h,
  dom (fold_left (merge_step idx) findings h) = dom h.
Proof.
  induction findings as [|finding rest IH]; intros h; [done|].
  simpl. rewrite IH.
  destruct (merge_step_eq idx h finding) as [->|[-> Hh]]; [done|].
  rewrite dom_insert_L. apply subseteq_union_1_L, singleton_subseteq_l.
  by apply elem_of_dom.
Qed.

Lemma merged_no_id idx finding :
  get finding "id" = VNone -> merged idx finding = finding.
Proof. unfold merged. by intros ->. Qed.

Lemma merged_no_answer idx finding :
  idx !! hkey (get finding "id") = None -> merged idx finding = finding.
Proof.
  unfold merged. intros Hidx.
  destruct (get finding "id"); [done|..]; by rewrite Hidx.
Qed.

Lemma merged_answer idx finding result :
  get finding "id" <> VNone ->
  idx !! hkey (get finding "id") = Some result ->
  merged idx finding = attach result finding.
Proof.
  unfold merged. intros Hid Hidx.
  destruct (get finding "id"); [done|..]; by rewrite Hidx.
Qed.

Lemma merged_lookup_other idx finding k :
  k ∉ verdict_keys -> merged idx finding !! k = finding !! k.
Proof.
  intros Hk. unfold merged.
  destruct (get finding "id"); try done;
    (destruct (idx !! hkey _); [|done]); by apply attach_lookup_other.
Qed.

(** C9: the merge returns the list of findings it was given.  It leaves
    the record of a finding as it was when the finding has no id, when no
    verdict of the response carries its id, and when the finding is not in
    the list; in every record the fields other than llm_is_secret,
    llm_type, llm_confidence and llm_comment keep their values, and no
    record leaves the store.  A finding of the list whose id a verdict
    carries gets these four fields from such a verdict. *)
Theorem merge_llm_results_frame h findings llm_results :
  (merge_llm_results h findings llm_results).2 = findings
  /\ dom (merge_llm_results h findings llm_results).1 = dom h
  /\ (forall l, get (deref h l) "id" = VNone ->
        (merge_llm_results h findings llm_results).1 !! l = h !! l)
  /\ (forall l,
        (forall result, result ∈ llm_results ->
                        ~ answers (get (deref h l) "id") result) ->
        (merge_llm_results h findings llm_results).1 !! l = h !! l)
  /\ (forall l, l ∉ findings ->
        (merge_llm_results h findings llm_results).1 !! l = h !! l)
  /\ (forall l k, k ∉ verdict_keys ->
        deref (merge_llm_results h findings llm_results).1 l !! k
        = deref h l !! k)
  /\ (forall l, l ∈ findings -> get (deref h l) "id" <> VNone ->
        (exists result, result ∈ llm_results
                        /\ answers (get (deref h l) "id") result) ->
        exists result,
          result ∈ llm_results /\ answers (get (deref h l) "id") result
          /\ deref (merge_llm_results h findings llm_results).1 l
             = attach result (deref h l)
          /\ get (deref (merge_llm_results h findings llm_results).1 l)
               "llm_is_secret" = get result "is_secret"
          /\ get (deref (merge_llm_results h findings llm_results).1 l)
               "llm_type" = get result "llm_type"
          /\ get (deref (merge_llm_results h findings llm_results).1 l)
               "llm_confidence" = get result "llm_confidence"
          /\ get (deref (merge_llm_results h findings llm_results).1 l)
               "llm_comment" = get result "llm_comment").
Proof.
  unfold merge_llm_results. cbv zeta. cbn [fst snd].
  split; [done|]. split; [apply dom_merge|].
  split; [|split; [|split; [|split]]].
  - intros l Hid. apply lookup_merge_unchanged. intros _.
    by apply merged_no_id.
  - intros l Hnone. apply lookup_merge_unchanged. intros _.
    apply merged_no_answer.
    destruct (index_results llm_results !! _) as [result|] eqn:Hidx; [|done].
    apply index_results_Some in Hidx as [Hin Hkey]. by destruct (Hnone result).
  - intros l Hl. by apply lookup_merge_unchanged.
  - intros l k Hk. rewrite deref_merge. case_decide; [|done].
    by apply merged_lookup_other.
  - intros l Hl Hid (result & Hin & Hanswers).
    destruct (index_results_is_Some _ _ _ Hin Hanswers) as [result' Hidx].
    pose proof Hidx as [Hin' Hanswers']%index_results_Some.
    exists result'. split; [done|]. split; [done|].
    rewrite deref_merge, decide_True, (merged_answer _ _ result') by done.
    split; [done|]. unfold get.
    destruct (attach_fields result' (deref h l)) as (-> & -> & -> & ->).
    done.
Qed.

Lemma merge_llm_results_frame_witness :
  (merge_llm_results reviewed_store [0] [<["id" := VStr "f2"]> verdict_no]).1 !! 0
  = reviewed_store !! 0.
Proof.
  destruct (merge_llm_results_frame reviewed_store [0]
              [<["id" := VStr "f2"]> verdict_no]) as (_ & _ & _ & H & _).
  apply H. intros result Hin%list_elem_of_singleton. subst result.
  vm_compute. discriminate.
Defined.


Lemma merge_order_matters :
  [verdict_no; verdict_yes] ≡ₚ [verdict_yes; verdict_no]
  /\ merge_llm_results reviewed_store [0] [verdict_yes; verdict_no]
     <> merge_llm_results reviewed_store [0] [verdict_no; verdict_yes].
Proof.
  split; [apply perm_swap|]. intros H.
  apply (f_equal (fun r => get (deref r.1 0) "llm_is_secret")) in H.
  vm_compute in H. discriminate.
Qed.

(** C4, amended: for every finding list and every verdict list in which
    no two verdicts carry the same id, merging with any reordering of the
    verdicts yields the same store and the same finding list.  Of two
    verdicts with one id the later one is merged, so there the order
    counts. *)
Theorem merge_llm_results_perm h findings llm_results llm_results' :
  llm_results ≡ₚ llm_results' ->
  NoDup (result_keys llm_results) ->
  merge_llm_results h findings llm_results
  = merge_llm_results h findings llm_results'.
Proof.
  intros Hperm Hnodup. unfold merge_llm_results. cbv zeta.
  by rewrite (index_results_perm _ _ Hperm Hnodup).
Qed.

Lemma merge_llm_results_perm_witness :
  merge_llm_results reviewed_store [0]
    [verdict_yes; <["id" := VStr "f2"]> verdict_no]
  = merge_llm_results reviewed_store [0]
      [<["id" := VStr "f2"]> verdict_no; verdict_yes].
Proof.
  apply (merge_llm_results_perm reviewed_store [0]
           [verdict_yes; <["id" := VStr "f2"]> verdict_no]
           [<["id" := VStr "f2"]> verdict_no; verdict_yes]).
  - apply perm_swap.
  - vm_compute. apply NoDup_cons. split; [|apply NoDup_singleton].
    intros H%list_elem_of_singleton. discriminate.
Defined.


(** ** Characters of lines and snippets *)

Lemma chars_append s t : chars (s +:+ t) = chars s ++ chars t.
Proof. induction s as [|c s IH]; simpl; [done|]. unfold chars in *. simpl. by rewrite IH. Qed.

Lemma all_chars_cons p c s :
  all_chars p (String c s) = p c && all_chars p s.
Proof. done. Qed.

Lemma all_chars_append p s t :
  all_chars p (s +:+ t) = all_chars p s && all_chars p t.
Proof. unfold all_chars. by rewrite chars_append, forallb_app. Qed.

Lemma all_chars_snoc p s c :
  all_chars p (Str.snoc s c) = all_chars p s && p c.
Proof.
  unfold Str.snoc. rewrite all_chars_append, all_chars_cons.
  unfold all_chars at 3. simpl. by rewrite andb_true_r.
Qed.

Lemma all_chars_lstrip p s :
  all_chars p s = true -> all_chars p (Str.lstrip s) = true.
Proof.
  induction s as [|c s IH]; [done|]. simpl.
  destruct (Char.isspace c); [|done].
  rewrite all_chars_cons. intros [_ H]%andb_prop. by apply IH.
Qed.

Lemma all_chars_rstrip_by p q s :
  all_chars p s = true -> all_chars p (Str.rstrip_by q s) = true.
Proof.
  induction s as [|c s IH]; [done|]. rewrite all_chars_cons.
  intros [Hc Hs]%andb_prop. specialize (IH Hs). simpl.
  destruct (Str.rstrip_by q s) as [|d r].
  - destruct (q c); [done|]. by rewrite all_chars_cons, Hc.
  - by rewrite all_chars_cons, Hc.
Qed.

Lemma all_chars_strip p s :
  all_chars p s = true -> all_chars p (Str.strip s) = true.
Proof. intros H. by apply all_chars_rstrip_by, all_chars_lstrip. Qed.

Lemma all_chars_drop p n : forall s,
  all_chars p s = true -> all_chars p (Str.drop n s) = true.
Proof.
  induction n as [|n IH]; intros [|c s]; simpl; try done.
  rewrite all_chars_cons. intros [_ H]%andb_prop. by apply IH.
Qed.

Lemma rstrip_by_id q s :
  all_chars (fun c => negb (q c)) s = true -> Str.rstrip_by q s = s.
Proof.
  induction s as [|c s IH]; [done|]. rewrite all_chars_cons.
  intros [Hc Hs]%andb_prop. simpl. rewrite (IH Hs).
  apply negb_true_iff in Hc. rewrite Hc. by destruct s.
Qed.

(** Induction along [Str.splitlines_from]. *)
Lemma splitlines_from_ind (P : string -> string -> list string -> Prop) :
  (forall cur, P cur EmptyString
                 match cur with EmptyString => [] | _ => [cur] end) ->
  (forall cur c t,
     Char.islinebreak c = false ->
     P (Str.snoc cur c) t (Str.splitlines_from (Str.snoc cur c) t) ->
     P cur (String c t) (Str.splitlines_from (Str.snoc cur c) t)) ->
  (forall cur c, Char.islinebreak c = true -> P cur (String c EmptyString) [cur]) ->
  (forall cur c c' t',
     Char.islinebreak c = true ->
     Char.has_code 13 c && Char.has_code 10 c' = true ->
     P EmptyString t' (Str.splitlines_from EmptyString t') ->
     P cur (String c (String c' t')) (cur :: Str.splitlines_from EmptyString t')) ->
  (forall cur c c' t',
     Char.islinebreak c = true ->
     Char.has_code 13 c && Char.has_code 10 c' = false ->
     P EmptyString (String c' t')
       (Str.splitlines_from EmptyString (String c' t')) ->
     P cur (String c (String c' t'))
       (cur :: Str.splitlines_from EmptyString (String c' t'))) ->
  forall s cur, P cur s (Str.splitlines_from cur s).
Proof.
  intros Hnil Hchar Hlast Hcrlf Hbreak s.
  assert (forall size s, String.length s <= size ->
                         forall cur, P cur s (Str.splitlines_from cur s)) as H.
  { induction size as [|size IH]; intros [|c t] Hn cur; simpl in Hn;
      try apply Hnil; try lia.
    cbn [Str.splitlines_from].
    destruct (Char.islinebreak c) eqn:Hc.
    - destruct t as [|c' t']; [by apply Hlast|].
      destruct (Char.has_code 13 c && Char.has_code 10 c') eqn:Hcr.
      + apply Hcrlf; try done. apply IH. simpl in Hn. lia.
      + apply Hbreak; try done. apply IH. lia.
    - apply Hchar; [done|]. apply IH. lia. }
  intros cur. by apply (H (String.length s)).
Qed.

Lemma all_chars_splitlines_from p s : forall cur,
  all_chars p s = true -> all_chars p cur = true ->
  Forall (fun line => all_chars p line = true) (Str.splitlines_from cur s).
Proof.
  apply (splitlines_from_ind
           (fun cur s lines =>
              all_chars p s = true -> all_chars p cur = true ->
              Forall (fun line => all_chars p line = true) lines)).
  - intros cur _ Hcur. destruct cur; by repeat constructor.
  - intros cur c t _ IH. rewrite all_chars_cons. intros [Hc Ht]%andb_prop Hcur.
    apply IH; [done|]. by rewrite all_chars_snoc, Hcur, Hc.
  - intros cur c _ _ Hcur. by repeat constructor.
  - intros cur c c' t' _ _ IH. rewrite !all_chars_cons.
    intros [_ [_ Ht]%andb_prop]%andb_prop Hcur. constructor; [done|].
    by apply IH.
  - intros cur c c' t' _ _ IH. rewrite all_chars_cons.
    intros [_ Ht]%andb_prop Hcur. constructor; [done|]. by apply IH.
Qed.

Lemma all_chars_splitlines p text :
  all_chars p text = true ->
  Forall (fun line => all_chars p line = true) (Str.splitlines text).
Proof. intros H. by apply all_chars_splitlines_from. Qed.

(** No line of [splitlines] holds a line boundary. *)
Lemma one_line_splitlines_from s : forall cur,
  one_line cur = true ->
  Forall (fun line => one_line line = true) (Str.splitlines_from cur s).
Proof.
  apply (splitlines_from_ind
           (fun cur s lines =>
              one_line cur = true ->
              Forall (fun line => one_line line = true) lines)).
  - intros cur Hcur. destruct cur; by repeat constructor.
  - intros cur c t Hc IH Hcur. apply IH. unfold one_line in *.
    by rewrite all_chars_snoc, Hcur, Hc.
  - intros cur c _ Hcur. by repeat constructor.
  - intros cur c c' t' _ _ IH Hcur. constructor; [done|]. by apply IH.
  - intros cur c c' t' _ _ IH Hcur. constructor; [done|]. by apply IH.
Qed.

Lemma one_line_splitlines text :
  Forall (fun line => one_line line = true) (Str.splitlines text).
Proof. by apply one_line_splitlines_from. Qed.

Lemma append_snoc cur c t : Str.snoc cur c +:+ t = cur +:+ String c t.
Proof.
  unfold Str.snoc. induction cur as [|d cur IH]; [done|].
  exact (f_equal (String d) IH).
Qed.

(** A text without line boundary is its own single line. *)
Lemma splitlines_from_one_line s : forall cur,
  one_line s = true ->
  Str.splitlines_from cur s
  = match cur +:+ s with EmptyString => [] | line => [line] end.
Proof.
  induction s as [|c t IH]; intros cur Hs.
  - simpl. replace (cur +:+ EmptyString) with cur; [by destruct cur|].
    clear. induction cur as [|d cur IH]; [done|].
    exact (f_equal (String d) IH).
  - unfold one_line in Hs. rewrite all_chars_cons in Hs.
    apply andb_prop in Hs as [Hc Ht]. apply negb_true_iff in Hc.
    cbn [Str.splitlines_from]. rewrite Hc, IH by done.
    by rewrite append_snoc.
Qed.

Lemma splitlines_one_line s :
  one_line s = true -> s <> EmptyString -> Str.splitlines s = [s].
Proof.
  intros Hs Hne. unfold Str.splitlines. rewrite splitlines_from_one_line by done.
  simpl. by destruct s.
Qed.

Lemma linefeed_is_break c : Char.has_code 10 c = true -> Char.islinebreak c = true.
Proof.
  unfold Char.has_code, Char.islinebreak, Char.between.
  intros ->%N.eqb_eq. reflexivity.
Qed.

Lemma rstrip_nl_one_line s : one_line s = true -> Str.rstrip_nl s = s.
Proof.
  intros Hs. apply rstrip_by_id. unfold one_line, all_chars in *.
  rewrite forallb_forall in *. intros c Hc. specialize (Hs c Hc).
  apply negb_true_iff. apply negb_true_iff in Hs.
  destruct (Char.has_code 10 c) eqn:H10; [|done].
  by rewrite (linefeed_is_break c H10) in Hs.
Qed.


(** ** Every finding of a scan *)

Lemma elem_of_diff_findings diff_source f lines : forall current_file start,
  f ∈ diff_findings diff_source current_file start lines ->
  exists file n line code_line regex pattern_name finding_type,
    line ∈ lines /\ added_code line = Some code_line
    /\ first_match REGEX_PATTERNS code_line
       = Some (regex, pattern_name, finding_type)
    /\ f = diff_finding diff_source file n code_line pattern_name finding_type.
Proof.
  induction lines as [|line rest IH]; intros current_file start Hf.
  - by apply elem_of_nil in Hf.
  - cbn [diff_findings] in Hf. cbv zeta in Hf.
    apply elem_of_app in Hf as [Hf|Hf].
    + unfold diff_line_findings in Hf.
      destruct (added_code line) as [code_line|] eqn:Hadded;
        [|by apply elem_of_nil in Hf].
      destruct (first_match REGEX_PATTERNS code_line)
        as [[[regex pattern_name] finding_type]|] eqn:Hmatch;
        [|by apply elem_of_nil in Hf].
      apply list_elem_of_singleton in Hf as ->.
      eexists _, _, line, code_line, regex, pattern_name, finding_type.
      split; [by left|done].
    + apply IH in Hf as (file & n & l & c & r & pn & ft & Hl & H).
      exists file, n, l, c, r, pn, ft. split; [by right|done].
Qed.

Lemma elem_of_text_findings commit_hash file_path f lines : forall start,
  f ∈ text_findings commit_hash file_path start lines ->
  exists n line regex pattern_name finding_type,
    line ∈ lines
    /\ first_match REGEX_PATTERNS (Str.rstrip_nl line)
       = Some (regex, pattern_name, finding_type)
    /\ f = text_finding commit_hash file_path n (Str.rstrip_nl line)
             pattern_name finding_type.
Proof.
  induction lines as [|line rest IH]; intros start Hf.
  - by apply elem_of_nil in Hf.
  - cbn [text_findings] in Hf. apply elem_of_app in Hf as [Hf|Hf].
    + unfold text_line_findings in Hf. cbv zeta in Hf.
      destruct (first_match REGEX_PATTERNS (Str.rstrip_nl line))
        as [[[regex pattern_name] finding_type]|] eqn:Hmatch;
        [|by apply elem_of_nil in Hf].
      apply list_elem_of_singleton in Hf as ->.
      eexists _, line, regex, pattern_name, finding_type.
      split; [by left|done].
    + apply IH in Hf as (n & l & r & pn & ft & Hl & H).
      exists n, l, r, pn, ft. split; [by right|done].
Qed.



Lemma entropy_to_confidence_tier entropy :
  entropy_to_confidence entropy ∈ ["low"; "medium"; "high"].
Proof.
  unfold entropy_to_confidence.
  destruct (Rlt_dec entropy 3); [by left|].
  destruct (Rlt_dec entropy 4); [right; by left|do 2 right; by left].
Qed.


Lemma or_else_nonempty x d : d <> EmptyString -> or_else x d <> EmptyString.
Proof. intros Hd. unfold or_else. by destruct x as [[|c s]|]. Qed.


(** ** Scanning a snippet again *)

Lemma first_match_empty : first_match REGEX_PATTERNS EmptyString = None.
Proof. vm_compute. reflexivity. Qed.

Lemma scan_text_one_line snippet regex pattern_name finding_type file_path commit_hash :
  one_line snippet = true ->
  first_match REGEX_PATTERNS snippet = Some (regex, pattern_name, finding_type) ->
  scan_text_for_passwords snippet file_path commit_hash
  = [text_finding commit_hash file_path 1 snippet pattern_name finding_type].
Proof.
  intros Hline Hmatch.
  assert (snippet <> EmptyString) as Hne
    by (intros ->; by rewrite first_match_empty in Hmatch).
  rewrite scan_text_for_passwords_eq, splitlines_one_line by done.
  cbn [text_findings]. unfold text_line_findings. cbv zeta.
  by rewrite rstrip_nl_one_line, Hmatch by done.
Qed.

Lemma diff_snippet_one_line diff_text line code_line :
  line ∈ Str.splitlines diff_text -> added_code line = Some code_line ->
  one_line code_line = true.
Proof.
  intros Hline Hadded.
  pose proof (one_line_splitlines diff_text) as Hlines.
  rewrite Forall_forall in Hlines. specialize (Hlines line Hline).
  unfold added_code in Hadded. cbv zeta in Hadded.
  destruct (_ && _); [|done]. injection Hadded as <-.
  change (one_line (Str.drop 1 (Str.strip line)) = true).
  by apply all_chars_drop, all_chars_strip.
Qed.

Lemma text_snippet_one_line text line :
  line ∈ Str.splitlines text -> one_line (Str.rstrip_nl line) = true.
Proof.
  intros Hline. pose proof (one_line_splitlines text) as Hlines.
  rewrite Forall_forall in Hlines. by apply all_chars_rstrip_by, Hlines.
Qed.

(** X2: the snippet of a finding, scanned on its own as a text, yields
    exactly one finding, on line 1, with the same snippet, type and
    confidence: the rule that made a finding is found again in its
    snippet. *)
Theorem rescan_snippet f :
  (exists diff_text diff_source,
     f ∈ scan_diff_for_passwords diff_text diff_source)
  \/ (exists text file_path commit_hash,
        f ∈ scan_text_for_passwords text file_path commit_hash) ->
  exists snippet,
    f !! "snippet" = Some (VStr snippet)
    /\ forall file_path commit_hash,
         exists g,
           scan_text_for_passwords snippet file_path commit_hash = [g]
           /\ g !! "line" = Some (VInt 1)
           /\ g !! "snippet" = f !! "snippet"
           /\ g !! "type" = f !! "type"
           /\ g !! "confidence" = f !! "confidence".
Proof.
  intros [(diff_text & diff_source & Hf)|(text & file_path & commit_hash & Hf)].
  - rewrite scan_diff_for_passwords_eq in Hf.
    apply elem_of_diff_findings
      in Hf as (file & n & line & code & regex & pn & ft & Hl & Ha & Hmatch & ->).
    pose proof (diff_finding_fields diff_source file n code pn ft) as H.
    cbv zeta in H. destruct H as (_ & _ & _ & Hsnippet & Htype & Hconf).
    exists code. split; [done|]. intros file_path commit_hash.
    eexists. split.
    + apply (scan_text_one_line _ regex);
        [by eapply diff_snippet_one_line|done].
    + pose proof (text_finding_fields commit_hash file_path 1 code pn ft) as H.
      cbv zeta in H. destruct H as (_ & _ & Hline' & Hs' & Ht' & Hc').
      rewrite Hsnippet, Htype, Hconf. done.
  - rewrite scan_text_for_passwords_eq in Hf.
    apply elem_of_text_findings
      in Hf as (n & line & regex & pn & ft & Hl & Hmatch & ->).
    pose proof (text_finding_fields commit_hash file_path n
                  (Str.rstrip_nl line) pn ft) as H.
    cbv zeta in H. destruct H as (_ & _ & _ & Hsnippet & Htype & Hconf).
    exists (Str.rstrip_nl line). split; [done|]. intros file_path' commit_hash'.
    eexists. split.
    + apply (scan_text_one_line _ regex);
        [by eapply text_snippet_one_line|done].
    + pose proof (text_finding_fields commit_hash' file_path' 1
                    (Str.rstrip_nl line) pn ft) as H.
      cbv zeta in H. destruct H as (_ & _ & Hline' & Hs' & Ht' & Hc').
      rewrite Hsnippet, Htype, Hconf. done.
Qed.


Lemma search_password_two_rules :
  Re.search password_regex two_rules_line = true.
Proof. vm_compute. reflexivity. Qed.

Lemma first_match_two_rules :
  first_match REGEX_PATTERNS two_rules_line
  = Some (password_regex, "password assignment", "hardcoded_password").
Proof.
  unfold first_match, REGEX_PATTERNS. cbn [List.find fst].
  by rewrite search_password_two_rules.
Qed.

Lemma scan_text_two_rules file_path commit_hash :
  scan_text_for_passwords two_rules_line file_path commit_hash
  = [text_finding commit_hash file_path 1 two_rules_line
       "password assignment" "hardcoded_password"].
Proof.
  apply (scan_text_one_line _ password_regex); [reflexivity|].
  apply first_match_two_rules.
Qed.

Lemma rescan_snippet_witness :
  exists snippet,
    text_finding None "COMMIT_MESSAGE" 1 two_rules_line
      "password assignment" "hardcoded_password" !! "snippet"
    = Some (VStr snippet)
    /\ forall file_path commit_hash,
         exists g,
           scan_text_for_passwords snippet file_path commit_hash = [g]
           /\ g !! "line" = Some (VInt 1)
           /\ g !! "snippet"
              = text_finding None "COMMIT_MESSAGE" 1 two_rules_line
                  "password assignment" "hardcoded_password" !! "snippet"
           /\ g !! "type"
              = text_finding None "COMMIT_MESSAGE" 1 two_rules_line
                  "password assignment" "hardcoded_password" !! "type"
           /\ g !! "confidence"
              = text_finding None "COMMIT_MESSAGE" 1 two_rules_line
                  "password assignment" "hardcoded_password" !! "confidence".
Proof.
  apply rescan_snippet. right.
  exists two_rules_line, "COMMIT_MESSAGE", None.
  rewrite scan_text_two_rules. by left.
Defined.

(** ** The order of the findings *)

Lemma line_of_diff_finding diff_source file n code_line pattern_name finding_type :
  line_of (diff_finding diff_source file n code_line pattern_name finding_type)
  = Some n.
Proof.
  pose proof (diff_finding_fields diff_source file n code_line
                pattern_name finding_type) as H.
  cbv zeta in H. destruct H as (_ & _ & Hline & _).
  unfold line_of. rewrite Hline.
  replace (0 <=? Z.of_nat n)%Z with true by (symmetry; apply Z.leb_le; lia).
  by rewrite Nat2Z.id.
Qed.

Lemma line_of_text_finding commit_hash file_path n code_line pattern_name finding_type :
  line_of (text_finding commit_hash file_path n code_line pattern_name finding_type)
  = Some n.
Proof.
  pose proof (text_finding_fields commit_hash file_path n code_line
                pattern_name finding_type) as H.
  cbv zeta in H. destruct H as (_ & _ & Hline & _).
  unfold line_of. rewrite Hline.
  replace (0 <=? Z.of_nat n)%Z with true by (symmetry; apply Z.leb_le; lia).
  by rewrite Nat2Z.id.
Qed.

Lemma line_numbers_cons (a fs : list dict) start ns len :
  (a = [] \/ exists f, a = [f] /\ line_of f = Some start) ->
  line_of <$> fs = Some <$> ns ->
  StronglySorted lt ns ->
  Forall (fun n => S start <= n < S start + len) ns ->
  exists ns',
    line_of <$> (a ++ fs) = Some <$> ns'
    /\ StronglySorted lt ns'
    /\ Forall (fun n => start <= n < start + S len) ns'.
Proof.
  intros [->|(f & -> & Hf)] Hfs Hsorted Hbounds.
  - exists ns. split; [done|]. split; [done|].
    eapply Forall_impl; [exact Hbounds|]. simpl. lia.
  - exists (start :: ns).
    split; [change ([f] ++ fs) with (f :: fs); by rewrite !fmap_cons, Hf, Hfs|].
    split.
    + constructor; [done|].
      eapply Forall_impl; [exact Hbounds|]. simpl. lia.
    + constructor; [lia|].
      eapply Forall_impl; [exact Hbounds|]. simpl. lia.
Qed.

Lemma diff_findings_line_numbers diff_source lines : forall current_file start,
  exists ns,
    line_of <$> diff_findings diff_source current_file start lines = Some <$> ns
    /\ StronglySorted lt ns
    /\ Forall (fun n => start <= n < start + length lines) ns.
Proof.
  induction lines as [|line rest IH]; intros current_file start.
  - exists []. repeat split; constructor.
  - cbn [diff_findings]. cbv zeta.
    destruct (IH (header_file current_file line) (S start))
      as (ns & Hns & Hsorted & Hbounds).
    apply (line_numbers_cons _ _ _ ns (length rest)); try done.
    unfold diff_line_findings.
    destruct (added_code line) as [code_line|]; [|by left].
    destruct (first_match REGEX_PATTERNS code_line) as [[[??]?]|]; [|by left].
    right. eexists. split; [done|]. apply line_of_diff_finding.
Qed.

Lemma text_findings_line_numbers commit_hash file_path lines : forall start,
  exists ns,
    line_of <$> text_findings commit_hash file_path start lines = Some <$> ns
    /\ StronglySorted lt ns
    /\ Forall (fun n => start <= n < start + length lines) ns.
Proof.
  induction lines as [|line rest IH]; intros start.
  - exists []. repeat split; constructor.
  - cbn [text_findings].
    destruct (IH (S start)) as (ns & Hns & Hsorted & Hbounds).
    apply (line_numbers_cons _ _ _ ns (length rest)); try done.
    unfold text_line_findings. cbv zeta.
    destruct (first_match REGEX_PATTERNS _) as [[[??]?]|]; [|by left].
    right. eexists. split; [done|]. apply line_of_text_finding.
Qed.

(** X3: both scans return their findings in the order of the lines: the
    line numbers of the findings, read in list order, are strictly
    increasing, and each lies between 1 and the number of lines of the
    text. *)
Theorem findings_in_line_order :
  (forall diff_text diff_source,
     exists ns,
       line_of <$> scan_diff_for_passwords diff_text diff_source = Some <$> ns
       /\ StronglySorted lt ns
       /\ Forall (fun n => 1 <= n <= length (Str.splitlines diff_text)) ns)
  /\ (forall text file_path commit_hash,
        exists ns,
          line_of <$> scan_text_for_passwords text file_path commit_hash
          = Some <$> ns
          /\ StronglySorted lt ns
          /\ Forall (fun n => 1 <= n <= length (Str.splitlines text)) ns).
Proof.
  split.
  - intros diff_text diff_source. rewrite scan_diff_for_passwords_eq.
    destruct (diff_findings_line_numbers diff_source
                (Str.splitlines diff_text) None 1) as (ns & Hns & Hs & Hb).
    exists ns. split; [done|]. split; [done|].
    eapply Forall_impl; [exact Hb|]. simpl. lia.
  - intros text file_path commit_hash. rewrite scan_text_for_passwords_eq.
    destruct (text_findings_line_numbers commit_hash file_path
                (Str.splitlines text) 1) as (ns & Hns & Hs & Hb).
    exists ns. split; [done|]. split; [done|].
    eapply Forall_impl; [exact Hb|]. simpl. lia.
Qed.

(** ** Which lines of a diff are scanned *)

Lemma startswith_cons s c p :
  Str.startswith s (String c p) = true -> exists t, s = String c t.
Proof.
  unfold Str.startswith. intros H%String.prefix_correct.
  destruct s as [|d t]; simpl in H; [done|]. injection H as -> _. by exists t.
Qed.

Lemma added_code_has_plus line code_line :
  added_code line = Some code_line ->
  all_chars (fun c => negb (Char.has_code 43 c)) line = false.
Proof.
  intros Hadded. apply not_true_is_false. intros Hline.
  apply (all_chars_strip _ line) in Hline.
  unfold added_code in Hadded. cbv zeta in Hadded.
  destruct (Str.startswith (Str.strip line) "+") eqn:Hplus; [|done].
  apply startswith_cons in Hplus as [t Ht]. rewrite Ht in Hline. done.
Qed.

Lemma lstrip_pad pad line :
  all_chars Char.isspace pad = true ->
  Str.lstrip (pad +:+ line) = Str.lstrip line.
Proof.
  induction pad as [|c pad IH]; [done|]. rewrite all_chars_cons.
  intros [Hc Hpad]%andb_prop.
  change (String c pad +:+ line) with (String c (pad +:+ line)).
  cbn [Str.lstrip]. rewrite Hc. by apply IH.
Qed.

Lemma prefix_cons_ne c d p s : c <> d -> String.prefix (String c p) (String d s) = false.
Proof. intros Hne. simpl. by destruct (ascii_dec c d). Qed.

Lemma header_file_pad current_file c pad line :
  Char.isspace c = true ->
  header_file current_file (String c pad +:+ line) = current_file.
Proof.
  intros Hc. unfold header_file, Str.startswith.
  change (String c pad +:+ line) with (String c (pad +:+ line)).
  rewrite prefix_cons_ne; [done|]. by intros <-.
Qed.

(** X4: whether a line of a diff is scanned is decided after the
    whitespace around it is stripped.  A diff without any [+] yields no
    finding; and whitespace before a line changes neither the added code
    read from it nor the findings made on it, so an indented [+] line is
    scanned like an added line. *)
Theorem scanned_lines :
  (forall diff_text diff_source,
     all_chars (fun c => negb (Char.has_code 43 c)) diff_text = true ->
     scan_diff_for_passwords diff_text diff_source = [])
  /\ (forall pad line,
        all_chars Char.isspace pad = true ->
        added_code (pad +:+ line) = added_code line
        /\ forall diff_source current_file n,
             diff_line_findings diff_source current_file n (pad +:+ line)
             = diff_line_findings diff_source current_file n line).
Proof.
  split.
  - intros diff_text diff_source Hplus. rewrite scan_diff_for_passwords_eq.
    apply diff_findings_quiet. apply forallb_forall. intros line Hline.
    apply list_elem_of_In in Hline.
    pose proof (all_chars_splitlines _ _ Hplus) as Hlines.
    rewrite Forall_forall in Hlines. specialize (Hlines line Hline).
    unfold quiet. destruct (added_code line) as [code_line|] eqn:Hadded; [|done].
    apply added_code_has_plus in Hadded. congruence.
  - intros pad line Hpad.
    assert (added_code (pad +:+ line) = added_code line) as Hadded
      by (unfold added_code, Str.strip; by rewrite lstrip_pad).
    split; [done|]. intros diff_source current_file n.
    unfold diff_line_findings. by rewrite Hadded.
Qed.


(** ** The findings of a scan, line by line *)

Lemma elem_of_text_findings_iff commit_hash file_path lines : forall start f,
  f ∈ text_findings commit_hash file_path start lines
  <-> exists i line regex pattern_name finding_type,
        lines !! i = Some line
        /\ first_match REGEX_PATTERNS (Str.rstrip_nl line)
           = Some (regex, pattern_name, finding_type)
        /\ f = text_finding commit_hash file_path (start + i)
                 (Str.rstrip_nl line) pattern_name finding_type.
Proof.
  induction lines as [|line rest IH]; intros start f.
  - split; [by intros ?%elem_of_nil|by intros (i & ? & ? & ? & ? & ? & _)].
  - cbn [text_findings]. rewrite elem_of_app, IH. unfold text_line_findings.
    cbv zeta. split.
    + intros [Hf|(i & l & regex & pn & ft & Hi & Hm & ->)].
      * destruct (first_match REGEX_PATTERNS (Str.rstrip_nl line))
          as [[[regex pn] ft]|] eqn:Hm; [|by apply elem_of_nil in Hf].
        apply list_elem_of_singleton in Hf as ->.
        exists 0, line, regex, pn, ft. by rewrite Nat.add_0_r.
      * exists (S i), l, regex, pn, ft.
        by replace (start + S i) with (S start + i) by lia.
    + intros (i & l & regex & pn & ft & Hi & Hm & ->).
      destruct i as [|i].
      * left. injection Hi as ->. rewrite Hm, Nat.add_0_r.
        apply list_elem_of_singleton. done.
      * right. exists i, l, regex, pn, ft.
        by replace (S start + i) with (start + S i) by lia.
Qed.

Lemma elem_of_diff_findings_iff diff_source lines : forall current_file start f,
  f ∈ diff_findings diff_source current_file start lines
  <-> exists i line code_line regex pattern_name finding_type,
        lines !! i = Some line
        /\ added_code line = Some code_line
        /\ first_match REGEX_PATTERNS code_line
           = Some (regex, pattern_name, finding_type)
        /\ f = diff_finding diff_source
                 (fold_left header_file (take (S i) lines) current_file)
                 (start + i) code_line pattern_name finding_type.
Proof.
  induction lines as [|line rest IH]; intros current_file start f.
  - split; [by intros ?%elem_of_nil|by intros (i & ? & ? & ? & ? & ? & ? & _)].
  - cbn [diff_findings]. cbv zeta. rewrite elem_of_app, IH.
    unfold diff_line_findings. split.
    + intros [Hf|(i & l & code & regex & pn & ft & Hi & Ha & Hm & ->)].
      * destruct (added_code line) as [code|] eqn:Ha;
          [|by apply elem_of_nil in Hf].
        destruct (first_match REGEX_PATTERNS code)
          as [[[regex pn] ft]|] eqn:Hm; [|by apply elem_of_nil in Hf].
        apply list_elem_of_singleton in Hf as ->.
        exists 0, line, code, regex, pn, ft. by rewrite Nat.add_0_r.
      * exists (S i), l, code, regex, pn, ft.
        by replace (start + S i) with (S start + i) by lia.
    + intros (i & l & code & regex & pn & ft & Hi & Ha & Hm & ->).
      destruct i as [|i].
      * left. injection Hi as ->. rewrite Ha, Hm, Nat.add_0_r.
        apply list_elem_of_singleton. done.
      * right. exists i, l, code, regex, pn, ft.
        by replace (S start + i) with (start + S i) by lia.
Qed.

(** X22: the findings of a scan are exactly the lines a rule matches.  In
    a text scan there is a finding for the line number k exactly when a
    rule is found in the k-th line, and its snippet is that line.  In a
    diff scan there is one exactly when the k-th line of the diff is an
    added line in whose code a rule is found; its snippet is that code,
    its line number is the position in the diff, and its file is the one
    of the last [+++ ] header read up to that line. *)
Theorem findings_are_the_matching_lines :
  (forall text file_path commit_hash f,
     f ∈ scan_text_for_passwords text file_path commit_hash
     <-> exists i line regex pattern_name finding_type,
           Str.splitlines text !! i = Some line
           /\ first_match REGEX_PATTERNS (Str.rstrip_nl line)
              = Some (regex, pattern_name, finding_type)
           /\ f = text_finding commit_hash file_path (S i)
                    (Str.rstrip_nl line) pattern_name finding_type)
  /\ (forall diff_text diff_source f,
        f ∈ scan_diff_for_passwords diff_text diff_source
        <-> exists i line code_line regex pattern_name finding_type,
              Str.splitlines diff_text !! i = Some line
              /\ added_code line = Some code_line
              /\ first_match REGEX_PATTERNS code_line
                 = Some (regex, pattern_name, finding_type)
              /\ f = diff_finding diff_source
                       (fold_left header_file
                          (take (S i) (Str.splitlines diff_text)) None)
                       (S i) code_line pattern_name finding_type).
Proof.
  split.
  - intros text file_path commit_hash f.
    rewrite scan_text_for_passwords_eq. apply elem_of_text_findings_iff.
  - intros diff_text diff_source f.
    rewrite scan_diff_for_passwords_eq. apply elem_of_diff_findings_iff.
Qed.

(** X23: [scan_file_for_passwords] scans what the file reads as.  A file
    that cannot be read yields no list (the error of [open] is raised);
    otherwise every finding names the path as it was given and the commit
    [unknown], and its line number and snippet are those of one line of
    the file in which a rule is found. *)
Theorem scan_file_points_at_lines w file_path :
  match read_file w file_path with
  | None => scan_file_for_passwords w file_path = None
  | Some text =>
      exists findings,
        scan_file_for_passwords w file_path = Some findings
        /\ forall f,
             f ∈ findings ->
             f !! "commit_hash" = Some (VStr "unknown")
             /\ f !! "file_path" = Some (VStr file_path)
             /\ exists i line,
                  Str.splitlines text !! i = Some line
                  /\ first_match REGEX_PATTERNS (Str.rstrip_nl line) <> None
                  /\ f !! "line" = Some (VInt (Z.of_nat (S i)))
                  /\ f !! "snippet" = Some (VStr (Str.rstrip_nl line))
  end.
Proof.
  unfold scan_file_for_passwords.
  destruct (read_file w file_path) as [text|]; [|done].
  eexists. split; [done|]. intros f Hf.
  rewrite scan_text_for_passwords_eq in Hf.
  apply elem_of_text_findings_iff
    in Hf as (i & line & regex & pn & ft & Hi & Hm & ->).
  pose proof (text_finding_fields None file_path (1 + i) (Str.rstrip_nl line)
                pn ft) as H.
  cbv zeta in H. destruct H as (Hhash & Hfile & Hline & Hsnippet & _).
  split; [done|]. split; [done|]. exists i, line.
  split; [done|]. split; [by rewrite Hm|]. done.
Qed.


(** ** The file a header names *)

Lemma append_empty_r s : s +:+ EmptyString = s.
Proof. induction s as [|c s IH]; [done|]. exact (f_equal (String c) IH). Qed.

Lemma append_assoc s t u : (s +:+ t) +:+ u = s +:+ (t +:+ u).
Proof. induction s as [|c s IH]; [done|]. exact (f_equal (String c) IH). Qed.

Lemma split_from_word w : forall cur s,
  no_space w = true ->
  Str.split_from cur (w +:+ s) = Str.split_from (cur +:+ w) s.
Proof.
  induction w as [|c w IH]; intros cur s Hw.
  - by rewrite append_empty_r.
  - unfold no_space in Hw. rewrite all_chars_cons in Hw.
    apply andb_prop in Hw as [Hc Hw]. apply negb_true_iff in Hc.
    change (String c w +:+ s) with (String c (w +:+ s)).
    cbn [Str.split_from]. rewrite Hc, IH by done.
    by rewrite append_snoc.
Qed.

Lemma split_from_end cur rest :
  cur <> EmptyString ->
  rest = EmptyString
  \/ (exists c r, rest = String c r /\ Char.isspace c = true) ->
  exists fields, Str.split_from cur rest = cur :: fields.
Proof.
  intros Hcur [->|(c & r & -> & Hc)].
  - exists []. simpl. by destruct cur.
  - exists (Str.split_from EmptyString r). cbn [Str.split_from].
    rewrite Hc. by destruct cur.
Qed.

Lemma prefix_append p s : String.prefix p (p +:+ s) = true.
Proof.
  induction p as [|c p IH]; [by destruct s|].
  change (String c p +:+ s) with (String c (p +:+ s)). simpl.
  by destruct (ascii_dec c c).
Qed.

(** X5: the file of a [+++ ] header is the second whitespace-separated
    field of the line, without a leading [b/]: after [+++ ] a path without
    whitespace that is followed by nothing or by whitespace is taken
    whole, whatever comes after the whitespace; so of a path with a space
    in it only the part before the space is kept. *)
Theorem header_file_second_field current_file path rest :
  path <> EmptyString ->
  no_space path = true ->
  rest = EmptyString
  \/ (exists c r, rest = String c r /\ Char.isspace c = true) ->
  header_file current_file ("+++ " +:+ path +:+ rest)
  = Some (if Str.startswith path "b/" then Str.drop 2 path else path).
Proof.
  intros Hpath Hword Hrest. unfold header_file, Str.startswith at 1.
  rewrite prefix_append. unfold Str.split.
  change ("+++ " +:+ path +:+ rest)
    with (String "+" (String "+" (String "+" (String " " (path +:+ rest))))).
  cbn [Str.split_from]. change (Char.isspace "+") with false.
  change (Char.isspace " ") with true. cbn iota.
  change (Str.snoc (Str.snoc (Str.snoc EmptyString "+") "+") "+") with "+++".
  cbn iota. rewrite split_from_word by done.
  destruct (split_from_end (EmptyString +:+ path) rest) as [fields ->]; [|done|done].
  by destruct path.
Qed.

Lemma header_file_second_field_witness :
  header_file None "+++ b/my file.py" = Some "my".
Proof.
  apply (header_file_second_field None "b/my" " file.py").
  - discriminate.
  - reflexivity.
  - right. exists " "%char, "file.py". split; reflexivity.
Defined.


(** ** What the rules find *)

Lemma space_not_word c : Char.isspace c = true -> Char.isword c = false.
Proof.
  destruct c as [[] [] [] [] [] [] [] []]; vm_compute; intros; congruence.
Qed.

Lemma isword_lower c : Char.isword (Char.lower c) = Char.isword c.
Proof. destruct c as [[] [] [] [] [] [] [] []]; vm_compute; reflexivity. Qed.

Lemma all_chars_isword_lower s :
  all_chars Char.isword (Str.lower s) = all_chars Char.isword s.
Proof.
  induction s as [|c s IH]; [done|].
  change (Str.lower (String c s)) with (String (Char.lower c) (Str.lower s)).
  by rewrite !all_chars_cons, isword_lower, IH.
Qed.

Lemma append_cons c t tail : String c t +:+ tail = String c (t +:+ tail).
Proof. done. Qed.

Lemma lower_cons c t : Str.lower (String c t) = String (Char.lower c) (Str.lower t).
Proof. done. Qed.

Lemma rep_found p v : forall min prev tail k,
  all_chars p v = true -> min <= String.length v ->
  k (last_of prev v) tail = true ->
  Re.rep p min prev (v +:+ tail) k = true.
Proof.
  induction v as [|c v IH]; intros min prev tail k Hv Hmin Hk.
  - simpl in Hmin. assert (min = 0) as -> by lia. simpl in Hk.
    change (EmptyString +:+ tail) with tail.
    destruct tail; simpl; rewrite Hk; [done|]. apply orb_true_r.
  - rewrite all_chars_cons in Hv. apply andb_prop in Hv as [Hc Hv].
    change (String c v +:+ tail) with (String c (v +:+ tail)).
    cbn [Re.rep]. rewrite Hc, IH; [done|done| |done]. simpl in Hmin. lia.
Qed.

Lemma iword_found w : forall t prev tail k,
  Str.lower t = Str.lower w ->
  Re.matches (Re.iword w) prev (t +:+ tail) k = k (last_of prev t) tail.
Proof.
  induction w as [|x w IH]; intros [|c t] prev tail k Hlower; try done.
  rewrite !lower_cons in Hlower. injection Hlower as Hc Ht.
  rewrite append_cons. cbn [Re.iword Re.matches Re.ichar]. rewrite Hc, Ascii.eqb_refl.
  cbn [andb]. by rewrite IH.
Qed.

Lemma alt_found rs r prev s k :
  In r rs -> Re.matches r prev s k = true ->
  Re.matches (Re.alt rs) prev s k = true.
Proof.
  induction rs as [|r' rs IH]; intros Hin Hr; [done|].
  destruct Hin as [->|Hin].
  - destruct rs; [done|]. cbn [Re.alt Re.matches]. by rewrite Hr.
  - destruct rs as [|r'' rs]; [done|].
    change (Re.alt (r' :: r'' :: rs)) with (Re.Alt r' (Re.alt (r'' :: rs))).
    cbn [Re.matches]. rewrite IH by done. apply orb_true_r.
Qed.

Lemma search_from_found r before : forall prev s,
  Re.match_here r (last_of prev before) s = true ->
  Re.search_from r prev (before +:+ s) = true.
Proof.
  induction before as [|c before IH]; intros prev s H.
  - change (EmptyString +:+ s) with s. destruct s; simpl in *; by rewrite H.
  - change (String c before +:+ s) with (String c (before +:+ s)).
    cbn [Re.search_from]. rewrite IH by done. apply orb_true_r.
Qed.

Lemma word_before_last_of prev t :
  t <> EmptyString -> all_chars Char.isword t = true ->
  Re.word_before (last_of prev t) = true.
Proof.
  revert prev. induction t as [|c t IH]; intros prev Hne Ht; [done|].
  rewrite all_chars_cons in Ht. apply andb_prop in Ht as [Hc Ht].
  cbn [last_of]. destruct t as [|d t]; [exact Hc|].
  by apply (IH (Some c)).
Qed.

Lemma word_here_keyword t tail :
  t <> EmptyString -> all_chars Char.isword t = true ->
  Re.word_here (t +:+ tail) = true.
Proof.
  destruct t as [|c t]; [done|]. rewrite all_chars_cons.
  by intros _ [Hc _]%andb_prop.
Qed.

Lemma word_here_after_keyword ws tail :
  all_chars Char.isspace ws = true ->
  Re.word_here (ws +:+ String "=" tail) = false.
Proof.
  destruct ws as [|c ws]; [done|]. rewrite all_chars_cons.
  intros [Hc _]%andb_prop. by apply space_not_word.
Qed.

(** A rule finds every assignment of its shape. *)
Lemma assignment_found keywords value kw before keyword ws1 ws2 q v q' rest :
  In kw keywords ->
  Str.lower keyword = Str.lower kw ->
  kw <> EmptyString -> all_chars Char.isword kw = true ->
  Re.word_before (last_of None before) = false ->
  all_chars Char.isspace ws1 = true -> all_chars Char.isspace ws2 = true ->
  Re.isquote q = true -> Re.isquote q' = true ->
  all_chars value v = true -> 4 <= String.length v ->
  Re.search (Re.assignment keywords value)
    (assignment_line before keyword ws1 ws2 q v q' rest) = true.
Proof.
  intros Hin Hlower Hkw Hword Hbefore Hws1 Hws2 Hq Hq' Hv Hlen.
  assert (keyword <> EmptyString) as Hkeyword.
  { intros ->. destruct kw; [done|discriminate]. }
  assert (all_chars Char.isword keyword = true) as Hkwword.
  { by rewrite <- all_chars_isword_lower, Hlower, all_chars_isword_lower. }
  unfold Re.search, assignment_line.
  apply search_from_found. unfold Re.match_here, Re.assignment, Re.cat.
  cbn [foldr Re.matches]. rewrite Hbefore, word_here_keyword by done.
  cbn [xorb andb].
  apply (alt_found _ (Re.iword kw)); [by apply in_map|].
  rewrite iword_found by done.
  rewrite word_before_last_of, word_here_after_keyword by done.
  cbn [xorb andb].
  apply rep_found; [done|lia|]. cbn [andb].
  change (Char.has_code 61 "=") with true. cbn [andb].
  apply rep_found; [done|lia|]. rewrite Hq. cbn [andb].
  apply rep_found; [done|done|]. by rewrite Hq'.
Qed.

(** X6: each rule finds every assignment of its shape.  A keyword of the
    rule in any letter case, not preceded by a word character, then
    optional whitespace, [=], optional whitespace, a quote, at least four
    value characters (no quote for the password and secret rules, the
    characters of the token class for the token rule) and a quote: such a
    line is found by the rule whatever follows, also when the two quotes
    differ.  A line of this shape for a password keyword is reported as
    hardcoded_password. *)
Theorem rules_find_assignments before keyword ws1 ws2 q v q' rest kw :
  Str.lower keyword = kw ->
  Re.word_before (last_of None before) = false ->
  all_chars Char.isspace ws1 = true -> all_chars Char.isspace ws2 = true ->
  Re.isquote q = true -> Re.isquote q' = true ->
  4 <= String.length v ->
  (In kw ["password"; "pwd"; "pass"; "user_password"] ->
   all_chars Re.not_quote v = true ->
   first_match REGEX_PATTERNS
     (assignment_line before keyword ws1 ws2 q v q' rest)
   = Some (password_regex, "password assignment", "hardcoded_password"))
  /\ (In kw ["token"; "api_token"; "auth_token"] ->
      all_chars Re.token_char v = true ->
      Re.search token_regex
        (assignment_line before keyword ws1 ws2 q v q' rest) = true)
  /\ (In kw ["secret"; "secret_key"; "private_key"] ->
      all_chars Re.not_quote v = true ->
      Re.search secret_regex
        (assignment_line before keyword ws1 ws2 q v q' rest) = true).
Proof.
  intros Hlower Hbefore Hws1 Hws2 Hq Hq' Hlen.
  split; [|split].
  - intros Hin Hv. unfold first_match, REGEX_PATTERNS. cbn [List.find fst].
    unfold password_regex.
    rewrite (assignment_found _ _ kw); try done.
    + simpl in Hin. destruct Hin as [<-|[<-|[<-|[<-|[]]]]]; rewrite Hlower; reflexivity.
    + simpl in Hin. by destruct Hin as [<-|[<-|[<-|[<-|[]]]]].
    + simpl in Hin. by destruct Hin as [<-|[<-|[<-|[<-|[]]]]].
  - intros Hin Hv. unfold token_regex.
    rewrite (assignment_found _ _ kw); try done.
    + simpl in Hin. destruct Hin as [<-|[<-|[<-|[]]]]; rewrite Hlower; reflexivity.
    + simpl in Hin. by destruct Hin as [<-|[<-|[<-|[]]]].
    + simpl in Hin. by destruct Hin as [<-|[<-|[<-|[]]]].
  - intros Hin Hv. unfold secret_regex.
    rewrite (assignment_found _ _ kw); try done.
    + simpl in Hin. destruct Hin as [<-|[<-|[<-|[]]]]; rewrite Hlower; reflexivity.
    + simpl in Hin. by destruct Hin as [<-|[<-|[<-|[]]]].
    + simpl in Hin. by destruct Hin as [<-|[<-|[<-|[]]]].
Qed.


Lemma rules_find_assignments_witness :
  first_match REGEX_PATTERNS
    (assignment_line "self." "PassWord" " " "  " "034" "hunter2!" "'" ";")
  = Some (password_regex, "password assignment", "hardcoded_password").
Proof.
  refine (proj1 (rules_find_assignments "self." "PassWord" " " "  " "034"
                   "hunter2!" "'" ";" "password" _ _ _ _ _ _ _) _ _);
    try reflexivity.
  - simpl. lia.
  - by left.
Defined.

(** ** The threshold *)

Lemma filter_sublist {A} (p : A -> bool) (l : list A) : sublist (List.filter p l) l.
Proof.
  induction l as [|x l IH]; simpl; [constructor|].
  destruct (p x); by constructor.
Qed.

Lemma filter_sublist_mono {A} (p q : A -> bool) (l : list A) :
  (forall x, p x = true -> q x = true) ->
  sublist (List.filter p l) (List.filter q l).
Proof.
  intros Hpq. induction l as [|x l IH]; simpl; [constructor|].
  destruct (p x) eqn:Hp.
  - rewrite (Hpq x Hp). by constructor.
  - destruct (q x); [by constructor|done].
Qed.

Lemma filter_filter_same {A} (p : A -> bool) (l : list A) :
  List.filter p (List.filter p l) = List.filter p l.
Proof.
  induction l as [|x l IH]; simpl; [done|].
  destruct (p x) eqn:Hp; simpl; [|done]. by rewrite Hp, IH.
Qed.

Lemma wants_review_mono t t' finding :
  t <= t' -> wants_review t finding = true -> wants_review t' finding = true.
Proof.
  unfold wants_review. intros Hle.
  destruct (ordinal (conf_of finding)) as [level|]; [|done].
  rewrite !Nat.leb_le. lia.
Qed.

(** X7: candidate selection keeps the findings in their order and only
    drops some; selecting again among the selected with the same threshold
    changes nothing; and a higher threshold selects at least what a lower
    one selects, so what low selects medium selects, and what medium
    selects high selects. *)
Theorem select_monotone h findings :
  (forall min_confidence,
     sublist (select_llm_candidates h findings min_confidence) findings
     /\ select_llm_candidates h
          (select_llm_candidates h findings min_confidence) min_confidence
        = select_llm_candidates h findings min_confidence)
  /\ (forall lower higher,
        min_level_of lower <= min_level_of higher ->
        sublist (select_llm_candidates h findings lower)
          (select_llm_candidates h findings higher))
  /\ sublist (select_llm_candidates h findings "low")
       (select_llm_candidates h findings "medium")
  /\ sublist (select_llm_candidates h findings "medium")
       (select_llm_candidates h findings "high").
Proof.
  assert (forall lower higher,
            min_level_of lower <= min_level_of higher ->
            sublist (select_llm_candidates h findings lower)
              (select_llm_candidates h findings higher)) as Hmono.
  { intros lower higher Hle. rewrite !select_llm_candidates_filter.
    apply filter_sublist_mono. intros l. by apply wants_review_mono. }
  split; [|split; [exact Hmono|split; apply Hmono; vm_compute; lia]].
  intros min_confidence. rewrite !select_llm_candidates_filter.
  split; [apply filter_sublist|apply filter_filter_same].
Qed.

(** ** Confidences that are not strings *)

Lemma pretty_N_char_digit x : digit_or_dash (pretty_N_char x) = true.
Proof. unfold pretty_N_char. by repeat case_match. Qed.

Lemma pretty_N_go_digits x : forall s,
  all_chars digit_or_dash s = true ->
  all_chars digit_or_dash (pretty_N_go x s) = true.
Proof.
  induction (N.lt_wf_0 x) as [x _ IH]; intros s Hs.
  assert (x = 0 \/ 0 < x)%N as [->|Hx] by lia.
  - by rewrite pretty_N_go_0.
  - rewrite pretty_N_go_step by done. apply IH; [by apply N.div_lt|].
    by rewrite all_chars_cons, pretty_N_char_digit.
Qed.

Lemma pretty_N_digits (x : N) : all_chars digit_or_dash (pretty x) = true.
Proof.
  unfold pretty, pretty_N. case_decide; [done|]. by apply pretty_N_go_digits.
Qed.

Lemma pretty_Z_digits (x : Z) : all_chars digit_or_dash (pretty x) = true.
Proof.
  destruct x as [|p|p]; [done|apply pretty_N_digits|].
  change (pretty (Z.neg p)) with ("-" +:+ pretty (N.pos p)).
  rewrite all_chars_append, pretty_N_digits. done.
Qed.

Lemma lower_digits s : all_chars digit_or_dash s = true -> Str.lower s = s.
Proof.
  induction s as [|c s IH]; [done|]. rewrite all_chars_cons.
  intros [Hc Hs]%andb_prop. rewrite lower_cons, IH by done. f_equal.
  revert Hc. destruct c as [[] [] [] [] [] [] [] []]; vm_compute; congruence.
Qed.

Lemma ordinal_Some confidence level :
  ordinal confidence = Some level ->
  confidence = "low" \/ confidence = "medium" \/ confidence = "high".
Proof.
  unfold ordinal.
  destruct (String.eqb_spec confidence "low"); [by left|].
  destruct (String.eqb_spec confidence "medium"); [right; by left|].
  destruct (String.eqb_spec confidence "high"); [do 2 right; done|done].
Qed.

Lemma conf_of_not_string finding v :
  finding !! "confidence" = Some v -> (forall s, v <> VStr s) ->
  ordinal (conf_of finding) = None.
Proof.
  intros Hv Hs. unfold conf_of. rewrite Hv. cbn [default].
  destruct v as [| [] |n|s];
    [reflexivity|reflexivity|reflexivity| |by destruct (Hs s)].
  cbn [py_str].
  pose proof (pretty_Z_digits n) as Hdigits.
  rewrite lower_digits by done.
  destruct (ordinal (pretty n)) as [level|] eqn:Hord; [|done].
  apply ordinal_Some in Hord as [H|[H|H]]; rewrite H in Hdigits; done.
Qed.


(** X8: a finding whose confidence is not a string (it is [None], a
    boolean or an integer) is never selected, whatever the threshold. *)
Theorem select_not_string h findings min_confidence l v :
  deref h l !! "confidence" = Some v -> (forall s, v <> VStr s) ->
  l ∉ select_llm_candidates h findings min_confidence.
Proof.
  intros Hv Hs. rewrite elem_of_select. intros [_ (level & Hlevel & _)].
  by rewrite (conf_of_not_string _ v) in Hlevel.
Qed.

Lemma select_not_string_witness :
  2 ∉ select_llm_candidates odd_store [0; 1; 2] "high".
Proof.
  apply (select_not_string odd_store [0; 1; 2] "high" 2 (VInt 2)).
  - reflexivity.
  - discriminate.
Defined.

(** ** Merging twice, in another order, and with repeated ids *)

Lemma lookup_deref (h : store) l : l ∈ dom h -> h !! l = Some (deref h l).
Proof. intros [d Hd]%elem_of_dom. unfold deref. by rewrite Hd. Qed.

Lemma deref_Some (h : store) l d : h !! l = Some d -> deref h l = d.
Proof. unfold deref. by intros ->. Qed.

Lemma store_eq (h h' : store) :
  dom h = dom h' -> (forall l, deref h l = deref h' l) -> h = h'.
Proof.
  intros Hdom Hderef. apply map_eq. intros l.
  destruct (decide (l ∈ dom h)) as [Hl|Hl].
  - rewrite (lookup_deref h), (lookup_deref h'), Hderef by (by rewrite <- ?Hdom).
    done.
  - pose proof Hl as Hl'. rewrite Hdom in Hl'.
    apply not_elem_of_dom in Hl, Hl'. by rewrite Hl, Hl'.
Qed.

(** X9: the merge can be repeated and does not depend on how the findings
    are listed: merging the same verdicts a second time changes nothing,
    and two finding lists with the same members, in any order and with any
    repetitions, give the same store. *)
Theorem merge_repeat_and_order h findings llm_results :
  merge_llm_results (merge_llm_results h findings llm_results).1
    findings llm_results
  = merge_llm_results h findings llm_results
  /\ forall findings',
       (forall l, l ∈ findings <-> l ∈ findings') ->
       (merge_llm_results h findings' llm_results).1
       = (merge_llm_results h findings llm_results).1.
Proof.
  unfold merge_llm_results. cbv zeta. cbn [fst snd]. split.
  - f_equal. apply store_eq; [by rewrite !dom_merge|].
    intros l. rewrite !deref_merge.
    case_decide; [apply merged_idemp|done].
  - intros findings' Hsame. apply store_eq; [by rewrite !dom_merge|].
    intros l. rewrite !deref_merge.
    destruct (decide (l ∈ findings)) as [Hl|Hl].
    + by rewrite decide_True by (by apply Hsame).
    + by rewrite decide_False by (by rewrite <- Hsame).
Qed.

Lemma index_results_last before result after k :
  result_key result = Some k ->
  (forall later, later ∈ after -> result_key later <> Some k) ->
  index_results (before ++ result :: after) !! k = Some result.
Proof.
  intros Hkey Hafter. unfold index_results.
  rewrite fold_left_app. cbn [fold_left].
  rewrite index_from_other by done.
  unfold index_step. rewrite Hkey. apply lookup_insert_eq.
Qed.

(** X10: of several verdicts that carry the id of a finding, the last one
    in the response is merged: its four fields are what the finding
    holds after the merge. *)
Theorem last_verdict_wins h findings before result after l :
  l ∈ findings ->
  get (deref h l) "id" <> VNone ->
  answers (get (deref h l) "id") result ->
  (forall later, later ∈ after -> ~ answers (get (deref h l) "id") later) ->
  deref (merge_llm_results h findings (before ++ result :: after)).1 l
  = attach result (deref h l).
Proof.
  intros Hl Hid Hanswers Hafter. unfold merge_llm_results. cbv zeta.
  cbn [fst]. rewrite deref_merge, decide_True by done.
  apply merged_answer; [done|]. by apply index_results_last.
Qed.

Lemma last_verdict_wins_witness :
  deref (merge_llm_results reviewed_store [0] ([verdict_yes] ++ verdict_no :: [])).1 0
  = attach verdict_no (deref reviewed_store 0).
Proof.
  apply (last_verdict_wins reviewed_store [0] [verdict_yes] verdict_no [] 0).
  - by left.
  - discriminate.
  - reflexivity.
  - intros later Hlater. by apply elem_of_nil in Hlater.
Defined.

(** ** From the scan to the merged verdicts *)

Lemma alloc_lookup_from findings : forall start i : nat,
  (list_to_map (Str.enumerate start findings) : store) !! i
  = if Nat.leb start i then findings !! (i - start) else None.
Proof.
  induction findings as [|f rest IH]; intros start i.
  - cbn [Str.enumerate list_to_map foldr]. rewrite lookup_empty.
    by destruct (Nat.leb start i).
  - cbn [Str.enumerate list_to_map foldr fst snd].
    destruct (decide (start = i)) as [->|Hne].
    + by rewrite lookup_insert_eq, Nat.leb_refl, Nat.sub_diag.
    + rewrite lookup_insert_ne by done.
      change (foldr _ _ _) with
        (list_to_map (Str.enumerate (S start) rest) : store).
      rewrite IH. destruct (Nat.leb_spec start i) as [Hle|Hgt].
      * replace (Nat.leb (S start) i) with true
          by (symmetry; apply Nat.leb_le; lia).
        by replace (i - start) with (S (i - S start)) by lia.
      * by replace (Nat.leb (S start) i) with false
          by (symmetry; apply Nat.leb_gt; lia).
Qed.

Lemma alloc_lookup findings (i : nat) : alloc findings !! i = findings !! i.
Proof. unfold alloc. by rewrite alloc_lookup_from, Nat.sub_0_r. Qed.

Lemma elem_of_refs findings i f : findings !! i = Some f -> i ∈ refs findings.
Proof.
  intros Hi. unfold refs. apply elem_of_seq.
  apply lookup_lt_Some in Hi. lia.
Qed.

Lemma NoDup_filter_list {A} (p : A -> bool) (l : list A) :
  NoDup l -> NoDup (List.filter p l).
Proof. intros H. by apply (sublist_NoDup _ _ H), filter_sublist. Qed.

Lemma result_key_model_dump d : result_key (model_dump d) = Some (Some (inr (id d))).
Proof. unfold result_key, get, model_dump. by simplify_map_eq. Qed.

Lemma result_keys_model_dump decisions :
  result_keys (model_dump <$> decisions)
  = (fun d => Some (inr (id d))) <$> decisions.
Proof.
  unfold result_keys. induction decisions as [|d rest IH]; [done|].
  rewrite !fmap_cons. cbn [omap list_omap]. rewrite result_key_model_dump.
  f_equal. exact IH.
Qed.

Lemma index_model_dump decisions rid :
  NoDup (id <$> decisions) ->
  index_results (model_dump <$> decisions) !! Some (inr rid)
  = model_dump <$> List.find (fun d => String.eqb (id d) rid) decisions.
Proof.
  intros Hnodup.
  destruct (List.find _ decisions) as [d|] eqn:Hfind.
  - apply find_some in Hfind as [Hin Heq]. apply String.eqb_eq in Heq.
    apply index_from_NoDup.
    + rewrite result_keys_model_dump.
      replace ((fun d => Some (inr (id d))) <$> decisions)
        with ((fun s : string => Some (inr s) : option (Z + string))
                <$> (id <$> decisions))
        by (by rewrite <- list_fmap_compose).
      apply NoDup_fmap_2; [|done]. by intros s s' [= ->].
    + apply list_elem_of_fmap. exists d. split; [done|].
      by apply list_elem_of_In.
    + by rewrite result_key_model_dump, Heq.
  - destruct (index_results _ !! _) as [result|] eqn:Hidx; [|done].
    apply index_results_Some in Hidx as [Hin Hkey].
    apply list_elem_of_fmap in Hin as (d & -> & Hd).
    rewrite result_key_model_dump in Hkey. injection Hkey as Hkey.
    apply list_elem_of_In in Hd.
    pose proof (find_none _ _ Hfind d Hd) as Hne. simpl in Hne.
    apply String.eqb_neq in Hne. done.
Qed.

(** X11: from the scan to the merged verdicts.  The findings of a scan,
    which carry no id, are selected, numbered and merged with the verdicts
    of a response in which no id occurs twice.  A finding that was not
    selected is left as the scan made it; the k-th selected finding gets
    the id fk, and the four verdict fields of the decision with that id,
    if the response has one. *)
Theorem review_round_trip findings min_confidence decisions :
  Forall (fun f : dict => f !! "id" = None) findings ->
  NoDup (id <$> decisions) ->
  forall i f,
    findings !! i = Some f ->
    let h := alloc findings in
    let candidates := select_llm_candidates h (refs findings) min_confidence in
    let h1 := (build_llm_payload h candidates).1 in
    let h2 :=
      (merge_llm_results h1 (refs findings) (model_dump <$> decisions)).1 in
    (i ∉ candidates -> h2 !! i = Some f)
    /\ forall k,
         candidates !! k = Some i ->
         let stamped := <["id" := VStr (review_id (S k))]> f in
         (forall d, d ∈ decisions -> id d = review_id (S k) ->
                    h2 !! i = Some (attach (model_dump d) stamped))
         /\ ((forall d, d ∈ decisions -> id d <> review_id (S k)) ->
             h2 !! i = Some stamped).
Proof.
  intros Hids Hnodup i f Hi h candidates h1 h2.
  assert (deref h i = f) as Hderef
    by (unfold deref, h; by rewrite alloc_lookup, Hi).
  assert (NoDup candidates) as Hcands.
  { unfold candidates. rewrite select_llm_candidates_filter.
    apply NoDup_filter_list, NoDup_seq. }
  assert (get f "id" = VNone) as Hnoid.
  { rewrite Forall_forall in Hids. unfold get.
    rewrite (Hids f); [done|]. by eapply list_elem_of_lookup_2. }
  assert (forall d, h1 !! i <> None -> deref h2 i = d -> h2 !! i = Some d)
    as Hlookup.
  { intros d Hsome <-. apply lookup_deref.
    unfold h2, merge_llm_results. cbv zeta. cbn [fst]. rewrite dom_merge.
    apply elem_of_dom. by destruct (h1 !! i) eqn:Hd. }
  assert (forall d, deref h2 i = d <->
                    merged (index_results (model_dump <$> decisions))
                      (deref h1 i) = d) as Hmerged.
  { intros d. unfold h2, merge_llm_results. cbv zeta. cbn [fst].
    by rewrite deref_merge, decide_True by (by eapply elem_of_refs). }
  unfold h1 in *. rewrite build_llm_payload_eq in *. cbn [fst] in *.
  split.
  - intros Hnot. apply Hlookup.
    { rewrite stamp_other by done. unfold h. by rewrite alloc_lookup, Hi. }
    apply Hmerged. unfold deref.
    rewrite stamp_other by done. fold (deref h i). rewrite Hderef.
    by apply merged_no_id.
  - intros k Hk. cbv zeta.
    set (stamped := <["id" := VStr (review_id (S k))]> f).
    assert (stamp 1 candidates h !! i = Some stamped) as Hstamp.
    { assert (forall j, k < j -> candidates !! j <> Some i) as Hlast.
      { intros j Hj Hj'. pose proof (NoDup_lookup _ _ _ _ Hcands Hk Hj'). lia. }
      pose proof (stamp_last candidates 1 h k i Hk Hlast) as Hs.
      rewrite Hderef in Hs. exact Hs. }
    assert (deref (stamp 1 candidates h) i = stamped) as Hstamped
      by (by apply deref_Some).
    assert (get stamped "id" = VStr (review_id (S k))) as Hid
      by (unfold get, stamped; by rewrite lookup_insert_eq).
    split.
    + intros d Hd Hrid. apply Hlookup; [by rewrite Hstamp|].
      apply Hmerged. rewrite Hstamped.
      apply merged_answer; [by rewrite Hid|]. rewrite Hid. cbn [hkey].
      rewrite index_model_dump by done.
      destruct (List.find _ decisions) as [d'|] eqn:Hfind.
      * apply find_some in Hfind as [Hin Heq]. apply String.eqb_eq in Heq.
        apply list_elem_of_In in Hin.
        assert (d' = d) as ->; [|done].
        apply list_elem_of_lookup in Hin as [a Ha], Hd as [b Hb].
        assert (a = b) as ->; [|congruence].
        apply (NoDup_lookup (id <$> decisions) a b (review_id (S k)));
          [done|..]; rewrite list_lookup_fmap.
        -- rewrite Ha. simpl. by rewrite Heq.
        -- rewrite Hb. simpl. by rewrite Hrid.
      * apply list_elem_of_In in Hd.
        pose proof (find_none _ _ Hfind d Hd) as Hne. simpl in Hne.
        apply String.eqb_neq in Hne. done.
    + intros Hnone. apply Hlookup; [by rewrite Hstamp|].
      apply Hmerged. rewrite Hstamped. apply merged_no_answer.
      rewrite Hid. cbn [hkey]. rewrite index_model_dump by done.
      destruct (List.find _ decisions) as [d'|] eqn:Hfind; [|done].
      apply find_some in Hfind as [Hin Heq]. apply String.eqb_eq in Heq.
      apply list_elem_of_In in Hin. by destruct (Hnone d' Hin).
Qed.


Lemma review_round_trip_witness :
  (merge_llm_results
     (build_llm_payload (alloc scanned_findings)
        (select_llm_candidates (alloc scanned_findings)
           (refs scanned_findings) "medium")).1
     (refs scanned_findings) (model_dump <$> [first_decision])).1 !! 0
  = Some (attach (model_dump first_decision)
            (<["id" := VStr (review_id 1)]>
               (list_to_map [("snippet", VStr "pwd = 'aaaa'");
                             ("confidence", VStr "low")]))).
Proof.
  destruct (review_round_trip scanned_findings "medium" [first_decision])
    with (i := 0)
         (f := (list_to_map [("snippet", VStr "pwd = 'aaaa'");
                             ("confidence", VStr "low")] : dict))
    as [_ H].
  - repeat constructor.
  - apply NoDup_singleton.
  - reflexivity.
  - destruct (H 0) as [Hd _]; [vm_compute; reflexivity|].
    apply (Hd first_decision); [by left|reflexivity].
Defined.

(** ** The runs of git_utils.py *)

Lemma bind_ret_l {A B} (a : A) (k : A -> M B) (t : list event) (r : exn + B) :
  k a = (t, r) -> bind (ret a) k = (t, r).
Proof. unfold bind, ret. by intros ->. Qed.

Lemma check_run_ok w cmd cwd :
  succeeds w cmd cwd ->
  check_run w cmd cwd = ([Ran cmd cwd], inr (stdout (subprocess_run w cmd cwd))).
Proof. unfold succeeds, check_run. intros ->. reflexivity. Qed.

Lemma check_run_failed w cmd cwd :
  ~ succeeds w cmd cwd ->
  check_run w cmd cwd
  = ([Ran cmd cwd],
     inl (CalledProcessError cmd (returncode (subprocess_run w cmd cwd)))).
Proof.
  unfold succeeds, check_run. intros H%Z.eqb_neq. unfold bind, emit.
  by rewrite H.
Qed.

Lemma succeeds_dec w cmd cwd : {succeeds w cmd cwd} + {~ succeeds w cmd cwd}.
Proof. unfold succeeds. apply Z.eq_dec. Qed.

Lemma analyze_commit_ok w repo_path acc commit_hash :
  succeeds w (patch_cmd commit_hash) (Some repo_path) ->
  succeeds w (message_cmd commit_hash) (Some repo_path) ->
  analyze_commit w repo_path acc commit_hash
  = (commit_trace repo_path commit_hash,
     inr (acc ++ commit_findings w repo_path commit_hash)).
Proof.
  intros Hpatch Hmessage.
  unfold analyze_commit, get_commit_diff, get_commit_message.
  fold (patch_cmd commit_hash). fold (message_cmd commit_hash).
  rewrite !check_run_ok by done. unfold commit_findings.
  cbn. by rewrite <- app_assoc.
Qed.

Lemma analyze_commit_failed w repo_path acc commit_hash :
  ~ (succeeds w (patch_cmd commit_hash) (Some repo_path)
     /\ succeeds w (message_cmd commit_hash) (Some repo_path)) ->
  exists t cmd code,
    analyze_commit w repo_path acc commit_hash
    = (t ++ [Ran cmd (Some repo_path)], inl (CalledProcessError cmd code))
    /\ code <> 0%Z /\ code = returncode (subprocess_run w cmd (Some repo_path))
    /\ (cmd = patch_cmd commit_hash \/ cmd = message_cmd commit_hash)
    /\ Forall (fun ev => git_in repo_path ev = true) t.
Proof.
  intros Hfail.
  unfold analyze_commit, get_commit_diff, get_commit_message.
  fold (patch_cmd commit_hash). fold (message_cmd commit_hash).
  destruct (succeeds_dec w (patch_cmd commit_hash) (Some repo_path)) as [Hp|Hp].
  - assert (~ succeeds w (message_cmd commit_hash) (Some repo_path)) as Hm
      by tauto.
    rewrite check_run_ok, check_run_failed by done.
    exists [Ran (patch_cmd commit_hash) (Some repo_path)],
      (message_cmd commit_hash),
      (returncode (subprocess_run w (message_cmd commit_hash) (Some repo_path))).
    split; [reflexivity|]. split; [done|]. split; [done|]. split; [by right|].
    constructor; [apply String.eqb_refl|constructor].
  - rewrite check_run_failed by done.
    exists [], (patch_cmd commit_hash),
      (returncode (subprocess_run w (patch_cmd commit_hash) (Some repo_path))).
    split; [reflexivity|]. split; [done|]. split; [done|]. split; [by left|].
    constructor.
Qed.

Lemma analyze_commits_ok w repo_path hashes : forall acc,
  Forall (fun h => succeeds w (patch_cmd h) (Some repo_path)
                   /\ succeeds w (message_cmd h) (Some repo_path)) hashes ->
  analyze_commits w repo_path hashes acc
  = (flat_map (commit_trace repo_path) hashes,
     inr (acc ++ flat_map (commit_findings w repo_path) hashes)).
Proof.
  induction hashes as [|h rest IH]; intros acc Hok.
  - simpl. by rewrite app_nil_r.
  - apply Forall_cons in Hok as [[Hp Hm] Hrest].
    cbn [analyze_commits flat_map]. rewrite analyze_commit_ok by done.
    unfold bind. rewrite IH by done. by rewrite <- app_assoc.
Qed.

Lemma analyze_commits_failed w repo_path hashes : forall acc,
  ~ Forall (fun h => succeeds w (patch_cmd h) (Some repo_path)
                     /\ succeeds w (message_cmd h) (Some repo_path)) hashes ->
  exists t cmd code commit_hash,
    analyze_commits w repo_path hashes acc
    = (t ++ [Ran cmd (Some repo_path)], inl (CalledProcessError cmd code))
    /\ code <> 0%Z /\ code = returncode (subprocess_run w cmd (Some repo_path))
    /\ commit_hash ∈ hashes
    /\ (cmd = patch_cmd commit_hash \/ cmd = message_cmd commit_hash)
    /\ Forall (fun ev => git_in repo_path ev = true) t.
Proof.
  induction hashes as [|h rest IH]; intros acc Hfail.
  - destruct Hfail. constructor.
  - cbn [analyze_commits].
    destruct (succeeds_dec w (patch_cmd h) (Some repo_path)) as [Hp|Hp];
      [destruct (succeeds_dec w (message_cmd h) (Some repo_path)) as [Hm|Hm]|].
    + rewrite analyze_commit_ok by done. unfold bind.
      destruct (IH (acc ++ commit_findings w repo_path h))
        as (t & cmd & code & c & -> & Hcode & Hrun & Hc & Hcmd & Ht).
      { intros Hrest. apply Hfail. by constructor. }
      exists (commit_trace repo_path h ++ t), cmd, code, c.
      split; [by rewrite <- app_assoc|]. split; [done|]. split; [done|].
      split; [by right|]. split; [done|].
      apply Forall_app. split; [|done].
      repeat constructor; apply String.eqb_refl.
    + destruct (analyze_commit_failed w repo_path acc h)
        as (t & cmd & code & -> & Hcode & Hrun & Hcmd & Ht); [tauto|].
      exists t, cmd, code, h. unfold bind.
      split; [done|]. split; [done|]. split; [done|]. split; [by left|done].
    + destruct (analyze_commit_failed w repo_path acc h)
        as (t & cmd & code & -> & Hcode & Hrun & Hcmd & Ht); [tauto|].
      exists t, cmd, code, h. unfold bind.
      split; [done|]. split; [done|]. split; [done|]. split; [by left|done].
Qed.

Lemma ensure_valid_repo_ok w repo_path :
  valid_repo w repo_path = true -> ensure_valid_repo w repo_path = ([], inr tt).
Proof.
  unfold valid_repo, ensure_valid_repo. intros [-> ->]%andb_prop. done.
Qed.

Lemma ensure_valid_repo_failed w repo_path :
  valid_repo w repo_path = false ->
  exists msg, ensure_valid_repo w repo_path = ([], inl (ValueError msg)).
Proof.
  unfold valid_repo, ensure_valid_repo. intros H.
  destruct (isdir w repo_path); [|by eexists].
  simpl in H. rewrite H. by eexists.
Qed.


Lemma get_last_n_commit_hashes_ok w repo_path n :
  (0 < n)%Z -> succeeds w (log_cmd n) (Some repo_path) ->
  get_last_n_commit_hashes w repo_path n
  = ([Ran (log_cmd n) (Some repo_path)], inr (listed_hashes w repo_path n)).
Proof.
  intros Hn Hlog. unfold get_last_n_commit_hashes.
  replace (n <=? 0)%Z with false by (symmetry; apply Z.leb_gt; lia).
  fold (log_cmd n). by rewrite check_run_ok.
Qed.

Lemma get_last_n_commit_hashes_failed w repo_path n :
  (0 < n)%Z -> ~ succeeds w (log_cmd n) (Some repo_path) ->
  get_last_n_commit_hashes w repo_path n
  = ([Ran (log_cmd n) (Some repo_path)],
     inl (CalledProcessError (log_cmd n)
            (returncode (subprocess_run w (log_cmd n) (Some repo_path))))).
Proof.
  intros Hn Hlog. unfold get_last_n_commit_hashes.
  replace (n <=? 0)%Z with false by (symmetry; apply Z.leb_gt; lia).
  fold (log_cmd n). by rewrite check_run_failed.
Qed.

Lemma analyze_invalid w repo_path n :
  valid_repo w repo_path = false ->
  analyze_last_n_commits w repo_path n
  = ([], inl (ValueError
                ((if isdir w repo_path
                  then "Path is not a git repository (no .git folder found): "
                  else "Repository path does not exist or is not a directory: ")
                 +:+ repo_path))).
Proof.
  unfold analyze_last_n_commits, valid_repo, ensure_valid_repo.
  intros Hvalid. destruct (isdir w repo_path); [|done].
  simpl in Hvalid. by rewrite Hvalid.
Qed.

Lemma analyze_nothing w repo_path n :
  valid_repo w repo_path = true -> (n <= 0)%Z ->
  analyze_last_n_commits w repo_path n = ([], inr []).
Proof.
  unfold analyze_last_n_commits, valid_repo, ensure_valid_repo.
  intros [-> ->]%andb_prop Hn%Z.leb_le. cbn. by rewrite Hn.
Qed.

(** X12: [analyze_last_n_commits] checks the repository before anything
    else.  When the path is not a directory, or has no [.git] directory,
    it raises ValueError without running a single command, also when the
    number of commits asked for is zero or negative; for a valid
    repository and such a number it returns no finding and runs nothing. *)
Theorem analyze_checks_repository_first w repo_path n :
  (valid_repo w repo_path = false ->
   analyze_last_n_commits w repo_path n
   = ([], inl (ValueError
                 ((if isdir w repo_path
                   then "Path is not a git repository (no .git folder found): "
                   else "Repository path does not exist or is not a directory: ")
                  +:+ repo_path))))
  /\ (valid_repo w repo_path = true -> (n <= 0)%Z ->
      analyze_last_n_commits w repo_path n = ([], inr [])).
Proof. split; [apply analyze_invalid|apply analyze_nothing]. Qed.

Lemma elem_of_commit_findings w repo_path commit_hash f :
  f ∈ commit_findings w repo_path commit_hash ->
  (f !! "commit_hash" = Some (VStr commit_hash)
   /\ f !! "file_path" <> Some (VStr EmptyString))
  \/ (f !! "commit_hash" = Some (VStr (or_else (Some commit_hash) "unknown"))
      /\ f !! "file_path" = Some (VStr "COMMIT_MESSAGE")).
Proof.
  unfold commit_findings. intros [Hf|Hf]%elem_of_app.
  - left. rewrite scan_diff_for_passwords_eq in Hf.
    apply elem_of_diff_findings
      in Hf as (file & m & line & code & regex & pn & ft & _ & _ & _ & ->).
    pose proof (diff_finding_fields commit_hash file m code pn ft) as H.
    cbv zeta in H. destruct H as (Hhash & Hfile & _).
    split; [done|]. rewrite Hfile. intros [= H].
    by apply (or_else_nonempty file "unknown").
  - right. rewrite scan_text_for_passwords_eq in Hf.
    apply elem_of_text_findings
      in Hf as (m & line & regex & pn & ft & _ & _ & ->).
    pose proof (text_finding_fields (Some commit_hash) "COMMIT_MESSAGE" m
                  (Str.rstrip_nl line) pn ft) as H.
    cbv zeta in H. by destruct H as (Hhash & Hfile & _).
Qed.

Lemma analyze_run_ok w repo_path n :
  valid_repo w repo_path = true -> (0 < n)%Z ->
  succeeds w (log_cmd n) (Some repo_path) ->
  Forall (fun h => succeeds w (patch_cmd h) (Some repo_path)
                   /\ succeeds w (message_cmd h) (Some repo_path))
    (listed_hashes w repo_path n) ->
  analyze_last_n_commits w repo_path n
  = (Ran (log_cmd n) (Some repo_path)
       :: flat_map (commit_trace repo_path) (listed_hashes w repo_path n),
     inr (flat_map (commit_findings w repo_path) (listed_hashes w repo_path n))).
Proof.
  intros Hvalid Hn Hlog Hok. unfold analyze_last_n_commits.
  rewrite ensure_valid_repo_ok by done. cbn [bind ret app].
  replace (n <=? 0)%Z with false by (symmetry; apply Z.leb_gt; lia).
  rewrite get_last_n_commit_hashes_ok by done. cbn [bind].
  by rewrite analyze_commits_ok.
Qed.

Lemma analyze_run_failed w repo_path n :
  valid_repo w repo_path = true -> (0 < n)%Z ->
  ~ (succeeds w (log_cmd n) (Some repo_path)
     /\ Forall (fun h => succeeds w (patch_cmd h) (Some repo_path)
                         /\ succeeds w (message_cmd h) (Some repo_path))
          (listed_hashes w repo_path n)) ->
  exists t cmd,
    analyze_last_n_commits w repo_path n
    = (t ++ [Ran cmd (Some repo_path)],
       inl (CalledProcessError cmd
              (returncode (subprocess_run w cmd (Some repo_path)))))
    /\ ~ succeeds w cmd (Some repo_path)
    /\ (cmd = log_cmd n
        \/ exists commit_hash,
             commit_hash ∈ listed_hashes w repo_path n
             /\ (cmd = patch_cmd commit_hash \/ cmd = message_cmd commit_hash))
    /\ Forall (fun ev => git_in repo_path ev = true) t.
Proof.
  intros Hvalid Hn Hfail. unfold analyze_last_n_commits.
  rewrite ensure_valid_repo_ok by done. cbn [bind ret app].
  replace (n <=? 0)%Z with false by (symmetry; apply Z.leb_gt; lia).
  destruct (succeeds_dec w (log_cmd n) (Some repo_path)) as [Hlog|Hlog].
  - rewrite get_last_n_commit_hashes_ok by done. cbn [bind].
    destruct (analyze_commits_failed w repo_path (listed_hashes w repo_path n) [])
      as (t & cmd & code & c & -> & Hcode & -> & Hc & Hcmd & Ht); [tauto|].
    exists (Ran (log_cmd n) (Some repo_path) :: t), cmd.
    split; [done|]. split; [done|]. split; [right; by exists c|].
    constructor; [apply String.eqb_refl|done].
  - rewrite get_last_n_commit_hashes_failed by done. cbn [bind].
    exists [], (log_cmd n).
    split; [done|]. split; [done|]. split; [by left|constructor].
Qed.

(** X13: when the repository is valid, the number of commits positive and
    every git command succeeds, [analyze_last_n_commits] runs [git log]
    once and then, for each listed commit in order, [git show] for the
    patch and [git show] for the message; its findings are, commit by
    commit, those of the diff followed by those of the message.  Every
    finding carries the hash of its commit, except that a message finding
    of an empty hash line says [unknown], and the message findings have
    the file path COMMIT_MESSAGE. *)
Theorem analyze_last_n_commits_success w repo_path n :
  valid_repo w repo_path = true -> (0 < n)%Z ->
  succeeds w (log_cmd n) (Some repo_path) ->
  Forall (fun h => succeeds w (patch_cmd h) (Some repo_path)
                   /\ succeeds w (message_cmd h) (Some repo_path))
    (listed_hashes w repo_path n) ->
  analyze_last_n_commits w repo_path n
  = (Ran (log_cmd n) (Some repo_path)
       :: flat_map (commit_trace repo_path) (listed_hashes w repo_path n),
     inr (flat_map (commit_findings w repo_path) (listed_hashes w repo_path n)))
  /\ forall f,
       f ∈ flat_map (commit_findings w repo_path) (listed_hashes w repo_path n) ->
       exists commit_hash,
         commit_hash ∈ listed_hashes w repo_path n
         /\ ((f !! "commit_hash" = Some (VStr commit_hash)
              /\ f !! "file_path" <> Some (VStr EmptyString))
             \/ (f !! "commit_hash"
                 = Some (VStr (or_else (Some commit_hash) "unknown"))
                 /\ f !! "file_path" = Some (VStr "COMMIT_MESSAGE"))).
Proof.
  intros Hvalid Hn Hlog Hok. split; [by apply analyze_run_ok|].
  intros f Hf. apply list_elem_of_In, in_flat_map in Hf as (h & Hh & Hf).
  exists h. split; [by apply list_elem_of_In|].
  apply (elem_of_commit_findings w repo_path). by apply list_elem_of_In.
Qed.

Lemma analyze_last_n_commits_success_witness :
  (analyze_last_n_commits (local_world 0) "/repo" 1).1
  = [Ran (log_cmd 1) (Some "/repo"); Ran (patch_cmd "c0ffee") (Some "/repo");
     Ran (message_cmd "c0ffee") (Some "/repo")].
Proof.
  destruct (analyze_last_n_commits_success (local_world 0) "/repo" 1)
    as [-> _]; [reflexivity|lia|reflexivity| |reflexivity].
  vm_compute. repeat constructor.
Defined.

(** X14: when a git command fails, [analyze_last_n_commits] stops at it:
    it raises CalledProcessError for that command with its exit status,
    the command is the last thing it ran, all it ran before are git
    commands, and no finding of the commits scanned before is returned.
    The command is [git log], or [git show] for a listed commit. *)
Theorem analyze_last_n_commits_failure w repo_path n :
  valid_repo w repo_path = true -> (0 < n)%Z ->
  ~ (succeeds w (log_cmd n) (Some repo_path)
     /\ Forall (fun h => succeeds w (patch_cmd h) (Some repo_path)
                         /\ succeeds w (message_cmd h) (Some repo_path))
          (listed_hashes w repo_path n)) ->
  exists t cmd,
    analyze_last_n_commits w repo_path n
    = (t ++ [Ran cmd (Some repo_path)],
       inl (CalledProcessError cmd
              (returncode (subprocess_run w cmd (Some repo_path)))))
    /\ ~ succeeds w cmd (Some repo_path)
    /\ (cmd = log_cmd n
        \/ exists commit_hash,
             commit_hash ∈ listed_hashes w repo_path n
             /\ (cmd = patch_cmd commit_hash \/ cmd = message_cmd commit_hash))
    /\ Forall (fun ev => git_in repo_path ev = true) t.
Proof. apply analyze_run_failed. Qed.

Lemma analyze_last_n_commits_failure_witness :
  exists t cmd,
    analyze_last_n_commits (local_world 128) "/repo" 1
    = (t ++ [Ran cmd (Some "/repo")],
       inl (CalledProcessError cmd
              (returncode (subprocess_run (local_world 128) cmd (Some "/repo"))))).
Proof.
  destruct (analyze_last_n_commits_failure (local_world 128) "/repo" 1)
    as (t & cmd & H & _); [reflexivity|lia| |by exists t, cmd].
  intros [H _]. vm_compute in H. discriminate.
Defined.


(** ** The last commit *)

Lemma get_last_commit_hash_ok w repo_path :
  succeeds w last_cmd (Some repo_path) ->
  get_last_commit_hash w repo_path
  = ([Ran last_cmd (Some repo_path)], inr (last_hash w repo_path)).
Proof.
  intros Hlog. unfold get_last_commit_hash. fold last_cmd.
  by rewrite check_run_ok.
Qed.

(** X24: [analyze_last_commit] and the first commit of
    [analyze_last_n_commits].  When [git log -1] and [git show] succeed,
    [analyze_last_commit] runs these two commands and returns the findings
    of the diff of the commit, under its hash; it does not check the
    repository and does not read the commit message.  When [git log -n 1]
    lists the same commit, [analyze_last_n_commits] with one commit returns
    these findings followed by those of the commit message. *)
Theorem last_commit_findings w repo_path :
  succeeds w last_cmd (Some repo_path) ->
  succeeds w (patch_cmd (last_hash w repo_path)) (Some repo_path) ->
  analyze_last_commit w repo_path
  = ([Ran last_cmd (Some repo_path);
      Ran (patch_cmd (last_hash w repo_path)) (Some repo_path)],
     inr (scan_diff_for_passwords
            (stdout (subprocess_run w (patch_cmd (last_hash w repo_path))
                       (Some repo_path)))
            (last_hash w repo_path)))
  /\ (valid_repo w repo_path = true ->
      succeeds w (log_cmd 1) (Some repo_path) ->
      listed_hashes w repo_path 1 = [last_hash w repo_path] ->
      succeeds w (message_cmd (last_hash w repo_path)) (Some repo_path) ->
      exists findings,
        (analyze_last_commit w repo_path).2 = inr findings
        /\ (analyze_last_n_commits w repo_path 1).2
           = inr (findings
                  ++ scan_text_for_passwords
                       (Str.strip
                          (stdout (subprocess_run w
                                     (message_cmd (last_hash w repo_path))
                                     (Some repo_path))))
                       "COMMIT_MESSAGE" (Some (last_hash w repo_path)))).
Proof.
  intros Hlog Hpatch.
  assert (analyze_last_commit w repo_path
          = ([Ran last_cmd (Some repo_path);
              Ran (patch_cmd (last_hash w repo_path)) (Some repo_path)],
             inr (scan_diff_for_passwords
                    (stdout (subprocess_run w (patch_cmd (last_hash w repo_path))
                               (Some repo_path)))
                    (last_hash w repo_path)))) as Hlast.
  { unfold analyze_last_commit, get_last_commit_diff.
    rewrite get_last_commit_hash_ok by done. cbn [bind].
    unfold get_commit_diff. fold (patch_cmd (last_hash w repo_path)).
    by rewrite check_run_ok. }
  split; [done|]. intros Hvalid Hlogn Hsame Hmessage.
  eexists. split; [by rewrite Hlast|].
  rewrite analyze_run_ok; [|done|lia|done|rewrite Hsame; by repeat constructor].
  rewrite Hsame. cbn [snd flat_map]. by rewrite app_nil_r.
Qed.

Lemma last_commit_findings_witness :
  (analyze_last_commit (local_world 0) "/repo").1
  = [Ran last_cmd (Some "/repo"); Ran (patch_cmd "c0ffee") (Some "/repo")].
Proof.
  destruct (last_commit_findings (local_world 0) "/repo") as [-> _];
    reflexivity.
Defined.


(** ** The runs of [main] *)

Lemma prepare_repo_cases w repo :
  (isdir w repo = true /\ prepare_repo w repo = ([], inr (repo, None)))
  \/ (cloned w repo
      /\ prepare_repo w repo
         = ([TempDir (temp_name w); Ran (clone_cmd repo (temp_name w)) None],
            inr (temp_name w, Some (temp_name w))))
  \/ (isdir w repo = false /\ is_repo_url repo = true
      /\ ~ succeeds w (clone_cmd repo (temp_name w)) None
      /\ prepare_repo w repo
         = ([TempDir (temp_name w); Ran (clone_cmd repo (temp_name w)) None],
            inl (RuntimeError
                   ("failed to clone repo: " +:+ repo +:+ newline
                    +:+ stderr (subprocess_run w (clone_cmd repo (temp_name w))
                                  None)))))
  \/ (isdir w repo = false /\ is_repo_url repo = false
      /\ prepare_repo w repo
         = ([], inl (ValueError
                       ("'" +:+ repo
                        +:+ "' is neither an existing directory nor a supported URL")))).
Proof.
  unfold prepare_repo, cloned, succeeds. fold (clone_cmd repo (temp_name w)).
  destruct (isdir w repo); [by left|]. right.
  destruct (is_repo_url repo); [|by right; right].
  cbn [emit bind ret raise app].
  destruct (Z.eqb_spec
              (returncode (subprocess_run w (clone_cmd repo (temp_name w)) None)) 0)
    as [Hok|Hfail].
  - left. by rewrite Hok.
  - right. left. done.
Qed.

Lemma all_succeed_dec w repo_path hashes :
  {Forall (fun h => succeeds w (patch_cmd h) (Some repo_path)
                    /\ succeeds w (message_cmd h) (Some repo_path)) hashes}
  + {~ Forall (fun h => succeeds w (patch_cmd h) (Some repo_path)
                        /\ succeeds w (message_cmd h) (Some repo_path)) hashes}.
Proof.
  apply Forall_dec. intros h.
  destruct (succeeds_dec w (patch_cmd h) (Some repo_path));
    destruct (succeeds_dec w (message_cmd h) (Some repo_path));
    [left|right|right|right]; tauto.
Qed.

Lemma commit_trace_git repo_path hashes :
  Forall (fun ev => git_in repo_path ev = true) (flat_map (commit_trace repo_path) hashes).
Proof.
  induction hashes; simpl; repeat constructor; try apply String.eqb_refl.
  done.
Qed.

(** What [analyze_last_n_commits] does is running git, and what it raises
    is ValueError or CalledProcessError. *)
Lemma analyze_cases w repo_path n :
  exists t r,
    analyze_last_n_commits w repo_path n = (t, r)
    /\ Forall (fun ev => git_in repo_path ev = true) t
    /\ match r with
       | inl (ValueError _) | inl (CalledProcessError _ _) | inr _ => True
       | inl _ => False
       end.
Proof.
  destruct (valid_repo w repo_path) eqn:Hvalid.
  - destruct (Z.leb_spec n 0) as [Hn|Hn].
    { exists [], (inr []). by rewrite analyze_nothing. }
    destruct (succeeds_dec w (log_cmd n) (Some repo_path)) as [Hlog|Hlog];
      [destruct (all_succeed_dec w repo_path (listed_hashes w repo_path n))
        as [Hall|Hall]|].
    + eexists _, _. split; [by apply analyze_run_ok|]. split; [|done].
      constructor; [apply String.eqb_refl|apply commit_trace_git].
    + destruct (analyze_run_failed w repo_path n)
        as (t & cmd & -> & _ & Hcmd & Ht); [done|done|tauto|].
      eexists _, _. split; [done|]. split; [|done].
      apply Forall_app. split; [done|]. constructor; [|done].
      destruct Hcmd as [->|(c & _ & [->| ->])]; apply String.eqb_refl.
    + destruct (analyze_run_failed w repo_path n)
        as (t & cmd & -> & _ & Hcmd & Ht); [done|done|tauto|].
      eexists _, _. split; [done|]. split; [|done].
      apply Forall_app. split; [done|]. constructor; [|done].
      destruct Hcmd as [->|(c & _ & [->| ->])]; apply String.eqb_refl.
  - eexists _, _. split; [by apply analyze_invalid|]. done.
Qed.

Lemma review_cases w args findings :
  (findings = []
   /\ review_and_report w args findings
      = ([Wrote (out args) (empty_report args);
          Printed false (Line ("Wrote report to " +:+ out args
                               +:+ " (no findings, LLM not called)"))],
         inr tt))
  \/ (findings <> [] /\ payload_of findings (min_confidence args) = []
      /\ review_and_report w args findings = ([], inr tt))
  \/ (findings <> [] /\ payload_of findings (min_confidence args) <> []
      /\ exists r,
           review_and_report w args findings
           = ([ClassifierCall (model_name w args)
                 (payload_of findings (min_confidence args))], r)
           /\ (r = inr tt \/ r = inl ClassifierError)).
Proof.
  unfold review_and_report, payload_of. rewrite build_llm_payload_eq.
  cbn [snd]. destruct findings as [|f rest].
  - left. split; [done|]. reflexivity.
  - right.
    destruct (payload_items 1
                (select_llm_candidates (alloc (f :: rest)) (refs (f :: rest))
                   (min_confidence args)) (alloc (f :: rest)))
      as [|item items] eqn:Hpayload.
    + left. done.
    + right. split; [done|]. split; [done|].
      unfold call_openai_llm. cbv zeta. fold (model_name w args).
      destruct (responses_parse w (model_name w args) (item :: items));
        eexists; (split; [reflexivity|]); auto.
Qed.

(** How [prepare_repo] got the repository [repo_path]: the directory as it
    is, with nothing done, or the clone in the temporary directory. *)
Lemma prepare_repo_ok w repo t repo_path tmp :
  prepare_repo w repo = (t, inr (repo_path, tmp)) ->
  (isdir w repo = true /\ t = [] /\ repo_path = repo /\ tmp = None)
  \/ (cloned w repo
      /\ t = [TempDir (temp_name w); Ran (clone_cmd repo (temp_name w)) None]
      /\ repo_path = temp_name w /\ tmp = Some (temp_name w)).
Proof.
  destruct (prepare_repo_cases w repo)
    as [[Hdir ->]|[[Hclone ->]|[(_ & _ & _ & ->)|(_ & _ & ->)]]];
    intros [= <- <- <-] || intros [=]; [left|right]; done.
Qed.

Lemma prepare_repo_raises w repo t e :
  prepare_repo w repo = (t, inl e) ->
  (isdir w repo = false /\ is_repo_url repo = true
   /\ ~ succeeds w (clone_cmd repo (temp_name w)) None
   /\ t = [TempDir (temp_name w); Ran (clone_cmd repo (temp_name w)) None]
   /\ e = RuntimeError
            ("failed to clone repo: " +:+ repo +:+ newline
             +:+ stderr (subprocess_run w (clone_cmd repo (temp_name w)) None)))
  \/ (isdir w repo = false /\ is_repo_url repo = false /\ t = []
      /\ e = ValueError
               ("'" +:+ repo
                +:+ "' is neither an existing directory nor a supported URL")).
Proof.
  destruct (prepare_repo_cases w repo)
    as [[Hdir ->]|[[Hclone ->]|[(? & ? & ? & ->)|(? & ? & ->)]]];
    intros [= <- <-] || intros [=]; [left|right]; done.
Qed.

(** The runs of [main] with a positive number of commits. *)
Lemma main_cases w args :
  (0 < n args)%Z ->
  (exists t e,
     prepare_repo w (repo args) = (t, inl e)
     /\ scan w args = (t, inl e)
     /\ main w args = (t ++ (handled e).1, inl (handled e).2))
  \/ exists t repo_path tmp t' r,
       prepare_repo w (repo args) = (t, inr (repo_path, tmp))
       /\ Forall (fun ev => git_in repo_path ev = true) t'
       /\ scan w args = (t ++ t', r)
       /\ match r with
          | inl e =>
              ((exists msg, e = ValueError msg)
               \/ exists cmd code, e = CalledProcessError cmd code)
              /\ main w args
                 = (t ++ t' ++ (handled e).1 ++ cleanup tmp, inl (handled e).2)
          | inr findings =>
              main w args
              = (t ++ t' ++ cleanup tmp ++ (review_and_report w args findings).1,
                 (review_and_report w args findings).2)
          end.
Proof.
  intros Hn. unfold main, scan.
  replace (n args <=? 0)%Z with false by (symmetry; apply Z.leb_gt; lia).
  destruct (prepare_repo w (repo args)) as [t [e|[repo_path tmp]]].
  - left. exists t, e. split; [done|]. split; [done|]. by destruct (handled e).
  - right. cbn [bind].
    destruct (analyze_cases w repo_path (n args)) as (t' & r & -> & Hgit & Hr).
    exists t, repo_path, tmp, t', r. split; [done|]. split; [done|].
    destruct r as [e|findings].
    + split; [done|]. split.
      * destruct e; try done; [left|right]; eauto.
      * by destruct (handled e).
    + split; [done|]. by destruct (review_and_report w args findings).
Qed.

Lemma main_usage w args :
  (n args <= 0)%Z -> main w args = ([parser_error], inl (SystemExit 2)).
Proof. intros Hn%Z.leb_le. unfold main. by rewrite Hn. Qed.

Ltac main_leaves w args Hn :=
  let t := fresh "t" in
  let e := fresh "e" in
  let repo_path := fresh "repo_path" in
  let tmp := fresh "tmp" in
  let t' := fresh "t'" in
  let r := fresh "r" in
  let findings := fresh "findings" in
  let Hprep := fresh "Hprep" in
  let Hscan := fresh "Hscan" in
  let Hmain := fresh "Hmain" in
  let Hgit := fresh "Hgit" in
  let He := fresh "He" in
  destruct (Z.le_gt_cases (n args) 0) as [Hn|Hn];
  [ rewrite (main_usage w args Hn); cbn [fst snd]
  | apply Z.lt_gt, Z.gt_lt in Hn;
    destruct (main_cases w args Hn)
      as [(t & e & Hprep & Hscan & Hmain)
         |(t & repo_path & tmp & t' & r & Hprep & Hgit & Hscan & Hmain)];
    [ apply prepare_repo_raises in Hprep
        as [(? & ? & ? & -> & ->)|(? & ? & -> & ->)]
    | apply prepare_repo_ok in Hprep
        as [(? & -> & -> & ->)|(? & -> & -> & ->)];
      (destruct r as [e|findings];
       [ destruct Hmain as [[[? ->]|(? & ? & ->)] Hmain]
       | destruct (review_cases w args findings)
           as [[-> He]|[(? & ? & He)|(? & ? & ? & He & [->| ->])]];
         rewrite He in Hmain ]) ];
    rewrite Hmain, ?Hscan; clear Hmain;
    cbn [handled cleanup fst snd app] ].

(** X15: how [main] ends.  The exit status is 2 exactly when the number of
    commits is zero or negative, and then [main] only prints the parser's
    error: the repository is not looked at.  The exit status is 1 exactly
    when the number is positive and preparing or analysing the repository
    raised ValueError or CalledProcessError; [main] itself never ends with
    one of these two. *)
Theorem main_exit_status w args :
  ((main w args).2 = inl (SystemExit 2) <-> (n args <= 0)%Z)
  /\ ((n args <= 0)%Z -> (main w args).1 = [parser_error])
  /\ ((main w args).2 = inl (SystemExit 1)
      <-> (0 < n args)%Z
          /\ ((exists msg, (scan w args).2 = inl (ValueError msg))
              \/ exists cmd code,
                   (scan w args).2 = inl (CalledProcessError cmd code)))
  /\ (forall msg, (main w args).2 <> inl (ValueError msg))
  /\ (forall cmd code, (main w args).2 <> inl (CalledProcessError cmd code)).
Proof.
  main_leaves w args Hn.
  all: repeat split; try done; try lia; try (intros; lia).
  all: try (intros [_ [[? [=]]|(? & ? & [=])]]).
  all: try (intros _; split; [lia|]).
  all: (left; by eexists) || (right; by eexists _, _).
Qed.

Lemma git_in_Ran repo_path ev :
  git_in repo_path ev = true ->
  exists arguments, ev = Ran ("git" :: arguments) (Some repo_path).
Proof.
  destruct ev as [cmd cwd| | | | |]; try done.
  destruct cmd as [|program arguments]; [done|].
  destruct cwd as [cwd|]; [|done]. simpl.
  intros [->%String.eqb_eq ->%String.eqb_eq]%andb_prop. by exists arguments.
Qed.

Lemma Forall_git_in (P : event -> Prop) repo_path t :
  (forall arguments, P (Ran ("git" :: arguments) (Some repo_path))) ->
  Forall (fun ev => git_in repo_path ev = true) t -> Forall P t.
Proof.
  intros HP Ht. eapply Forall_impl; [exact Ht|].
  intros ev [arguments ->]%git_in_Ran. apply HP.
Qed.

(** X16: a clone that fails is not handled.  When the repository is no
    directory but looks like a URL and [git clone] fails, [main] ends with
    the RuntimeError of [prepare_repo]: it prints nothing, the exit status
    is not 1, and it does not clean the temporary directory up itself. *)
Theorem failed_clone_not_handled w args :
  (0 < n args)%Z -> isdir w (repo args) = false ->
  is_repo_url (repo args) = true ->
  ~ succeeds w (clone_cmd (repo args) (temp_name w)) None ->
  main w args
  = ([TempDir (temp_name w); Ran (clone_cmd (repo args) (temp_name w)) None],
     inl (RuntimeError
            ("failed to clone repo: " +:+ repo args +:+ newline
             +:+ stderr (subprocess_run w (clone_cmd (repo args) (temp_name w))
                           None)))).
Proof.
  intros Hn Hdir Hurl Hclone.
  destruct (main_cases w args Hn)
    as [(t & e & Hprep & _ & ->)|(t & repo_path & tmp & _ & _ & Hprep & _)].
  - apply prepare_repo_raises in Hprep
      as [(_ & _ & _ & -> & ->)|(_ & Hno & _)]; [done|congruence].
  - apply prepare_repo_ok in Hprep as [[Hyes _]|[(_ & _ & Hok) _]];
      [congruence|done].
Qed.

Lemma failed_clone_not_handled_witness :
  (main (local_world 128) (sample_args "https://example.org/demo.git")).1
  = [TempDir "/tmp/clone";
     Ran (clone_cmd "https://example.org/demo.git" "/tmp/clone") None].
Proof.
  rewrite (failed_clone_not_handled (local_world 128)
             (sample_args "https://example.org/demo.git"));
    [reflexivity|simpl; lia|reflexivity|reflexivity|].
  intros H. vm_compute in H. discriminate.
Defined.

Ltac trace_forall :=
  repeat first [rewrite Forall_app|rewrite Forall_cons|rewrite Forall_nil];
  repeat split; try done;
  try (eapply Forall_git_in; [|eassumption]; done).

(** X17: [main] calls the classifier at most once, and the call is the
    last thing it does.  The call is made with the payload built from the
    findings of the scan, which is not empty, and with the model of the
    arguments; before it nothing was written; after it [main] ends, well
    or with the classifier's error. *)
Theorem classifier_called_last w args :
  Forall (fun ev => is_classifier_call ev = false) (main w args).1
  \/ exists t findings,
       (main w args).1
       = t ++ [ClassifierCall (model_name w args)
                 (payload_of findings (min_confidence args))]
       /\ (scan w args).2 = inr findings
       /\ payload_of findings (min_confidence args) <> []
       /\ Forall (fun ev => is_classifier_call ev = false
                            /\ is_write ev = false) t
       /\ ((main w args).2 = inr tt \/ (main w args).2 = inl ClassifierError).
Proof.
  main_leaves w args Hn.
  all: try (left; by trace_forall).
  all: right.
  1-2: exists t', findings.
  3-4: exists (TempDir (temp_name w)
               :: Ran (clone_cmd (repo args) (temp_name w)) None
               :: t' ++ [CleanedUp (temp_name w)]), findings.
  all: split; [by rewrite <- ?app_comm_cons, <- ?app_assoc|].
  all: split; [done|]; split; [done|]; split; [by trace_forall|]; auto.
Qed.

Lemma git_in_elem repo_path t ev :
  Forall (fun ev => git_in repo_path ev = true) t -> ev ∈ t ->
  exists arguments, ev = Ran ("git" :: arguments) (Some repo_path).
Proof.
  intros Ht Hev. rewrite Forall_forall in Ht. by apply git_in_Ran, Ht.
Qed.

Ltac trace_elem H :=
  repeat first [rewrite elem_of_app in H|rewrite elem_of_cons in H
               |rewrite elem_of_nil in H];
  destruct_or?; try done;
  try match goal with
      | Hgit : Forall _ ?t, Hin : _ ∈ ?t |- _ =>
          destruct (git_in_elem _ _ _ Hgit Hin) as [? ?]; try done
      end.

(** X18: the report is written only when the scan found nothing.  [main]
    writes a file exactly when the number of commits is positive and the
    scan ended without a finding; what it writes then, to the path of the
    arguments, is the report with an empty list of findings.  When the
    scan has findings [main] writes nothing and prints nothing. *)
Theorem report_only_without_findings w args :
  ((exists path content, Wrote path content ∈ (main w args).1)
   <-> (0 < n args)%Z /\ (scan w args).2 = inr [])
  /\ (forall path content,
        Wrote path content ∈ (main w args).1 ->
        path = out args /\ content = empty_report args
        /\ (main w args).2 = inr tt)
  /\ (forall findings,
        (0 < n args)%Z -> (scan w args).2 = inr findings -> findings <> [] ->
        Forall (fun ev => is_write ev = false /\ is_print ev = false)
          (main w args).1).
Proof.
  main_leaves w args Hn.
  all: split;
    [split; [intros (path & content & Hin)|intros [Hpos Hs]]
    |split; [intros path content Hin|intros fs Hpos Hs Hne]].
  all: try lia.
  all: try (trace_elem Hin; fail).
  all: try (trace_elem Hin;
            match goal with
            | H : Wrote _ _ = Wrote _ _ |- _ => by injection H as -> ->
            end).
  all: try first [injection Hs as ->|injection Hs as <-]; try done.
  all: try by trace_forall.
  all: exists (out args), (empty_report args).
  all: repeat first [rewrite elem_of_app|rewrite elem_of_cons]; auto 10.
Qed.

Lemma cloned_not_dir w repo : cloned w repo -> isdir w repo = true -> False.
Proof. intros [H _]. congruence. Qed.

(** X19: the temporary clone is cleaned up once, after the last git
    command.  [main] cleans up only the temporary directory, and only when
    the repository was cloned into it; when it was, with a positive number
    of commits, the cleanup happens exactly once, whether the analysis
    ended well or not: no git command runs after it, and the classifier
    call and the report come after it. *)
Theorem cleanup_after_git w args :
  (forall name,
     CleanedUp name ∈ (main w args).1 ->
     name = temp_name w /\ cloned w (repo args) /\ (0 < n args)%Z)
  /\ (cloned w (repo args) -> (0 < n args)%Z ->
      exists t1 t2,
        (main w args).1 = t1 ++ CleanedUp (temp_name w) :: t2
        /\ Forall (fun ev => is_cleanup ev = false
                             /\ is_classifier_call ev = false
                             /\ is_write ev = false) t1
        /\ Forall (fun ev => is_cleanup ev = false /\ is_git ev = false) t2).
Proof.
  main_leaves w args Hn.
  all: split; [intros name Hin|intros Hcloned Hpos].
  all: try lia.
  all: try (trace_elem Hin; fail).
  all: try (trace_elem Hin;
            match goal with
            | H : CleanedUp _ = CleanedUp _ |- _ => by injection H as ->
            end).
  all: try (by destruct (cloned_not_dir w (repo args))).
  all: try (destruct Hcloned as (? & ? & ?); congruence).
  all: try (exists (TempDir (temp_name w)
                    :: Ran (clone_cmd (repo args) (temp_name w)) None :: t');
            (exists [] + eexists [_] + eexists [_; _]);
            split; [done|]; split; by trace_forall).
  all: eexists (TempDir (temp_name w)
                :: Ran (clone_cmd (repo args) (temp_name w)) None
                :: t' ++ [_]), [].
  all: split; [by rewrite <- ?app_comm_cons, <- ?app_assoc|].
  all: split; by trace_forall.
Qed.

Lemma cleanup_after_git_witness :
  exists t1 t2,
    (main remote_world (sample_args "https://example.org/demo.git")).1
    = t1 ++ CleanedUp "/tmp/clone" :: t2.
Proof.
  destruct (cleanup_after_git remote_world
              (sample_args "https://example.org/demo.git")) as [_ H].
  destruct H as (t1 & t2 & H & _);
    [repeat split; reflexivity|simpl; lia|by exists t1, t2].
Defined.

(** X20: a repository that is an existing directory is scanned where it
    is, also when its name looks like a URL.  All [main] does then is
    running git in that directory, printing, writing the report and
    calling the classifier: nothing is cloned, no temporary directory is
    made or cleaned up. *)
Theorem directory_scanned_in_place w args :
  isdir w (repo args) = true ->
  forall ev,
    ev ∈ (main w args).1 ->
    (exists arguments, ev = Ran ("git" :: arguments) (Some (repo args)))
    \/ is_print ev = true \/ is_write ev = true
    \/ is_classifier_call ev = true.
Proof.
  intros Hdir. main_leaves w args Hn.
  all: try congruence.
  all: try (by destruct (cloned_not_dir w (repo args))).
  all: intros ev Hin; trace_elem Hin; subst; auto.
  all: left; by eexists.
Qed.

Lemma directory_scanned_in_place_witness :
  Forall (fun ev =>
            (exists arguments, ev = Ran ("git" :: arguments) (Some "/repo"))
            \/ is_print ev = true \/ is_write ev = true
            \/ is_classifier_call ev = true)
    (main (local_world 0) (sample_args "/repo")).1.
Proof.
  apply Forall_forall.
  apply (directory_scanned_in_place (local_world 0) (sample_args "/repo")).
  reflexivity.
Defined.


(** ** What counts as a repository URL *)

Lemma startswith_iff s p :
  Str.startswith s p = true <-> exists rest, s = p +:+ rest.
Proof.
  unfold Str.startswith. split.
  - revert s. induction p as [|c p IH]; intros s H; [by exists s|].
    destruct s as [|d s]; [done|]. simpl in H.
    destruct (ascii_dec c d) as [->|]; [|done].
    destruct (IH s H) as [rest ->]. by exists rest.
  - intros [rest ->]. apply prefix_append.
Qed.

Lemma drop_append stem : forall p,
  Str.drop (String.length stem) (stem +:+ p) = p.
Proof. induction stem as [|c stem IH]; intros p; [done|]. simpl. apply IH. Qed.

Lemma length_append stem : forall p,
  String.length (stem +:+ p) = String.length stem + String.length p.
Proof.
  induction stem as [|c stem IH]; intros p; [done|].
  change (String c stem +:+ p) with (String c (stem +:+ p)). simpl.
  by rewrite IH.
Qed.

Lemma drop_suffix k : forall s, exists stem, s = stem +:+ Str.drop k s.
Proof.
  induction k as [|k IH]; intros s; [by exists EmptyString|].
  destruct s as [|c s]; [by exists EmptyString|]. simpl.
  destruct (IH s) as [stem Hstem]. exists (String c stem).
  change (String c stem +:+ Str.drop k s)
    with (String c (stem +:+ Str.drop k s)).
  by rewrite <- Hstem.
Qed.

Lemma endswith_iff s p : endswith s p = true <-> exists stem, s = stem +:+ p.
Proof.
  unfold endswith. split.
  - intros [_ H%String.eqb_eq]%andb_prop.
    destruct (drop_suffix (String.length s - String.length p) s)
      as [stem Hstem].
    exists stem. by rewrite H in Hstem.
  - intros [stem ->]. rewrite length_append. apply andb_true_intro. split.
    + apply Nat.leb_le. lia.
    + replace (String.length stem + String.length p - String.length p)
        with (String.length stem) by lia.
      rewrite drop_append. apply String.eqb_refl.
Qed.

(** X25: what [is_repo_url] takes for a URL, and when [prepare_repo]
    clones.  A string is taken for a repository URL exactly when it
    begins with [http://], [https://] or [git@], or ends with [.git]; and
    [prepare_repo] runs [git clone] exactly for the strings of these
    shapes that are no existing directory. *)
Theorem is_repo_url_shapes w repo :
  (is_repo_url repo = true
   <-> (exists rest, repo = "http://" +:+ rest)
       \/ (exists rest, repo = "https://" +:+ rest)
       \/ (exists rest, repo = "git@" +:+ rest)
       \/ exists stem, repo = stem +:+ ".git")
  /\ (Ran (clone_cmd repo (temp_name w)) None ∈ (prepare_repo w repo).1
      <-> isdir w repo = false /\ is_repo_url repo = true).
Proof.
  split.
  - unfold is_repo_url. rewrite !orb_true_iff, !startswith_iff, endswith_iff.
    tauto.
  - destruct (prepare_repo_cases w repo)
      as [[Hdir ->]|[[(Hdir & Hurl & _) ->]
                    |[(Hdir & Hurl & _ & ->)|(Hdir & Hurl & ->)]]];
      cbn [fst]; rewrite ?elem_of_cons, ?elem_of_nil.
    + split; [tauto|]. intros [H _]. congruence.
    + split; [done|]. intros _. by right; left.
    + split; [done|]. intros _. by right; left.
    + split; [tauto|]. intros [_ H]. congruence.
Qed.


(** ** From the scan to the classifier *)

Lemma commit_findings_tier w repo_path commit_hash f :
  f ∈ commit_findings w repo_path commit_hash -> has_tier f.
Proof.
  unfold commit_findings, has_tier. intros [Hf|Hf]%elem_of_app.
  - rewrite scan_diff_for_passwords_eq in Hf.
    apply elem_of_diff_findings
      in Hf as (file & m & line & code & regex & pn & ft & _ & _ & _ & ->).
    pose proof (diff_finding_fields commit_hash file m code pn ft) as H.
    cbv zeta in H. destruct H as (_ & _ & _ & _ & _ & Hconf).
    eexists. split; [exact Hconf|apply entropy_to_confidence_tier].
  - rewrite scan_text_for_passwords_eq in Hf.
    apply elem_of_text_findings
      in Hf as (m & line & regex & pn & ft & _ & _ & ->).
    pose proof (text_finding_fields (Some commit_hash) "COMMIT_MESSAGE" m
                  (Str.rstrip_nl line) pn ft) as H.
    cbv zeta in H. destruct H as (_ & _ & _ & _ & _ & Hconf).
    eexists. split; [exact Hconf|apply entropy_to_confidence_tier].
Qed.

Lemma analyze_returns w repo_path n t findings :
  analyze_last_n_commits w repo_path n = (t, inr findings) ->
  findings = []
  \/ findings
     = flat_map (commit_findings w repo_path) (listed_hashes w repo_path n).
Proof.
  destruct (valid_repo w repo_path) eqn:Hvalid;
    [|by rewrite analyze_invalid].
  destruct (Z.le_gt_cases n 0) as [Hn|Hn].
  { rewrite analyze_nothing by done. intros [= <- <-]. by left. }
  apply Z.lt_gt, Z.gt_lt in Hn.
  destruct (succeeds_dec w (log_cmd n) (Some repo_path)) as [Hlog|Hlog];
    [destruct (all_succeed_dec w repo_path (listed_hashes w repo_path n))
      as [Hall|Hall]|].
  - rewrite analyze_run_ok by done. intros [= <- <-]. by right.
  - destruct (analyze_run_failed w repo_path n) as (t0 & cmd & -> & _);
      [done|done|tauto|done].
  - destruct (analyze_run_failed w repo_path n) as (t0 & cmd & -> & _);
      [done|done|tauto|done].
Qed.

Lemma scan_tier w args findings :
  (scan w args).2 = inr findings -> Forall has_tier findings.
Proof.
  unfold scan. destruct (prepare_repo w (repo args)) as [t [e|[repo_path tmp]]];
    [done|]. cbn [bind].
  destruct (analyze_last_n_commits w repo_path (n args)) as [t' r] eqn:Hrun.
  cbn [snd]. intros ->. apply analyze_returns in Hrun as [->| ->]; [done|].
  apply Forall_forall. intros f Hf.
  apply list_elem_of_In, in_flat_map in Hf as (h & _ & Hf).
  apply (commit_findings_tier w repo_path h). by apply list_elem_of_In.
Qed.

Lemma has_tier_wants_review f : has_tier f -> wants_review 2 f = true.
Proof.
  intros (c & Hc & Htier). unfold wants_review. rewrite (conf_of_str f c Hc).
  rewrite !elem_of_cons, elem_of_nil in Htier.
  by destruct Htier as [->|[->|[->|[]]]].
Qed.

Lemma filter_all {A} (p : A -> bool) (l : list A) :
  Forall (fun x => p x = true) l -> List.filter p l = l.
Proof.
  induction 1 as [|x l Hx _ IH]; [done|]. simpl. by rewrite Hx, IH.
Qed.

Lemma select_high findings :
  Forall has_tier findings ->
  select_llm_candidates (alloc findings) (refs findings) "high" = refs findings.
Proof.
  intros Htier. rewrite select_llm_candidates_filter. apply filter_all.
  apply Forall_forall. intros l Hl. unfold refs in Hl.
  apply elem_of_seq in Hl as [_ Hl].
  destruct (lookup_lt_is_Some_2 findings l) as [f Hf]; [lia|].
  rewrite (deref_Some (alloc findings) l f) by (by rewrite alloc_lookup).
  apply has_tier_wants_review. rewrite Forall_forall in Htier.
  apply Htier. by eapply list_elem_of_lookup_2.
Qed.

Lemma payload_of_high findings :
  Forall has_tier findings ->
  length (payload_of findings "high") = length findings
  /\ forall k f,
       findings !! k = Some f ->
       payload_of findings "high" !! k = Some (llm_finding (review_id (S k)) f).
Proof.
  intros Htier. unfold payload_of.
  rewrite build_llm_payload_eq, select_high by done. cbn [snd]. split.
  - rewrite payload_items_length. unfold refs. apply length_seq.
  - intros k f Hk. rewrite payload_items_lookup. unfold refs.
    rewrite lookup_seq_lt by (by eapply lookup_lt_Some). cbn.
    by rewrite (deref_Some (alloc findings) k f) by (by rewrite alloc_lookup).
Qed.

(** X21: with the threshold high, [main] sends every finding of the scan
    to the classifier.  The scanner gives each finding one of the
    confidences low, medium and high, so none is left out: the payload has
    one item for each finding, in the order of the scan, the k-th being
    the copy of the k-th finding under the id fk; the call is the last
    thing [main] does. *)
Theorem high_threshold_reviews_all w args findings :
  (0 < n args)%Z -> (scan w args).2 = inr findings -> findings <> [] ->
  min_confidence args = "high" ->
  exists t,
    (main w args).1
    = t ++ [ClassifierCall (model_name w args) (payload_of findings "high")]
    /\ length (payload_of findings "high") = length findings
    /\ forall k f,
         findings !! k = Some f ->
         payload_of findings "high" !! k
         = Some (llm_finding (review_id (S k)) f).
Proof.
  intros Hpos Hfindings Hne Hhigh.
  destruct (payload_of_high findings (scan_tier w args findings Hfindings))
    as [Hlen Hitems].
  assert (payload_of findings "high" <> []) as Hpayload.
  { intros Hnil. rewrite Hnil in Hlen. by destruct findings. }
  revert Hfindings. main_leaves w args Hn; try lia; try done.
  all: first [intros [= ->]|intros [= <-]]; try done.
  all: try (rewrite Hhigh in *; done).
  all: rewrite Hhigh.
  1-2: exists t'.
  3-4: exists (TempDir (temp_name w)
               :: Ran (clone_cmd (repo args) (temp_name w)) None
               :: t' ++ [CleanedUp (temp_name w)]).
  all: split; [by rewrite <- ?app_comm_cons, <- ?app_assoc|done].
Qed.

Lemma scan_app_py_diff diff_source :
  scan_diff_for_passwords app_py_diff diff_source
  = [diff_finding diff_source (Some "app.py") 6 password_snippet
       "password assignment" "hardcoded_password"].
Proof.
  rewrite scan_diff_for_passwords_eq.
  replace (Str.splitlines app_py_diff)
    with ([ "diff --git a/app.py b/app.py"; "index 83db48f..bf3c1a2 100644";
            "--- a/app.py" ]
          ++ ["+++ b/app.py"] ++ ["@@ -1,2 +1,3 @@"] ++ [password_line]
          ++ [ " import os"; "-user = None"; "+user = os.environ.get('USER')" ])
    by (vm_compute; reflexivity).
  by rewrite (diff_findings_after_header diff_source _ "app.py" _
                [ "diff --git a/app.py b/app.py";
                  "index 83db48f..bf3c1a2 100644"; "--- a/app.py" ]
                [ "@@ -1,2 +1,3 @@" ]
                [ " import os"; "-user = None";
                  "+user = os.environ.get('USER')" ]
                _ _ _ _ header_file_app_py eq_refl added_code_password_line
                first_match_password_snippet)
    by (vm_compute; reflexivity).
Qed.

Lemma high_threshold_reviews_all_witness :
  exists t,
    (main (local_world 0) strict_args).1
    = t ++ [ClassifierCall "gpt-4o-mini"
              (payload_of
                 (flat_map (commit_findings (local_world 0) "/repo") ["c0ffee"])
                 "high")].
Proof.
  destruct (high_threshold_reviews_all (local_world 0) strict_args
              (flat_map (commit_findings (local_world 0) "/repo") ["c0ffee"]))
    as (t & Ht & _); [simpl; lia| | |reflexivity|by exists t].
  - unfold scan. change (prepare_repo (local_world 0) (repo strict_args))
      with (([], inr ("/repo", None)) : M (string * option string)).
    cbn [bind]. change (n strict_args) with 1%Z.
    rewrite analyze_run_ok; [reflexivity|reflexivity|lia|reflexivity|].
    vm_compute. repeat constructor.
  - cbn [flat_map]. unfold commit_findings.
    change (stdout (subprocess_run (local_world 0) (patch_cmd "c0ffee")
                      (Some "/repo"))) with app_py_diff.
    by rewrite scan_app_py_diff.
Defined.
